(** * ChessGame: a shallow embedding of [ChessEngine.py] and [ChessMain.py]

    The engine is a Python class [GameState] (board, side to move, move log,
    cached king squares, last check/pin results) together with a value class
    [Move].  Every method is rendered as a function that passes the state
    explicitly; Python exceptions ([IndexError], [KeyError], [ValueError])
    are the [Raise] results of a small error monad.  Integers are [Z]
    (Python integers are unbounded), pieces are two-character strings as in
    the source, and list indexing follows Python: a negative index counts
    from the end of the list.  The driver's event loop is rendered as a
    function of its local variables and the events of each frame; the
    drawing is left out. *)

From Stdlib Require Import ZArith String Ascii List Sorted Bool Lia.
Import ListNotations.
Open Scope string_scope.
Open Scope list_scope.
Open Scope Z_scope.

(** ** Exceptions *)

Inductive exn : Type := IndexError | KeyError | ValueError.

Inductive result (A : Type) : Type :=
| Ok (a : A)
| Raise (e : exn).

Arguments Ok {A} a.
Arguments Raise {A} e.

Definition bind {A B : Type} (m : result A) (k : A -> result B) : result B :=
  match m with
  | Ok a => k a
  | Raise e => Raise e
  end.

Notation "x <- m ;; k" := (bind m (fun x => k))
  (at level 61, m at next level, right associativity).
Notation "' pat <- m ;; k" := (bind m (fun x => match x with pat => k end))
  (at level 61, pat pattern, m at next level, right associativity).

(** ** Python sequences *)

Module Py.

(** [l[i]]: indices [-len l .. len l - 1] are valid. *)
Definition norm (n i : Z) : Z := if i <? 0 then i + n else i.

Definition index {A : Type} (l : list A) (i : Z) : result A :=
  let j := norm (Z.of_nat (length l)) i in
  if j <? 0 then Raise IndexError
  else match nth_error l (Z.to_nat j) with
       | Some x => Ok x
       | None => Raise IndexError
       end.

Fixpoint update {A : Type} (l : list A) (n : nat) (x : A) : list A :=
  match l, n with
  | [], _ => []
  | _ :: t, O => x :: t
  | h :: t, S n' => h :: update t n' x
  end.

(** [l[i] = x] *)
Definition setitem {A : Type} (l : list A) (i : Z) (x : A) : result (list A) :=
  let j := norm (Z.of_nat (length l)) i in
  if (j <? 0) || (Z.of_nat (length l) <=? j) then Raise IndexError
  else Ok (update l (Z.to_nat j) x).

(** [l.remove(x)]: drops the first item equal to [x]. *)
Fixpoint remove {A : Type} (eqb : A -> A -> bool) (x : A) (l : list A)
  : result (list A) :=
  match l with
  | [] => Raise ValueError
  | y :: t => if eqb y x then Ok t
              else (t' <- remove eqb x t ;; Ok (y :: t'))
  end.

(** [s[n]] on a string, for a literal index [n >= 0]. *)
Definition char (s : string) (n : nat) : result ascii :=
  match String.get n s with
  | Some a => Ok a
  | None => Raise IndexError
  end.

(** [range(a, b)] *)
Definition range (a b : Z) : list Z :=
  map (fun k => a + Z.of_nat k) (seq 0 (Z.to_nat (b - a))).

(** [range(n - 1, -1, -1)] *)
Definition down (n : nat) : list nat := rev (seq 0 n).

(** a dictionary literal, as the list of its items *)
Fixpoint lookup {K V : Type} (eqb : K -> K -> bool) (d : list (K * V)) (k : K)
  : result V :=
  match d with
  | [] => Raise KeyError
  | (k', v) :: t => if eqb k' k then Ok v else lookup eqb t k
  end.

End Py.

(** ** Squares, boards, moves *)

Definition Square : Type := Z * Z.
Definition Board : Type := list (list string).

(** [(row, col, dRow, dCol)]: the tuples of [pins] and [checks]. *)
Definition Quad : Type := Z * Z * Z * Z.

Definition quad_eqb (p q : Quad) : bool :=
  match p, q with
  | (a, b, c, d), (a', b', c', d') =>
      (a =? a') && (b =? b') && (c =? c') && (d =? d')
  end.

Definition sq_eqb (p q : Square) : bool :=
  (fst p =? fst q) && (snd p =? snd q).

(** [board[r][c]] *)
Definition board_get (b : Board) (r c : Z) : result string :=
  row <- Py.index b r ;; Py.index row c.

(** [board[r][c] = x] *)
Definition board_set (b : Board) (r c : Z) (x : string) : result Board :=
  row <- Py.index b r ;;
  row' <- Py.setitem row c x ;;
  Py.setitem b r row'.

(** [0 <= r < 8 and 0 <= c < 8] *)
Definition onBoard (r c : Z) : bool :=
  (0 <=? r) && (r <? 8) && (0 <=? c) && (c <? 8).

Record Move : Type := MkMove {
  startRow : Z;
  startCol : Z;
  endRow : Z;
  endCol : Z;
  pieceMoved : string;
  pieceCaptured : string;
  moveID : Z
}.

(** [Move.__init__]; the constructor also prints [moveID], which has no
    effect on the game state and is left out. *)
Definition Move_init (startSq endSq : Square) (board : Board) : result Move :=
  let sr := fst startSq in
  let sc := snd startSq in
  let er := fst endSq in
  let ec := snd endSq in
  pm <- board_get board sr sc ;;
  pc <- board_get board er ec ;;
  Ok {| startRow := sr; startCol := sc; endRow := er; endCol := ec;
        pieceMoved := pm; pieceCaptured := pc;
        moveID := er * 1000 + ec * 100 + sr * 10 + sc |}.

(** [Move.__eq__] *)
Definition Move_eqb (m1 m2 : Move) : bool := moveID m1 =? moveID m2.

(** *** Notation *)

Definition ranksToRows : list (ascii * Z) :=
  [("1"%char, 7); ("2"%char, 6); ("3"%char, 5); ("4"%char, 4);
   ("5"%char, 3); ("6"%char, 2); ("7"%char, 1); ("8"%char, 0)].

(** [{v: k for k, v in d.items()}] *)
Definition invert {K V : Type} (d : list (K * V)) : list (V * K) :=
  map (fun kv => (snd kv, fst kv)) d.

Definition rowsToRanks : list (Z * ascii) := invert ranksToRows.

Definition filesToCols : list (ascii * Z) :=
  [("a"%char, 7); ("b"%char, 6); ("c"%char, 5); ("d"%char, 4);
   ("e"%char, 3); ("f"%char, 2); ("g"%char, 1); ("h"%char, 0)].

Definition colsToFiles : list (Z * ascii) := invert filesToCols.

Definition getRankFile (r c : Z) : result string :=
  f <- Py.lookup Z.eqb colsToFiles c ;;
  k <- Py.lookup Z.eqb rowsToRanks r ;;
  Ok (String f (String k EmptyString)).

Definition getChessNotation (m : Move) : result string :=
  a <- getRankFile (startRow m) (startCol m) ;;
  b <- getRankFile (endRow m) (endCol m) ;;
  Ok (a ++ b)%string.

(** ** Game state *)

Record GameState : Type := MkGameState {
  board : Board;
  whiteToMove : bool;
  moveLog : list Move;
  whiteKingLocation : Square;
  blackKingLocation : Square;
  inCheck : bool;
  checks : list Quad;
  pins : list Quad
}.

Definition initialBoard : Board :=
  [ ["bR"; "bN"; "bB"; "bQ"; "bK"; "bB"; "bN"; "bR"];
    ["bp"; "bp"; "bp"; "bp"; "bp"; "bp"; "bp"; "bp"];
    ["--"; "--"; "--"; "--"; "--"; "--"; "--"; "--"];
    ["--"; "--"; "--"; "--"; "--"; "--"; "--"; "--"];
    ["--"; "--"; "--"; "--"; "--"; "--"; "--"; "--"];
    ["--"; "--"; "--"; "--"; "--"; "--"; "--"; "--"];
    ["wp"; "wp"; "wp"; "wp"; "wp"; "wp"; "wp"; "wp"];
    ["wR"; "wN"; "wB"; "wQ"; "wK"; "wB"; "wN"; "wR"] ].

(** [GameState.__init__] *)
Definition newGame : GameState :=
  {| board := initialBoard; whiteToMove := true; moveLog := [];
     whiteKingLocation := (7, 4); blackKingLocation := (0, 4);
     inCheck := false; checks := []; pins := [] |}.

Definition set_board (s : GameState) (b : Board) : GameState :=
  {| board := b; whiteToMove := whiteToMove s; moveLog := moveLog s;
     whiteKingLocation := whiteKingLocation s;
     blackKingLocation := blackKingLocation s;
     inCheck := inCheck s; checks := checks s; pins := pins s |}.

Definition set_whiteToMove (s : GameState) (w : bool) : GameState :=
  {| board := board s; whiteToMove := w; moveLog := moveLog s;
     whiteKingLocation := whiteKingLocation s;
     blackKingLocation := blackKingLocation s;
     inCheck := inCheck s; checks := checks s; pins := pins s |}.

Definition set_moveLog (s : GameState) (l : list Move) : GameState :=
  {| board := board s; whiteToMove := whiteToMove s; moveLog := l;
     whiteKingLocation := whiteKingLocation s;
     blackKingLocation := blackKingLocation s;
     inCheck := inCheck s; checks := checks s; pins := pins s |}.

Definition set_whiteKingLocation (s : GameState) (q : Square) : GameState :=
  {| board := board s; whiteToMove := whiteToMove s; moveLog := moveLog s;
     whiteKingLocation := q;
     blackKingLocation := blackKingLocation s;
     inCheck := inCheck s; checks := checks s; pins := pins s |}.

Definition set_blackKingLocation (s : GameState) (q : Square) : GameState :=
  {| board := board s; whiteToMove := whiteToMove s; moveLog := moveLog s;
     whiteKingLocation := whiteKingLocation s;
     blackKingLocation := q;
     inCheck := inCheck s; checks := checks s; pins := pins s |}.

Definition set_pins (s : GameState) (p : list Quad) : GameState :=
  {| board := board s; whiteToMove := whiteToMove s; moveLog := moveLog s;
     whiteKingLocation := whiteKingLocation s;
     blackKingLocation := blackKingLocation s;
     inCheck := inCheck s; checks := checks s; pins := p |}.

Definition set_analysis (s : GameState) (ic : bool) (p c : list Quad)
  : GameState :=
  {| board := board s; whiteToMove := whiteToMove s; moveLog := moveLog s;
     whiteKingLocation := whiteKingLocation s;
     blackKingLocation := blackKingLocation s;
     inCheck := ic; checks := c; pins := p |}.

(** [makeMove]: the two board writes, the log, the turn, the king cache. *)
Definition makeMove (s : GameState) (move : Move) : result GameState :=
  b1 <- board_set (board s) (startRow move) (startCol move) "--" ;;
  b2 <- board_set b1 (endRow move) (endCol move) (pieceMoved move) ;;
  let s1 := set_board s b2 in
  let s2 := set_moveLog s1 (moveLog s1 ++ [move]) in
  let s3 := set_whiteToMove s2 (negb (whiteToMove s2)) in
  if (pieceMoved move =? "wK")%string
  then Ok (set_whiteKingLocation s3 (endRow move, endCol move))
  else if (pieceMoved move =? "bK")%string
  then Ok (set_blackKingLocation s3 (endRow move, endCol move))
  else Ok s3.

(** [list.pop()] on a non-empty list: the last item and the rest. *)
Definition pop {A : Type} (l : list A) : option (A * list A) :=
  match rev l with
  | [] => None
  | x :: t => Some (x, rev t)
  end.

(** [undoMove] *)
Definition undoMove (s : GameState) : result GameState :=
  if negb (Nat.eqb (length (moveLog s)) 0) then
    match pop (moveLog s) with
    | None => Raise IndexError
    | Some (move, log') =>
        let s0 := set_moveLog s log' in
        b1 <- board_set (board s0) (startRow move) (startCol move)
                        (pieceMoved move) ;;
        b2 <- board_set b1 (endRow move) (endCol move) (pieceCaptured move) ;;
        let s1 := set_board s0 b2 in
        let s2 := set_whiteToMove s1 (negb (whiteToMove s1)) in
        if (pieceMoved move =? "wK")%string
        then Ok (set_whiteKingLocation s2 (startRow move, startCol move))
        else if (pieceMoved move =? "bK")%string
        then Ok (set_blackKingLocation s2 (startRow move, startCol move))
        else Ok s2
    end
  else Ok s.

(** ** Pins and checks *)

Definition directions : list (Z * (Z * Z)) :=
  [(0, (-1, 0)); (1, (0, -1)); (2, (1, 0)); (3, (0, 1));
   (4, (-1, -1)); (5, (-1, 1)); (6, (1, -1)); (7, (1, 1))].

Definition knightMoves : list (Z * Z) :=
  [(-2, -1); (-2, 1); (-1, -2); (-1, 2); (1, -2); (1, 2); (2, -1); (2, 1)].

(** The five-way test of lines 151-154: does an enemy piece of kind
    [typePiece], met at distance [i] on ray number [j], attack the king? *)
Definition attacks (enemyColor : ascii) (j i : Z) (typePiece : ascii) : bool :=
  ((0 <=? j) && (j <=? 3) && (typePiece =? "R")%char)
  || ((4 <=? j) && (j <=? 7) && (typePiece =? "B")%char)
  || ((i =? 1) && (typePiece =? "p")%char
      && (((enemyColor =? "w")%char && (6 <=? j) && (j <=? 7))
          || ((enemyColor =? "b")%char && (4 <=? j) && (j <=? 5))))
  || (typePiece =? "Q")%char
  || ((i =? 1) && (typePiece =? "K")%char).

(** The inner loop [for i in range(1, 8)] of one ray.  [possiblePin] is
    [None] for the empty tuple.  An attacker found behind a pin candidate
    neither records anything nor leaves the loop: the source has no branch
    for that case. *)
Fixpoint scanRay (b : Board) (allyColor enemyColor : ascii)
    (kRow kCol j : Z) (d : Z * Z) (steps : list Z)
    (possiblePin : option Quad) (inCheck : bool) (checks : list Quad)
  : result (bool * list Quad) :=
  match steps with
  | [] => Ok (inCheck, checks)
  | i :: rest =>
      let endRow := kRow + fst d * i in
      let endCol := kCol + snd d * i in
      if onBoard endRow endCol then
        endPiece <- board_get b endRow endCol ;;
        c0 <- Py.char endPiece 0 ;;
        if (c0 =? allyColor)%char && negb (endPiece =? "K")%string then
          match possiblePin with
          | None =>
              scanRay b allyColor enemyColor kRow kCol j d rest
                      (Some (endRow, endCol, fst d, snd d)) inCheck checks
          | Some _ => Ok (inCheck, checks)
          end
        else if (c0 =? enemyColor)%char then
          typePiece <- Py.char endPiece 1 ;;
          if attacks enemyColor j i typePiece then
            match possiblePin with
            | None => Ok (true, checks ++ [(endRow, endCol, fst d, snd d)])
            | Some _ =>
                scanRay b allyColor enemyColor kRow kCol j d rest
                        possiblePin inCheck checks
            end
          else Ok (inCheck, checks)
        else
          scanRay b allyColor enemyColor kRow kCol j d rest
                  possiblePin inCheck checks
      else Ok (inCheck, checks)
  end.

(** The outer loop over the eight rays. *)
Fixpoint scanRays (b : Board) (allyColor enemyColor : ascii)
    (kRow kCol : Z) (ds : list (Z * (Z * Z)))
    (inCheck : bool) (checks : list Quad) : result (bool * list Quad) :=
  match ds with
  | [] => Ok (inCheck, checks)
  | (j, d) :: rest =>
      '(inCheck', checks') <-
        scanRay b allyColor enemyColor kRow kCol j d (Py.range 1 8)
                None inCheck checks ;;
      scanRays b allyColor enemyColor kRow kCol rest inCheck' checks'
  end.

(** The knight loop. *)
Fixpoint scanKnights (b : Board) (enemyColor : ascii) (kRow kCol : Z)
    (ms : list (Z * Z)) (inCheck : bool) (checks : list Quad)
  : result (bool * list Quad) :=
  match ms with
  | [] => Ok (inCheck, checks)
  | m :: rest =>
      let endRow := kRow + fst m in
      let endCol := kCol + snd m in
      if onBoard endRow endCol then
        endPiece <- board_get b endRow endCol ;;
        c0 <- Py.char endPiece 0 ;;
        if (c0 =? enemyColor)%char then
          c1 <- Py.char endPiece 1 ;;
          if (c1 =? "N")%char then
            scanKnights b enemyColor kRow kCol rest true
                        (checks ++ [(endRow, endCol, fst m, snd m)])
          else scanKnights b enemyColor kRow kCol rest inCheck checks
        else scanKnights b enemyColor kRow kCol rest inCheck checks
      else scanKnights b enemyColor kRow kCol rest inCheck checks
  end.

Definition allyColorOf (s : GameState) : ascii :=
  if whiteToMove s then "w"%char else "b"%char.

Definition enemyColorOf (s : GameState) : ascii :=
  if whiteToMove s then "b"%char else "w"%char.

(** The cached king square of the side to move. *)
Definition kingLocation (s : GameState) : Square :=
  if whiteToMove s then whiteKingLocation s else blackKingLocation s.

(** [checksForPinsAndChecks]: returns [(inCheck, pins, checks)].  The local
    list [pins] is created empty and returned; no statement of the method
    appends to it. *)
Definition checksForPinsAndChecks (s : GameState)
  : result (bool * list Quad * list Quad) :=
  let pins : list Quad := [] in
  let checks : list Quad := [] in
  let inCheck := false in
  let enemyColor := enemyColorOf s in
  let allyColor := allyColorOf s in
  let kRow := fst (kingLocation s) in
  let kCol := snd (kingLocation s) in
  '(inCheck1, checks1) <-
    scanRays (board s) allyColor enemyColor kRow kCol directions
             inCheck checks ;;
  '(inCheck2, checks2) <-
    scanKnights (board s) enemyColor kRow kCol knightMoves inCheck1 checks1 ;;
  Ok (inCheck2, pins, checks2).

(** ** Move generators

    A generator takes the state, the square of the piece and the list
    [moves] it appends to, and returns the (possibly mutated) state with
    the extended list. *)

Definition Generator : Type :=
  GameState -> Z -> Z -> list Move -> result (GameState * list Move).

(** The search [for i in range(len(self.pins) - 1, -1, -1)] for an entry of
    [pins] on square [(r, c)], up to its [break]. *)
Fixpoint findPin (pins : list Quad) (r c : Z) (idxs : list nat)
  : result (option Quad) :=
  match idxs with
  | [] => Ok None
  | i :: rest =>
      p <- Py.index pins (Z.of_nat i) ;;
      match p with
      | (pr, pc, _, _) =>
          if (pr =? r) && (pc =? c) then Ok (Some p)
          else findPin pins r c rest
      end
  end.

Definition pinAxis (p : Quad) : Z * Z :=
  match p with (_, _, dr, dc) => (dr, dc) end.

(** The prologue of the pawn, knight and bishop generators: the entry that
    is found is removed from [self.pins]. *)
Definition takePin (s : GameState) (r c : Z)
  : result (bool * option (Z * Z) * GameState) :=
  found <- findPin (pins s) r c (Py.down (length (pins s))) ;;
  match found with
  | None => Ok (false, None, s)
  | Some p =>
      pins' <- Py.remove quad_eqb p (pins s) ;;
      Ok (true, Some (pinAxis p), set_pins s pins')
  end.

(** The prologue of the rook generator: the entry stays when the piece on
    [(r, c)] is a queen. *)
Definition takePinRook (s : GameState) (r c : Z)
  : result (bool * option (Z * Z) * GameState) :=
  found <- findPin (pins s) r c (Py.down (length (pins s))) ;;
  match found with
  | None => Ok (false, None, s)
  | Some p =>
      piece <- board_get (board s) r c ;;
      kind <- Py.char piece 1 ;;
      if negb (kind =? "Q")%char then
        pins' <- Py.remove quad_eqb p (pins s) ;;
        Ok (true, Some (pinAxis p), set_pins s pins')
      else Ok (true, Some (pinAxis p), s)
  end.

(** [pinDirection == d]; the initial [pinDirection = ()] equals no pair. *)
Definition axis_is (pinDirection : option (Z * Z)) (d : Z * Z) : bool :=
  match pinDirection with
  | Some q => sq_eqb q d
  | None => false
  end.

(** [moves.append(Move((r, c), (r', c'), self.board))] *)
Definition append_move (b : Board) (r c r' c' : Z) (moves : list Move)
  : result (list Move) :=
  m <- Move_init (r, c) (r', c') b ;; Ok (moves ++ [m]).

(** Pawn advance: [dr] is [-1] for white and [1] for black, [home] the rank
    from which two squares may be advanced. *)
Definition pawnAdvance (b : Board) (r c dr home : Z)
    (piecePinned : bool) (pinDirection : option (Z * Z)) (moves : list Move)
  : result (list Move) :=
  ahead <- board_get b (r + dr) c ;;
  if (ahead =? "--")%string then
    if negb piecePinned || axis_is pinDirection (dr, 0) then
      moves1 <- append_move b r c (r + dr) c moves ;;
      if r =? home then
        ahead2 <- board_get b (r + 2 * dr) c ;;
        if (ahead2 =? "--")%string
        then append_move b r c (r + 2 * dr) c moves1
        else Ok moves1
      else Ok moves1
    else Ok moves
  else Ok moves.

(** Pawn capture towards column [c + dc]; [guard] is the column test of the
    source, [c - 1 >= 0] to the left and [c + 1 <= 7] to the right. *)
Definition pawnCapture (b : Board) (r c dr dc : Z) (guard : bool)
    (enemy : ascii)
    (piecePinned : bool) (pinDirection : option (Z * Z)) (moves : list Move)
  : result (list Move) :=
  if guard then
    target <- board_get b (r + dr) (c + dc) ;;
    col <- Py.char target 0 ;;
    if (col =? enemy)%char then
      if negb piecePinned || axis_is pinDirection (dr, dc)
      then append_move b r c (r + dr) (c + dc) moves
      else Ok moves
    else Ok moves
  else Ok moves.

Definition getPawnMoves : Generator := fun s r c moves =>
  '(piecePinned, pinDirection, s1) <- takePin s r c ;;
  let b := board s1 in
  if whiteToMove s1 then
    moves1 <- pawnAdvance b r c (-1) 6 piecePinned pinDirection moves ;;
    moves2 <- pawnCapture b r c (-1) (-1) (c - 1 >=? 0) "b"
                          piecePinned pinDirection moves1 ;;
    moves3 <- pawnCapture b r c (-1) 1 (c + 1 <=? 7) "b"
                          piecePinned pinDirection moves2 ;;
    Ok (s1, moves3)
  else
    moves1 <- pawnAdvance b r c 1 1 piecePinned pinDirection moves ;;
    moves2 <- pawnCapture b r c 1 (-1) (c - 1 >=? 0) "w"
                          piecePinned pinDirection moves1 ;;
    moves3 <- pawnCapture b r c 1 1 (c + 1 <=? 7) "w"
                          piecePinned pinDirection moves2 ;;
    Ok (s1, moves3).

(** One ray of a rook or a bishop.  The [break] labelled "off board" in the
    source belongs to the pin test; a square off the board lets the loop
    run on. *)
Fixpoint slideRay (b : Board) (enemyColor : ascii) (r c : Z)
    (piecePinned : bool) (pinDirection : option (Z * Z)) (d : Z * Z)
    (steps : list Z) (moves : list Move) : result (list Move) :=
  match steps with
  | [] => Ok moves
  | i :: rest =>
      let endRow := r + fst d * i in
      let endCol := c + snd d * i in
      if onBoard endRow endCol then
        if negb piecePinned || axis_is pinDirection d
           || axis_is pinDirection (- fst d, - snd d) then
          endPiece <- board_get b endRow endCol ;;
          if (endPiece =? "--")%string then
            moves1 <- append_move b r c endRow endCol moves ;;
            slideRay b enemyColor r c piecePinned pinDirection d rest moves1
          else
            c0 <- Py.char endPiece 0 ;;
            if (c0 =? enemyColor)%char
            then append_move b r c endRow endCol moves
            else Ok moves
        else Ok moves
      else slideRay b enemyColor r c piecePinned pinDirection d rest moves
  end.

Fixpoint slideRays (b : Board) (enemyColor : ascii) (r c : Z)
    (piecePinned : bool) (pinDirection : option (Z * Z))
    (ds : list (Z * Z)) (moves : list Move) : result (list Move) :=
  match ds with
  | [] => Ok moves
  | d :: rest =>
      moves1 <- slideRay b enemyColor r c piecePinned pinDirection d
                         (Py.range 1 8) moves ;;
      slideRays b enemyColor r c piecePinned pinDirection rest moves1
  end.

Definition rookDirections : list (Z * Z) := [(-1, 0); (1, 0); (0, -1); (0, 1)].
Definition bishopDirections : list (Z * Z) :=
  [(-1, -1); (1, 1); (1, -1); (-1, 1)].

Definition getRookMoves : Generator := fun s r c moves =>
  '(piecePinned, pinDirection, s1) <- takePinRook s r c ;;
  moves1 <- slideRays (board s1) (enemyColorOf s1) r c piecePinned
                      pinDirection rookDirections moves ;;
  Ok (s1, moves1).

Definition getBishopMoves : Generator := fun s r c moves =>
  '(piecePinned, pinDirection, s1) <- takePin s r c ;;
  moves1 <- slideRays (board s1) (enemyColorOf s1) r c piecePinned
                      pinDirection bishopDirections moves ;;
  Ok (s1, moves1).

Definition getQueenMoves : Generator := fun s r c moves =>
  '(s1, moves1) <- getRookMoves s r c moves ;;
  getBishopMoves s1 r c moves1.

Fixpoint knightLoop (b : Board) (allyColor : ascii) (r c : Z)
    (piecePinned : bool) (ms : list (Z * Z)) (moves : list Move)
  : result (list Move) :=
  match ms with
  | [] => Ok moves
  | m :: rest =>
      let endRow := r + fst m in
      let endCol := c + snd m in
      if onBoard endRow endCol then
        if negb piecePinned then
          endPiece <- board_get b endRow endCol ;;
          c0 <- Py.char endPiece 0 ;;
          if negb (c0 =? allyColor)%char then
            moves1 <- append_move b r c endRow endCol moves ;;
            knightLoop b allyColor r c piecePinned rest moves1
          else knightLoop b allyColor r c piecePinned rest moves
        else knightLoop b allyColor r c piecePinned rest moves
      else knightLoop b allyColor r c piecePinned rest moves
  end.

Definition getKnightMoves : Generator := fun s r c moves =>
  '(piecePinned, _, s1) <- takePin s r c ;;
  moves1 <- knightLoop (board s1) (allyColorOf s1) r c piecePinned
                       knightMoves moves ;;
  Ok (s1, moves1).

Definition kingMoves : list (Z * Z) :=
  [(-1, -1); (-1, 0); (-1, 1); (0, -1); (0, 1); (1, -1); (1, 0); (1, 1)].

(** [self.whiteKingLocation = q] or [self.blackKingLocation = q], by
    [allyColor]. *)
Definition placeKing (s : GameState) (allyColor : ascii) (q : Square)
  : GameState :=
  if (allyColor =? "w")%char then set_whiteKingLocation s q
  else set_blackKingLocation s q.

(** The loop of [getKingMoves]: the king cache is set to the candidate
    square, the detector is run, and the cache is set to [(r, c)]. *)
Fixpoint kingLoop (s : GameState) (allyColor : ascii) (r c : Z)
    (ks : list (Z * Z)) (moves : list Move) : result (GameState * list Move) :=
  match ks with
  | [] => Ok (s, moves)
  | k :: rest =>
      let endRow := r + fst k in
      let endCol := c + snd k in
      if onBoard endRow endCol then
        endPiece <- board_get (board s) endRow endCol ;;
        c0 <- Py.char endPiece 0 ;;
        if negb (c0 =? allyColor)%char then
          let s1 := placeKing s allyColor (endRow, endCol) in
          '(inCheck, _, _) <- checksForPinsAndChecks s1 ;;
          moves1 <- (if negb inCheck
                     then append_move (board s1) r c endRow endCol moves
                     else Ok moves) ;;
          let s2 := placeKing s1 allyColor (r, c) in
          kingLoop s2 allyColor r c rest moves1
        else kingLoop s allyColor r c rest moves
      else kingLoop s allyColor r c rest moves
  end.

Definition getKingMoves : Generator := fun s r c moves =>
  kingLoop s (allyColorOf s) r c kingMoves moves.

(** The dispatch table [self.moveFunction]. *)
Definition moveFunction (piece : ascii) : result Generator :=
  Py.lookup Ascii.eqb
    [("p"%char, getPawnMoves); ("R"%char, getRookMoves);
     ("N"%char, getKnightMoves); ("B"%char, getBishopMoves);
     ("Q"%char, getQueenMoves); ("K"%char, getKingMoves)] piece.

(** ** All moves, and the legal ones *)

Fixpoint scanCols (s : GameState) (r : Z) (cs : list Z) (moves : list Move)
  : result (GameState * list Move) :=
  match cs with
  | [] => Ok (s, moves)
  | c :: rest =>
      sq <- board_get (board s) r c ;;
      turn <- Py.char sq 0 ;;
      if ((turn =? "w")%char && whiteToMove s)
         || ((turn =? "b")%char && negb (whiteToMove s)) then
        piece <- Py.char sq 1 ;;
        gen <- moveFunction piece ;;
        '(s1, moves1) <- gen s r c moves ;;
        scanCols s1 r rest moves1
      else scanCols s r rest moves
  end.

Fixpoint scanRows (s : GameState) (rs : list Z) (moves : list Move)
  : result (GameState * list Move) :=
  match rs with
  | [] => Ok (s, moves)
  | r :: rest =>
      row <- Py.index (board s) r ;;
      '(s1, moves1) <-
        scanCols s r (Py.range 0 (Z.of_nat (length row))) moves ;;
      scanRows s1 rest moves1
  end.

Definition getAllPossibleMoves (s : GameState)
  : result (GameState * list Move) :=
  scanRows s (Py.range 0 (Z.of_nat (length (board s)))) [].

(** The squares a piece may land on to answer a sliding check: from the
    king along the axis of the check, through the checking piece. *)
Fixpoint blockSquares (kingRow kingCol checkRow checkCol d0 d1 : Z)
    (steps : list Z) : list Square :=
  match steps with
  | [] => []
  | i :: rest =>
      let validSquare := (kingRow + d0 * i, kingCol + d1 * i) in
      if (fst validSquare =? checkRow) && (snd validSquare =? checkCol)
      then [validSquare]
      else validSquare
             :: blockSquares kingRow kingCol checkRow checkCol d0 d1 rest
  end.

(** The backward loop that drops the moves answering no check;
    [moves.remove] drops the first move equal (by [moveID]) to its
    argument. *)
Fixpoint filterMoves (validSquares : list Square) (idxs : list nat)
    (moves : list Move) : result (list Move) :=
  match idxs with
  | [] => Ok moves
  | i :: rest =>
      m <- Py.index moves (Z.of_nat i) ;;
      kind <- Py.char (pieceMoved m) 1 ;;
      if negb (kind =? "K")%char then
        if negb (existsb (sq_eqb (endRow m, endCol m)) validSquares) then
          moves' <- Py.remove Move_eqb m moves ;;
          filterMoves validSquares rest moves'
        else filterMoves validSquares rest moves
      else filterMoves validSquares rest moves
  end.

Definition getValidMoves (s : GameState) : result (GameState * list Move) :=
  '(ic, ps, cs) <- checksForPinsAndChecks s ;;
  let s0 := set_analysis s ic ps cs in
  let kingRow := fst (kingLocation s0) in
  let kingCol := snd (kingLocation s0) in
  if inCheck s0 then
    if (Nat.eqb (length (checks s0)) 1) then
      '(s1, moves) <- getAllPossibleMoves s0 ;;
      check <- Py.index (checks s1) 0 ;;
      match check with
      | (checkRow, checkCol, d0, d1) =>
          pieceChecking <- board_get (board s1) checkRow checkCol ;;
          kind <- Py.char pieceChecking 1 ;;
          let validSquares :=
            if (kind =? "N")%char then [(checkRow, checkCol)]
            else blockSquares kingRow kingCol checkRow checkCol d0 d1
                              (Py.range 1 8) in
          moves' <- filterMoves validSquares (Py.down (length moves)) moves ;;
          Ok (s1, moves')
      end
    else getKingMoves s0 kingRow kingCol []
  else getAllPossibleMoves s0.

(** The side to move's king as the board spells it. *)
Definition allyKing (s : GameState) : string :=
  if whiteToMove s then "wK" else "bK".

(** ** Playing from the initial position *)

Definition moveFromTo (a b : Square) (m : Move) : bool :=
  sq_eqb (startRow m, startCol m) a && sq_eqb (endRow m, endCol m) b.

(** One ply as the driver plays it: the legal moves are computed, and the
    one between the two chosen squares is made. *)
Definition playMove (s : GameState) (a b : Square) : result GameState :=
  '(s1, moves) <- getValidMoves s ;;
  match find (moveFromTo a b) moves with
  | Some m => makeMove s1 m
  | None => Raise ValueError
  end.

(** Positions reached from [newGame] by moves that [getValidMoves] offers. *)
Inductive reachable : GameState -> Prop :=
| reachable_new : reachable newGame
| reachable_move (s s1 s2 : GameState) (moves : list Move) (m : Move) :
    reachable s ->
    getValidMoves s = Ok (s1, moves) ->
    In m moves ->
    makeMove s1 m = Ok s2 ->
    reachable s2.

(** 1. e2-e4 e7-e5 2. Qd1-h5: the black pawn on [(1, 5)] stands between
    its king on [(0, 4)] and the white queen on [(3, 7)]. *)
Definition queenPinsPawn : result GameState :=
  s1 <- playMove newGame (6, 4) (4, 4) ;;
  s2 <- playMove s1 (1, 4) (3, 4) ;;
  playMove s2 (7, 3) (3, 7).

(** ** Invariants of a game state *)

(** [p] spells the king of colour [col]. *)
Definition isKingOf (col : ascii) (p : string) : bool :=
  match String.get 0 p, String.get 1 p with
  | Some a, Some k => (a =? col)%char && (k =? "K")%char
  | _, _ => false
  end.

Fixpoint rowKingsAt (row : list string) (col : ascii) (r c : Z)
    (loc : Square) : bool :=
  match row with
  | [] => true
  | p :: t =>
      (if isKingOf col p then sq_eqb (r, c) loc else true)
      && rowKingsAt t col r (c + 1) loc
  end.

Fixpoint boardKingsAt (b : Board) (col : ascii) (r : Z) (loc : Square)
  : bool :=
  match b with
  | [] => true
  | row :: t => rowKingsAt row col r 0 loc && boardKingsAt t col (r + 1) loc
  end.

(** The king cache agrees with the board: a square that holds a king is the
    cached square of its colour, and the cached squares are not negative. *)
Definition kingsCached (s : GameState) : bool :=
  boardKingsAt (board s) "w" 0 (whiteKingLocation s)
  && boardKingsAt (board s) "b" 0 (blackKingLocation s)
  && (0 <=? fst (whiteKingLocation s)) && (0 <=? snd (whiteKingLocation s))
  && (0 <=? fst (blackKingLocation s)) && (0 <=? snd (blackKingLocation s)).

(** An 8x8 board whose squares all hold two characters. *)
Definition wellFormedBoard (b : Board) : bool :=
  Nat.eqb (length b) 8
  && forallb (fun row =>
                Nat.eqb (length row) 8
                && forallb (fun p => Nat.eqb (String.length p) 2) row) b.

(** ** The notation, as the specification words it *)

(** Column 0 is file h, column 7 file a. *)
Definition fileLetter (c : Z) : ascii := ascii_of_nat (Z.to_nat (104 - c)).

(** Row 0 is rank 8, row 7 rank 1. *)
Definition rankDigit (r : Z) : ascii := ascii_of_nat (Z.to_nat (56 - r)).

Definition squareName (r c : Z) : string :=
  String (fileLetter c) (String (rankDigit r) EmptyString).

(** The first move of the usual opening, from [(6, 4)] to [(4, 4)]: the
    source's tables spell it "d2d4". *)
Definition kingPawnTwo : Move :=
  {| startRow := 6; startCol := 4; endRow := 4; endCol := 4;
     pieceMoved := "wp"; pieceCaptured := "--"; moveID := 4464 |}.

(** Does the move from [a] to [b], offered by [getValidMoves], leave the
    mover's king attacked?  The detector is run on the position after the
    move with the turn handed back to the mover. *)
Definition exposesKing (s : GameState) (a b : Square) : result bool :=
  '(s1, moves) <- getValidMoves s ;;
  match find (moveFromTo a b) moves with
  | Some m =>
      s2 <- makeMove s1 m ;;
      '(ic, _, _) <-
        checksForPinsAndChecks (set_whiteToMove s2 (whiteToMove s1)) ;;
      Ok ic
  | None => Raise ValueError
  end.

(** ** What a record of [checks] says *)

(** The square [(r, c)] holds a piece of kind [k]. *)
Definition kindAt (b : Board) (r c : Z) (k : ascii) : Prop :=
  exists p, board_get b r c = Ok p /\ Py.char p 1 = Ok k.

(** [q] records an attacker met on one of the eight rays from the king. *)
Definition rayCheck (b : Board) (enemyColor : ascii) (king : Square)
    (q : Quad) : Prop :=
  exists j d i k,
    In (j, d) directions /\ 1 <= i <= 7
    /\ q = (fst king + fst d * i, snd king + snd d * i, fst d, snd d)
    /\ kindAt b (fst king + fst d * i) (snd king + snd d * i) k
    /\ attacks enemyColor j i k = true.

(** [q] records a knight a knight's leap away from the king. *)
Definition knightCheck (b : Board) (king : Square) (q : Quad) : Prop :=
  exists m,
    In m knightMoves
    /\ q = (fst king + fst m, snd king + snd m, fst m, snd m)
    /\ kindAt b (fst king + fst m) (snd king + snd m) "N".

(** [sq] lies on the line from the king to the attacker recorded by [q],
    the attacker's square included: [t] steps along the recorded axis, the
    attacker being [k >= t] steps away. *)
Definition onAttackRay (king : Square) (q : Quad) (sq : Square) : Prop :=
  match q with
  | (cr, cc, d0, d1) =>
      exists k t,
        1 <= t <= k /\ k <= 7
        /\ (cr, cc) = (fst king + d0 * k, snd king + d1 * k)
        /\ sq = (fst king + d0 * t, snd king + d1 * t)
  end.

(** ** What a generator adds *)

(** [m] was built by [Move((r, c), ..., board)]. *)
Definition madeAt (b : Board) (r c : Z) (m : Move) : Prop :=
  exists r' c', Move_init (r, c) (r', c') b = Ok m.

(** [moves'] is [moves] followed by moves built from square [(r, c)]. *)
Definition grows (b : Board) (r c : Z) (moves moves' : list Move) : Prop :=
  exists extra, moves' = moves ++ extra /\ Forall (madeAt b r c) extra.

(** [m] was built on [b] from a square with non-negative coordinates. *)
Definition genuine (b : Board) (m : Move) : Prop :=
  exists r c, 0 <= r /\ 0 <= c /\ madeAt b r c m.

(** Everything but the king caches and the pin list is the same. *)
Definition frame (s s' : GameState) : Prop :=
  board s' = board s /\ whiteToMove s' = whiteToMove s
  /\ moveLog s' = moveLog s /\ inCheck s' = inCheck s
  /\ checks s' = checks s.

Definition sameKings (s s' : GameState) : Prop :=
  whiteKingLocation s' = whiteKingLocation s
  /\ blackKingLocation s' = blackKingLocation s.

(** Only the pin list differs. *)
Definition onlyPins (s s' : GameState) : Prop := s' = set_pins s (pins s').

(** The five generators that look their piece up in [self.pins]. *)
Definition pinConsultingGenerators : list Generator :=
  [getPawnMoves; getRookMoves; getKnightMoves; getBishopMoves; getQueenMoves].

(** The initial position with a pin entered by hand for the knight on
    [(7, 1)]. *)
Definition knightPinnedByHand : GameState := set_pins newGame [(7, 1, 0, -1)].

(** A position with two checks on the white king on [(7, 4)]: the rook on
    [(0, 4)] down the open file and the knight on [(5, 3)]. *)
Definition doubleCheckBoard : Board :=
  [ ["bK"; "--"; "--"; "--"; "bR"; "--"; "--"; "--"];
    ["--"; "--"; "--"; "--"; "--"; "--"; "--"; "--"];
    ["--"; "--"; "--"; "--"; "--"; "--"; "--"; "--"];
    ["--"; "--"; "--"; "--"; "--"; "--"; "--"; "--"];
    ["--"; "--"; "--"; "--"; "--"; "--"; "--"; "--"];
    ["--"; "--"; "--"; "bN"; "--"; "--"; "--"; "--"];
    ["--"; "--"; "--"; "--"; "--"; "--"; "--"; "--"];
    ["wR"; "--"; "--"; "--"; "wK"; "--"; "--"; "--"] ].

Definition doubleCheck : GameState :=
  {| board := doubleCheckBoard; whiteToMove := true; moveLog := [];
     whiteKingLocation := (7, 4); blackKingLocation := (0, 0);
     inCheck := false; checks := []; pins := [] |}.

(** 1. e2-e4 f7-f5 2. Qd1-h5: the queen on [(3, 7)] checks the black king
    on [(0, 4)] along the diagonal through [(1, 5)] and [(2, 6)]. *)
Definition queenChecks : result GameState :=
  s1 <- playMove newGame (6, 4) (4, 4) ;;
  s2 <- playMove s1 (1, 5) (3, 5) ;;
  playMove s2 (7, 3) (3, 7).

(** The filtering pass keeps [m]: it moves a king or lands on a valid
    square. *)
Definition answersCheck (validSquares : list Square) (m : Move) : Prop :=
  Py.char (pieceMoved m) 1 = Ok "K"%char
  \/ In (endRow m, endCol m) validSquares.

(** The position of [queenChecks], spelled out. *)
Definition afterQueenCheck : GameState :=
  Eval vm_compute in
    match queenChecks with Ok s => s | Raise _ => newGame end.

(** The pawn move from [(1, 6)] to [(2, 6)] that blocks the queen's check. *)
Definition pawnBlocks : Move :=
  {| startRow := 1; startCol := 6; endRow := 2; endCol := 6;
     pieceMoved := "bp"; pieceCaptured := "--"; moveID := 2616 |}.

(** ** Boards as grids of cells *)

(** The lengths of the rows. *)
Definition shape (b : Board) : list nat := map (@length string) b.

(** The position in a list of length [n] that Python index [i] denotes. *)
Definition pos (n : nat) (i : Z) : nat := Z.to_nat (Py.norm (Z.of_nat n) i).

Definition cellAt (b : Board) (i j : nat) : option string :=
  match nth_error b i with
  | Some row => nth_error row j
  | None => None
  end.

Definition put (b : Board) (i j : nat) (x : string) : Board :=
  match nth_error b i with
  | Some row => Py.update b i (Py.update row j x)
  | None => b
  end.

(** The cell of [b] that [b[r][c]] denotes. *)
Definition rowOf (b : Board) (r : Z) : nat := pos (length b) r.
Definition colOf (b : Board) (r c : Z) : nat :=
  pos (nth (rowOf b r) (shape b) 0%nat) c.

(** A white pawn that has reached row 0 (promotion is not implemented);
    the square [(7, 0)] at the other end of its file is empty. *)
Definition pawnOnLastRow : GameState :=
  {| board :=
       [ ["wp"; "--"; "--"; "--"; "bK"; "--"; "--"; "--"];
         ["--"; "--"; "--"; "--"; "--"; "--"; "--"; "--"];
         ["--"; "--"; "--"; "--"; "--"; "--"; "--"; "--"];
         ["--"; "--"; "--"; "--"; "--"; "--"; "--"; "--"];
         ["--"; "--"; "--"; "--"; "--"; "--"; "--"; "--"];
         ["--"; "--"; "--"; "--"; "--"; "--"; "--"; "--"];
         ["--"; "--"; "--"; "--"; "--"; "--"; "--"; "--"];
         ["--"; "--"; "--"; "--"; "wK"; "--"; "--"; "--"] ];
     whiteToMove := true; moveLog := [];
     whiteKingLocation := (7, 4); blackKingLocation := (0, 4);
     inCheck := false; checks := []; pins := [] |}.

(** ** Shapes used in the proofs *)

(** Every record is a ray record or a knight record, and the flag is set
    exactly when there is a record. *)
Definition checksShape (b : Board) (enemy : ascii) (king : Square)
    (ic : bool) (cs : list Quad) : Prop :=
  Forall (fun q => rayCheck b enemy king q \/ knightCheck b king q) cs
  /\ (ic = true <-> cs <> []).

(** What any generator of the dispatch table does to the state. *)
Definition generatorSpec (isKing : bool) (gen : Generator) : Prop :=
  forall s r c moves s' moves',
    gen s r c moves = Ok (s', moves') ->
    frame s s'
    /\ grows (board s) r c moves moves'
    /\ (pins s = [] -> pins s' = [])
    /\ (if isKing
        then s' = s \/ s' = placeKing s (allyColorOf s) (r, c)
        else sameKings s s').

(** [moves'] is [moves] followed by genuine moves of board [b]. *)
Definition extends (b : Board) (moves moves' : list Move) : Prop :=
  exists extra, moves' = moves ++ extra /\ Forall (genuine b) extra.

(** The destination of [m] is on the board. *)
Definition landsOnBoard (m : Move) : Prop :=
  onBoard (endRow m) (endCol m) = true.

(** The destination of [m] is on the board, or [m] moves a pawn (a white
    pawn on row 0 is given row [-1] as destination). *)
Definition landsOrPawn (m : Move) : Prop :=
  landsOnBoard m \/ Py.char (pieceMoved m) 1 = Ok "p"%char.

(** The invariant of play: the king caches agree with a well-formed
    board. *)
Definition consistent (s : GameState) : Prop :=
  kingsCached s = true /\ wellFormedBoard (board s) = true.

(** The four coordinates of a move. *)
Definition squaresOf (m : Move) : Z * Z * Z * Z :=
  (startRow m, startCol m, endRow m, endCol m).

(** A row or column that fits one decimal digit of [moveID]. *)
Definition digit (z : Z) : Prop := 0 <= z <= 9.

(** The move a white pawn on [(0, 0)] is given: to row [-1]. *)
Definition pawnOffBoard : Move :=
  {| startRow := 0; startCol := 0; endRow := -1; endCol := 0;
     pieceMoved := "wp"; pieceCaptured := "--"; moveID := -1000 |}.

(** A black pawn that has reached row 7, black to move. *)
Definition blackPawnOnLastRow : GameState :=
  {| board :=
       [ ["--"; "--"; "--"; "--"; "bK"; "--"; "--"; "--"];
         ["--"; "--"; "--"; "--"; "--"; "--"; "--"; "--"];
         ["--"; "--"; "--"; "--"; "--"; "--"; "--"; "--"];
         ["--"; "--"; "--"; "--"; "--"; "--"; "--"; "--"];
         ["--"; "--"; "--"; "--"; "--"; "--"; "--"; "--"];
         ["--"; "--"; "--"; "--"; "--"; "--"; "--"; "--"];
         ["--"; "--"; "--"; "--"; "--"; "--"; "--"; "--"];
         ["bp"; "--"; "--"; "--"; "wK"; "--"; "--"; "--"] ];
     whiteToMove := false; moveLog := [];
     whiteKingLocation := (7, 4); blackKingLocation := (0, 4);
     inCheck := false; checks := []; pins := [] |}.

(** All four coordinates of [m] are rows and columns of the board. *)
Definition inRange (m : Move) : Prop :=
  0 <= startRow m <= 7 /\ 0 <= startCol m <= 7
  /\ 0 <= endRow m <= 7 /\ 0 <= endCol m <= 7.

(** The state after [makeMove m] and [undoMove]: [s] with the cache of a
    moved king set to the start square of [m]. *)
Definition undone (s : GameState) (m : Move) : GameState :=
  if (pieceMoved m =? "wK")%string
  then set_whiteKingLocation s (startRow m, startCol m)
  else if (pieceMoved m =? "bK")%string
  then set_blackKingLocation s (startRow m, startCol m)
  else s.

(** ** What each generator offers *)

Definition allyOf (white : bool) : ascii := if white then "w"%char else "b"%char.
Definition enemyOf (white : bool) : ascii := if white then "b"%char else "w"%char.

(** The direction a pawn advances in, and the row it starts on. *)
Definition forwardOf (white : bool) : Z := if white then -1 else 1.
Definition homeOf (white : bool) : Z := if white then 6 else 1.

(** The detector, as a function of what it reads: the board, the side to
    move and that side's cached king square. *)
Definition detectAt (b : Board) (white : bool) (king : Square)
  : result (bool * list Quad * list Quad) :=
  '(inCheck1, checks1) <-
    scanRays b (allyOf white) (enemyOf white) (fst king) (snd king)
             directions false [] ;;
  '(inCheck2, checks2) <-
    scanKnights b (enemyOf white) (fst king) (snd king) knightMoves
                inCheck1 checks1 ;;
  Ok (inCheck2, [], checks2).

Definition isEmpty (b : Board) (r c : Z) : Prop := board_get b r c = Ok "--".

(** The square [(r, c)] holds a piece whose first character is [col]. *)
Definition holdsColor (b : Board) (r c : Z) (col : ascii) : Prop :=
  exists p, board_get b r c = Ok p /\ Py.char p 0 = Ok col.

(** The square holds no piece of colour [ally]: it is empty or holds
    something else. *)
Definition notAlly (b : Board) (r c : Z) (ally : ascii) : Prop :=
  exists p k, board_get b r c = Ok p /\ Py.char p 0 = Ok k /\ k <> ally.

(** A slide passes over the square: it is off the board or empty. *)
Definition passable (b : Board) (r c : Z) : Prop :=
  onBoard r c = false \/ isEmpty b r c.

(** [not piecePinned or pinDirection == d] *)
Definition pinAllows (pp : bool) (pd : option (Z * Z)) (d : Z * Z) : bool :=
  negb pp || axis_is pd d.

(** [not piecePinned or pinDirection == d or pinDirection == (-d[0], -d[1])] *)
Definition pinAllowsLine (pp : bool) (pd : option (Z * Z)) (d : Z * Z)
  : bool :=
  negb pp || axis_is pd d || axis_is pd (- fst d, - snd d).

(** A move the pawn generator appends for the pawn on [(r, c)]. *)
Definition pawnOffer (b : Board) (dr home : Z) (enemy : ascii)
    (pp : bool) (pd : option (Z * Z)) (r c : Z) (m : Move) : Prop :=
  exists r' c',
    Move_init (r, c) (r', c') b = Ok m
    /\ ((r' = r + dr /\ c' = c /\ isEmpty b (r + dr) c
         /\ pinAllows pp pd (dr, 0) = true)
        \/ (r' = r + 2 * dr /\ c' = c /\ r = home
            /\ isEmpty b (r + dr) c /\ isEmpty b (r + 2 * dr) c
            /\ pinAllows pp pd (dr, 0) = true)
        \/ (exists dc,
              ((dc = -1 /\ 0 <= c - 1) \/ (dc = 1 /\ c + 1 <= 7))
              /\ r' = r + dr /\ c' = c + dc
              /\ holdsColor b (r + dr) (c + dc) enemy
              /\ pinAllows pp pd (dr, dc) = true)).

(** A move a sliding generator appends: [i] steps along a direction [d] of
    [ds], over squares it passes, to a square that is empty or holds an
    enemy piece. *)
Definition slideOffer (b : Board) (enemy : ascii) (pp : bool)
    (pd : option (Z * Z)) (ds : list (Z * Z)) (r c : Z) (m : Move) : Prop :=
  exists d i,
    In d ds /\ 1 <= i <= 7
    /\ Move_init (r, c) (r + fst d * i, c + snd d * i) b = Ok m
    /\ onBoard (r + fst d * i) (c + snd d * i) = true
    /\ pinAllowsLine pp pd d = true
    /\ (isEmpty b (r + fst d * i) (c + snd d * i)
        \/ holdsColor b (r + fst d * i) (c + snd d * i) enemy)
    /\ forall j, 1 <= j < i -> passable b (r + fst d * j) (c + snd d * j).

(** A move the knight generator appends. *)
Definition knightOffer (b : Board) (ally : ascii) (pp : bool) (r c : Z)
    (m : Move) : Prop :=
  exists mv,
    In mv knightMoves
    /\ Move_init (r, c) (r + fst mv, c + snd mv) b = Ok m
    /\ onBoard (r + fst mv) (c + snd mv) = true
    /\ pp = false
    /\ notAlly b (r + fst mv) (c + snd mv) ally.

(** A move the king generator appends: to a neighbouring square on which
    the detector, run with the king cache there, reports no check. *)
Definition kingOffer (b : Board) (white : bool) (r c : Z) (m : Move) : Prop :=
  exists k,
    In k kingMoves
    /\ Move_init (r, c) (r + fst k, c + snd k) b = Ok m
    /\ onBoard (r + fst k) (c + snd k) = true
    /\ notAlly b (r + fst k) (c + snd k) (allyOf white)
    /\ exists ps cs,
         detectAt b white (r + fst k, c + snd k) = Ok (false, ps, cs).

(** What the generator that [moveFunction] has for [kind] appends for a
    piece on [(r, c)] when no pin is recorded. *)
Definition pieceOffer (b : Board) (white : bool) (kind : ascii) (r c : Z)
    (m : Move) : Prop :=
  if (kind =? "p")%char then
    pawnOffer b (forwardOf white) (homeOf white) (enemyOf white)
              false None r c m
  else if (kind =? "R")%char then
    slideOffer b (enemyOf white) false None rookDirections r c m
  else if (kind =? "N")%char then
    knightOffer b (allyOf white) false r c m
  else if (kind =? "B")%char then
    slideOffer b (enemyOf white) false None bishopDirections r c m
  else if (kind =? "Q")%char then
    slideOffer b (enemyOf white) false None
               (rookDirections ++ bishopDirections) r c m
  else if (kind =? "K")%char then kingOffer b white r c m
  else False.

(** [m] was generated by the board scan: for a piece of the side to move
    found on a square [(r, c)], by the generator of its kind. *)
Definition offered (b : Board) (white : bool) (m : Move) : Prop :=
  exists r c sq kind,
    0 <= r /\ 0 <= c
    /\ board_get b r c = Ok sq
    /\ Py.char sq 0 = Ok (allyOf white)
    /\ Py.char sq 1 = Ok kind
    /\ pieceOffer b white kind r c m.

(** The cached king square of the side to move holds that side's king. *)
Definition kingAtCache (s : GameState) : Prop :=
  0 <= fst (kingLocation s) /\ 0 <= snd (kingLocation s)
  /\ board_get (board s) (fst (kingLocation s)) (snd (kingLocation s))
     = Ok (allyKing s).

(** The displacement [(dr, dc)] is one a piece of kind [kind] makes; for a
    pawn it depends on the colour. *)
Definition rookLike (dr dc : Z) : Prop :=
  (dr = 0 /\ dc <> 0 \/ dc = 0 /\ dr <> 0)
  /\ Z.abs dr <= 7 /\ Z.abs dc <= 7.

Definition bishopLike (dr dc : Z) : Prop :=
  Z.abs dr = Z.abs dc /\ dr <> 0 /\ Z.abs dr <= 7.

Definition movesLike (kind : ascii) (white : bool) (dr dc : Z) : Prop :=
  if (kind =? "p")%char then
    (dc = 0 /\ (dr = forwardOf white \/ dr = 2 * forwardOf white))
    \/ ((dc = 1 \/ dc = -1) /\ dr = forwardOf white)
  else if (kind =? "R")%char then rookLike dr dc
  else if (kind =? "N")%char then
    (Z.abs dr = 1 /\ Z.abs dc = 2) \/ (Z.abs dr = 2 /\ Z.abs dc = 1)
  else if (kind =? "B")%char then bishopLike dr dc
  else if (kind =? "Q")%char then rookLike dr dc \/ bishopLike dr dc
  else if (kind =? "K")%char then
    Z.abs dr <= 1 /\ Z.abs dc <= 1 /\ (dr <> 0 \/ dc <> 0)
  else False.

(** The knight move from [(7, 1)] to [(5, 2)]. *)
Definition knightOut : Move :=
  {| startRow := 7; startCol := 1; endRow := 5; endCol := 2;
     pieceMoved := "wN"; pieceCaptured := "--"; moveID := 5271 |}.

(** The position after 1. e2-e4 e7-e5, white to move: the bishop on
    [(7, 5)] has the diagonal through [(6, 4)] open. *)
Definition afterOpening : GameState :=
  Eval vm_compute in
    match (s1 <- playMove newGame (6, 4) (4, 4) ;;
           playMove s1 (1, 4) (3, 4)) with
    | Ok s => s
    | Raise _ => newGame
    end.

(** The bishop move from [(7, 5)] to [(5, 3)] in that position. *)
Definition bishopOut : Move :=
  {| startRow := 7; startCol := 5; endRow := 5; endCol := 3;
     pieceMoved := "wB"; pieceCaptured := "--"; moveID := 5375 |}.

(** The entry [q] of a pin list is on the square [(r, c)]. *)
Definition pinOn (r c : Z) (q : Quad) : Prop :=
  match q with (pr, pc, _, _) => pr = r /\ pc = c end.

(** [m] moves from [(r, c)] along the axis [(a0, a1)], either way. *)
Definition alongAxis (r c a0 a1 : Z) (m : Move) : Prop :=
  exists k, k <> 0 /\ endRow m = r + a0 * k /\ endCol m = c + a1 * k.

(** The position [afterOpening] with a pin entered by hand for the bishop
    on [(7, 5)], along the diagonal [(-1, -1)]. *)
Definition bishopPinnedByHand : GameState :=
  set_pins afterOpening [(7, 5, -1, -1)].

(** The generators that slide, with the kind their pin handling suits. *)
Definition slidingGenerators : list (Generator * bool) :=
  [(getRookMoves, false); (getBishopMoves, false); (getQueenMoves, true)].

(** ** Boards of pieces *)

(** The piece names, as the driver's [loadImages] lists them. *)
Definition pieces : list string :=
  ["wp"; "wR"; "wN"; "wB"; "wK"; "wQ"; "bp"; "bR"; "bN"; "bB"; "bK"; "bQ"].

(** The square is empty or holds one of the twelve pieces. *)
Definition knownSquare (p : string) : bool :=
  (p =? "--")%string || existsb (String.eqb p) pieces.

(** An 8x8 board on which every square is known. *)
Definition standardBoard (b : Board) : bool :=
  Nat.eqb (length b) 8
  && forallb (fun row => Nat.eqb (length row) 8 && forallb knownSquare row) b.

(** A black pawn stands on row 7. *)
Definition blackPawnOnRow7 (b : Board) : bool :=
  existsb (String.eqb "bp") (nth 7 b []).

(** The kinds of the dispatch table. *)
Definition kinds : list ascii :=
  ["p"; "R"; "N"; "B"; "Q"; "K"]%char.

(** The generators other than the pawn's. *)
Definition officerGenerators : list Generator :=
  [getRookMoves; getKnightMoves; getBishopMoves; getQueenMoves; getKingMoves].

(** The black pawn that stops the scan: black is to move and the square
    [(r, c)], on row 7, holds a black pawn. *)
Definition stuckPawn (s : GameState) (r c : Z) : Prop :=
  whiteToMove s = false /\ r = 7 /\ board_get (board s) r c = Ok "bp".

(** Both cached king squares are squares of the board. *)
Definition cachesOnBoard (s : GameState) : bool :=
  onBoard (fst (whiteKingLocation s)) (snd (whiteKingLocation s))
  && onBoard (fst (blackKingLocation s)) (snd (blackKingLocation s)).

(** ** Games *)

(** A game from [s]: on each ply [getValidMoves] is called and one of the
    moves it returns is made.  [game s ms s'] says that the moves [ms],
    made in this order, lead from [s] to [s']. *)
Inductive game (s : GameState) : list Move -> GameState -> Prop :=
| game_start : game s [] s
| game_ply (ms : list Move) (s' s1 s2 : GameState) (moves : list Move)
    (m : Move) :
    game s ms s' ->
    getValidMoves s' = Ok (s1, moves) ->
    In m moves ->
    makeMove s1 m = Ok s2 ->
    game s (ms ++ [m]) s2.

(** [undoMove], called [n] times. *)
Fixpoint undoMoves (n : nat) (s : GameState) : result GameState :=
  match n with
  | O => Ok s
  | S k => s' <- undoMove s ;; undoMoves k s'
  end.

(** The two states differ at most in the results of the last analysis
    ([inCheck], [pins], [checks]). *)
Definition samePosition (s t : GameState) : Prop :=
  board t = board s /\ whiteToMove t = whiteToMove s
  /\ moveLog t = moveLog s
  /\ whiteKingLocation t = whiteKingLocation s
  /\ blackKingLocation t = blackKingLocation s.

(** ** A captured king *)

(** A game of nine plies, each of them a move that [getValidMoves]
    returns for the position it is made in: white pawn [(6,4)->(4,4)],
    black pawn [(1,4)->(3,4)]; white queen [(7,3)->(3,7)], black pawn
    [(1,5)->(2,5)] (the pawn that shields its king from the queen); the
    queen takes the king, [(3,7)->(0,4)], black pawn [(1,7)->(2,7)];
    white bishop [(7,5)->(3,1)], black pawn [(1,3)->(2,3)]; the queen
    steps back, [(0,4)->(1,4)]. *)
Definition kingTaken : result GameState :=
  s1 <- playMove newGame (6, 4) (4, 4) ;;
  s2 <- playMove s1 (1, 4) (3, 4) ;;
  s3 <- playMove s2 (7, 3) (3, 7) ;;
  s4 <- playMove s3 (1, 5) (2, 5) ;;
  s5 <- playMove s4 (3, 7) (0, 4) ;;
  s6 <- playMove s5 (1, 7) (2, 7) ;;
  s7 <- playMove s6 (7, 5) (3, 1) ;;
  s8 <- playMove s7 (1, 3) (2, 3) ;;
  playMove s8 (0, 4) (1, 4).

(** The position of [kingTaken], spelled out: black is to move, the black
    cache is [(0, 4)], and that square is empty. *)
Definition afterKingTaken : GameState :=
  Eval vm_compute in
    match kingTaken with Ok s => s | Raise _ => newGame end.

(** The move from the empty square [(0, 4)] onto the queen on [(1, 4)]. *)
Definition emptySquareMove : Move :=
  {| startRow := 0; startCol := 4; endRow := 1; endCol := 4;
     pieceMoved := "--"; pieceCaptured := "wQ"; moveID := 1404 |}.

(** ** What a generator does to the pin list *)






(** * The driver, [ChessMain.py] *)

Definition WIDTH : Z := 512.
Definition HEIGHT : Z := 512.
Definition DIMENSION : Z := 8.
Definition SQ_SIZE : Z := HEIGHT / DIMENSION.

(** pygame's key code of the letter z. *)
Definition K_z : Z := 122.

(** The events that [main] tells apart.  [location] is the answer of
    [p.mouse.get_pos()] when the event is handled, [key] is [e.key]. *)
Inductive Event : Type :=
| QUIT
| MOUSEBUTTONDOWN (location : Z * Z)
| KEYDOWN (key : Z)
| OtherEvent.

(** The local variables of [main].  [sqSelected] is [None] for the empty
    tuple; [playerClicks] holds values that [sqSelected] had. *)
Record Driver : Type := MkDriver {
  gs : GameState;
  running : bool;
  validMoves : list Move;
  moveMade : bool;
  sqSelected : option Square;
  playerClicks : list (option Square)
}.

(** [sqSelected == (row, col)] *)
Definition selected_is (sel : option Square) (q : Square) : bool :=
  match sel with
  | Some p => sq_eqb p q
  | None => false
  end.

(** [ChessEngine.Move(playerClicks[0], playerClicks[1], gs.board)]; the
    constructor indexes its first two arguments, which raises
    [IndexError] on the empty tuple. *)
Definition Move_of_clicks (clicks : list (option Square)) (b : Board)
  : result Move :=
  first <- Py.index clicks 0 ;;
  second <- Py.index clicks 1 ;;
  match first, second with
  | Some startSq, Some endSq => Move_init startSq endSq b
  | _, _ => Raise IndexError
  end.

(** [move in validMoves]: the list is searched with [Move.__eq__]. *)
Definition Move_in (move : Move) (l : list Move) : bool :=
  existsb (fun v => Move_eqb v move) l.

(** The branch [e.type == p.MOUSEBUTTONDOWN] of the event loop. *)
Definition mouseDown (d : Driver) (location : Z * Z) : result Driver :=
  let col := fst location / SQ_SIZE in
  let row := snd location / SQ_SIZE in
  let sel := if selected_is (sqSelected d) (row, col)
             then None else Some (row, col) in
  let clicks := if selected_is (sqSelected d) (row, col)
                then [] else playerClicks d ++ [Some (row, col)] in
  if Nat.eqb (length clicks) 2 then
    move <- Move_of_clicks clicks (board (gs d)) ;;
    if Move_in move (validMoves d) then
      gs' <- makeMove (gs d) move ;;
      Ok {| gs := gs'; running := running d; validMoves := validMoves d;
            moveMade := true; sqSelected := None; playerClicks := [] |}
    else
      Ok {| gs := gs d; running := running d; validMoves := validMoves d;
            moveMade := moveMade d; sqSelected := sel;
            playerClicks := [sel] |}
  else
    Ok {| gs := gs d; running := running d; validMoves := validMoves d;
          moveMade := moveMade d; sqSelected := sel;
          playerClicks := clicks |}.

(** The branch [e.type == p.KEYDOWN]: the key z undoes a move. *)
Definition keyDown (d : Driver) (key : Z) : result Driver :=
  if key =? K_z then
    gs' <- undoMove (gs d) ;;
    Ok {| gs := gs'; running := running d; validMoves := validMoves d;
          moveMade := true; sqSelected := sqSelected d;
          playerClicks := playerClicks d |}
  else Ok d.

(** The body of [for e in p.event.get()]. *)
Definition handleEvent (d : Driver) (e : Event) : result Driver :=
  match e with
  | QUIT =>
      Ok {| gs := gs d; running := false; validMoves := validMoves d;
            moveMade := moveMade d; sqSelected := sqSelected d;
            playerClicks := playerClicks d |}
  | MOUSEBUTTONDOWN location => mouseDown d location
  | KEYDOWN key => keyDown d key
  | OtherEvent => Ok d
  end.




(** The mouse is inside the window. *)
Definition inWindow (location : Z * Z) : Prop :=
  0 <= fst location < WIDTH /\ 0 <= snd location < HEIGHT.

(** The mouse events of a frame are inside the window. *)
Definition eventInWindow (e : Event) : Prop :=
  match e with
  | MOUSEBUTTONDOWN location => inWindow location
  | _ => True
  end.

(** The selection is tidy: nothing is selected and no click is kept, or
    one square of the board is selected and it is the one click kept. *)
Definition tidy (d : Driver) : Prop :=
  (sqSelected d = None /\ playerClicks d = [])
  \/ exists q,
       sqSelected d = Some q /\ playerClicks d = [Some q]
       /\ onBoard (fst q) (snd q) = true.

(** [validMoves] is the answer of [getValidMoves] for the position of
    [gs], computed on a state whose king caches agree with a well-formed
    board. *)
Definition upToDate (d : Driver) : Prop :=
  exists s0,
    kingsCached s0 = true /\ wellFormedBoard (board s0) = true
    /\ getValidMoves s0 = Ok (gs d, validMoves d).

(** The square under the mouse. *)
Definition squareAt (location : Z * Z) : Square :=
  (snd location / SQ_SIZE, fst location / SQ_SIZE).







(** The driver on the initial position with the pawn on [(6, 4)]
    selected. *)
Definition pawnSelected : Driver :=
  Eval vm_compute in
    match getValidMoves newGame with
    | Ok (g, moves) =>
        {| gs := g; running := true; validMoves := moves; moveMade := false;
           sqSelected := Some (6, 4); playerClicks := [Some (6, 4)] |}
    | Raise _ =>
        {| gs := newGame; running := true; validMoves := [];
           moveMade := false; sqSelected := None; playerClicks := [] |}
    end.


(** * Properties *)

(** ** The error monad *)

Lemma bind_Ok {A B : Type} (m : result A) (k : A -> result B) (v : B) :
  bind m k = Ok v -> exists a, m = Ok a /\ k a = Ok v.
Proof.
  destruct m as [a|e]; simpl; intros H; [eauto | discriminate].
Qed.

(** Decompose a successful run into its successful steps. *)
Ltac run_step :=
  match goal with
  | H : bind ?m _ = Ok _ |- _ =>
      let a := fresh "a" in
      let E := fresh "E" in
      apply bind_Ok in H; destruct H as (a & E & H)
  | H : Ok _ = Ok _ |- _ => inversion H; subst; clear H
  | H : Raise _ = Ok _ |- _ => discriminate H
  | H : (let (_, _) := ?p in _) = Ok _ |- _ => destruct p
  | H : match ?p with (_, _) => _ end = Ok _ |- _ => destruct p
  | H : (if ?b then _ else _) = Ok _ |- _ =>
      let E := fresh "E" in destruct b eqn:E
  | H : match ?o with Some _ => _ | None => _ end = Ok _ |- _ =>
      let E := fresh "E" in destruct o eqn:E
  end.

Ltac run := repeat run_step.

(** ** Undoing with an empty log *)

(** C8: [undoMove] on a state whose move log is empty raises nothing and
    returns the state as it was: board, side to move, both king caches and
    the log are unchanged. *)
Theorem undoMove_empty_log (s : GameState) :
  moveLog s = [] ->
  undoMove s = Ok s
  /\ forall s', undoMove s = Ok s' ->
       board s' = board s /\ whiteToMove s' = whiteToMove s
       /\ whiteKingLocation s' = whiteKingLocation s
       /\ blackKingLocation s' = blackKingLocation s
       /\ moveLog s' = moveLog s.
Proof.
  intros Hlog.
  assert (Hu : undoMove s = Ok s) by (unfold undoMove; rewrite Hlog; reflexivity).
  split; [exact Hu|].
  intros s' Hs'. rewrite Hu in Hs'. inversion Hs'; subst. repeat split.
Qed.

Lemma undoMove_empty_log_witness :
  moveLog newGame = []
  /\ undoMove newGame = Ok newGame.
Proof.
  split; [reflexivity|].
  apply (undoMove_empty_log newGame). reflexivity.
Defined.

(** ** Notation *)

Lemma small_cases (n : Z) :
  0 <= n <= 7 ->
  n = 0 \/ n = 1 \/ n = 2 \/ n = 3 \/ n = 4 \/ n = 5 \/ n = 6 \/ n = 7.
Proof. lia. Qed.

Ltac small_split H :=
  apply small_cases in H;
  repeat (destruct H as [H|H]); subst.

Lemma getRankFile_squareName (r c : Z) :
  0 <= r <= 7 -> 0 <= c <= 7 -> getRankFile r c = Ok (squareName r c).
Proof.
  intros Hr Hc. small_split Hr; small_split Hc; reflexivity.
Qed.

(** C9: for a move whose four coordinates lie in [0,7], [getChessNotation]
    returns the four characters file, rank of the start square and file,
    rank of the end square, with column 0 as file h .. column 7 as file a
    and row 0 as rank 8 .. row 7 as rank 1. *)
Theorem getChessNotation_four_chars (m : Move) :
  0 <= startRow m <= 7 -> 0 <= startCol m <= 7 ->
  0 <= endRow m <= 7 -> 0 <= endCol m <= 7 ->
  getChessNotation m
  = Ok (String (fileLetter (startCol m))
       (String (rankDigit (startRow m))
       (String (fileLetter (endCol m))
       (String (rankDigit (endRow m)) EmptyString))))
  /\ forall str, getChessNotation m = Ok str -> String.length str = 4%nat.
Proof.
  intros H1 H2 H3 H4.
  assert (E : getChessNotation m
              = Ok (String (fileLetter (startCol m))
                   (String (rankDigit (startRow m))
                   (String (fileLetter (endCol m))
                   (String (rankDigit (endRow m)) EmptyString))))).
  { unfold getChessNotation.
    rewrite (getRankFile_squareName _ _ H1 H2).
    rewrite (getRankFile_squareName _ _ H3 H4). reflexivity. }
  split; [exact E|].
  intros str Hs. rewrite E in Hs. inversion Hs; subst. reflexivity.
Qed.

Lemma getChessNotation_four_chars_witness :
  getChessNotation kingPawnTwo = Ok "d2d4".
Proof.
  apply (getChessNotation_four_chars kingPawnTwo); simpl; lia.
Defined.

(** ** The detector never reports a pin *)

Lemma checksForPinsAndChecks_pins_nil (s : GameState) ic ps cs :
  checksForPinsAndChecks s = Ok (ic, ps, cs) -> ps = [].
Proof.
  unfold checksForPinsAndChecks. intros H. run. reflexivity.
Qed.

Lemma playMove_reachable (s s' : GameState) (a b : Square) :
  reachable s -> playMove s a b = Ok s' -> reachable s'.
Proof.
  intros Hs H. unfold playMove in H. run.
  eapply reachable_move; eauto.
  eapply find_some; eauto.
Qed.

Lemma queenPinsPawn_reachable (s : GameState) :
  queenPinsPawn = Ok s -> reachable s.
Proof.
  unfold queenPinsPawn. intros H. run.
  eauto using playMove_reachable, reachable_new.
Qed.

(** C2 (the code departs from the claim): after 1. e2-e4 e7-e5 2. Qd1-h5
    the ray from the black king on [(0, 4)] in direction [(1, 1)] meets the
    black pawn on [(1, 5)], an empty square, and the white queen on
    [(3, 7)]; the detector records no check for that ray, but it returns an
    empty list of pins. *)
Theorem pinned_pawn_not_recorded :
  exists s,
    queenPinsPawn = Ok s /\ reachable s
    /\ whiteToMove s = false /\ kingLocation s = (0, 4)
    /\ board_get (board s) 1 5 = Ok "bp"
    /\ board_get (board s) 2 6 = Ok "--"
    /\ board_get (board s) 3 7 = Ok "wQ"
    /\ attacks (enemyColorOf s) 7 3 "Q" = true
    /\ checksForPinsAndChecks s = Ok (false, [], []).
Proof.
  destruct queenPinsPawn as [s|e] eqn:E; [|vm_compute in E; discriminate].
  exists s. split; [reflexivity|].
  split; [apply queenPinsPawn_reachable; exact E|].
  vm_compute in E. inversion E; subst; clear E.
  repeat split; vm_compute; reflexivity.
Qed.

(** ** A legal move that leaves the king in check *)

Lemma exposesKing_sound (s : GameState) (a b : Square) :
  exposesKing s a b = Ok true ->
  exists s1 moves m s2 ps cs,
    getValidMoves s = Ok (s1, moves)
    /\ In m moves
    /\ moveFromTo a b m = true
    /\ makeMove s1 m = Ok s2
    /\ checksForPinsAndChecks (set_whiteToMove s2 (whiteToMove s1))
       = Ok (true, ps, cs).
Proof.
  unfold exposesKing. intros H. run.
  match goal with Hf : find _ _ = Some _ |- _ =>
    destruct (find_some _ _ Hf) as [Hin Hft] end.
  do 6 eexists. repeat split; eauto.
Qed.

(** C1 (the code departs from the claim): in the position reached by
    1. e2-e4 e7-e5 2. Qd1-h5, [getValidMoves] offers black the pawn move
    from [(1, 5)] to [(2, 5)]; once it is made, the detector run for the
    black king reports a check. *)
Theorem legal_move_exposes_king :
  exists s s1 moves m s2 ps cs,
    reachable s
    /\ getValidMoves s = Ok (s1, moves)
    /\ In m moves
    /\ moveFromTo (1, 5) (2, 5) m = true
    /\ makeMove s1 m = Ok s2
    /\ checksForPinsAndChecks (set_whiteToMove s2 (whiteToMove s1))
       = Ok (true, ps, cs).
Proof.
  assert (Hx : (s <- queenPinsPawn ;; exposesKing s (1, 5) (2, 5)) = Ok true)
    by (vm_compute; reflexivity).
  apply bind_Ok in Hx. destruct Hx as (s & Es & Hx).
  destruct (exposesKing_sound _ _ _ Hx)
    as (s1 & moves & m & s2 & ps & cs & H).
  exists s, s1, moves, m, s2, ps, cs.
  split; [apply queenPinsPawn_reachable; exact Es | exact H].
Qed.

(** ** The detector: shape of its result *)

Lemma attacks_not_knight (e : ascii) (j i : Z) : attacks e j i "N" = false.
Proof.
  unfold attacks. simpl.
  repeat rewrite andb_false_r. reflexivity.
Qed.

Lemma range_1_8 : Py.range 1 8 = [1; 2; 3; 4; 5; 6; 7].
Proof. reflexivity. Qed.

Lemma range_1_8_bounds (i : Z) : In i (Py.range 1 8) -> 1 <= i <= 7.
Proof. rewrite range_1_8. simpl. intuition lia. Qed.

(** A ray either leaves the running result alone or appends one attacker
    found on it. *)
Lemma scanRay_result (b : Board) (ally enemy : ascii) (kr kc j : Z)
    (d : Z * Z) (steps : list Z) :
  forall pp ic cs ic' cs',
    scanRay b ally enemy kr kc j d steps pp ic cs = Ok (ic', cs') ->
    (ic' = ic /\ cs' = cs)
    \/ (exists i k,
          In i steps /\ pp = None /\ ic' = true
          /\ cs' = cs ++ [(kr + fst d * i, kc + snd d * i, fst d, snd d)]
          /\ kindAt b (kr + fst d * i) (kc + snd d * i) k
          /\ attacks enemy j i k = true).
Proof.
  induction steps as [|i rest IH]; intros pp ic cs ic' cs' H; simpl in H.
  - run. left. split; reflexivity.
  - destruct (onBoard (kr + fst d * i) (kc + snd d * i)) eqn:Eon;
      [|run; left; split; reflexivity].
    apply bind_Ok in H. destruct H as (p & Ep & H).
    apply bind_Ok in H. destruct H as (c0 & Ec0 & H).
    destruct ((c0 =? ally)%char && negb (p =? "K")%string) eqn:Eally.
    + destruct pp as [q|].
      * run. left. split; reflexivity.
      * apply IH in H. destruct H as [H|(i' & k & Hi & Hpp & _)];
          [left; exact H | discriminate].
    + destruct (c0 =? enemy)%char eqn:Een.
      * apply bind_Ok in H. destruct H as (k & Ek & H).
        destruct (attacks enemy j i k) eqn:Eatt.
        -- destruct pp as [q|].
           ++ apply IH in H. destruct H as [H|(i' & k' & Hi & Hpp & _)];
                [left; exact H | discriminate].
           ++ run. right. exists i, k. repeat split; try reflexivity.
              ** left; reflexivity.
              ** exists p. split; assumption.
              ** assumption.
        -- run. left. split; reflexivity.
      * apply IH in H. destruct H as [H|(i' & k & Hi & Hpp & Hrest)].
        -- left; exact H.
        -- right. exists i', k. split; [right; exact Hi|].
           split; [exact Hpp | exact Hrest].
Qed.


Lemma checksShape_snoc (b : Board) (enemy : ascii) (king : Square)
    (ic : bool) (cs : list Quad) (q : Quad) :
  checksShape b enemy king ic cs ->
  rayCheck b enemy king q \/ knightCheck b king q ->
  checksShape b enemy king true (cs ++ [q]).
Proof.
  intros [Hall _] Hq. split.
  - apply Forall_app. split; [exact Hall | constructor; [exact Hq | constructor]].
  - split; intros _; [|reflexivity].
    destruct cs; discriminate.
Qed.

Lemma scanRays_shape (b : Board) (ally enemy : ascii) (king : Square)
    (ds : list (Z * (Z * Z))) :
  (forall jd, In jd ds -> In jd directions) ->
  forall ic cs ic' cs',
    checksShape b enemy king ic cs ->
    scanRays b ally enemy (fst king) (snd king) ds ic cs = Ok (ic', cs') ->
    checksShape b enemy king ic' cs'.
Proof.
  induction ds as [|[j d] rest IH]; intros Hsub ic cs ic' cs' Hsh H;
    cbn [scanRays] in H.
  - run. exact Hsh.
  - apply bind_Ok in H. destruct H as ([ic1 cs1] & E1 & H).
    apply (IH (fun jd Hin => Hsub jd (or_intror Hin))) with (ic := ic1) (cs := cs1);
      [|exact H].
    apply scanRay_result in E1.
    destruct E1 as [[-> ->]|(i & k & Hi & _ & -> & -> & Hk & Hatt)];
      [exact Hsh|].
    apply (checksShape_snoc _ _ _ ic); [exact Hsh|].
    left. exists j, d, i, k.
    split; [apply Hsub; left; reflexivity|].
    split; [apply range_1_8_bounds; exact Hi|].
    split; [reflexivity|]. split; assumption.
Qed.

Lemma scanKnights_shape (b : Board) (enemy : ascii) (king : Square)
    (ms : list (Z * Z)) :
  (forall m, In m ms -> In m knightMoves) ->
  forall ic cs ic' cs',
    checksShape b enemy king ic cs ->
    scanKnights b enemy (fst king) (snd king) ms ic cs = Ok (ic', cs') ->
    checksShape b enemy king ic' cs'.
Proof.
  induction ms as [|m rest IH]; intros Hsub ic cs ic' cs' Hsh H; simpl in H.
  - run. exact Hsh.
  - assert (Hrest : forall m', In m' rest -> In m' knightMoves)
      by (intros m' Hin; apply Hsub; right; exact Hin).
    destruct (onBoard (fst king + fst m) (snd king + snd m));
      [|eapply IH; eauto].
    apply bind_Ok in H. destruct H as (p & Ep & H).
    apply bind_Ok in H. destruct H as (c0 & Ec0 & H).
    destruct (c0 =? enemy)%char; [|eapply IH; eauto].
    apply bind_Ok in H. destruct H as (c1 & Ec1 & H).
    destruct (c1 =? "N")%char eqn:EN; [|eapply IH; eauto].
    apply Ascii.eqb_eq in EN. subst c1.
    eapply IH; [exact Hrest | | exact H].
    apply (checksShape_snoc _ _ _ ic); [exact Hsh|].
    right. exists m. split; [apply Hsub; left; reflexivity|].
    split; [reflexivity|]. exists p. split; assumption.
Qed.

Lemma checksForPinsAndChecks_shape (s : GameState) ic ps cs :
  checksForPinsAndChecks s = Ok (ic, ps, cs) ->
  checksShape (board s) (enemyColorOf s) (kingLocation s) ic cs.
Proof.
  unfold checksForPinsAndChecks. intros H.
  apply bind_Ok in H. destruct H as ([ic1 cs1] & E1 & H).
  apply bind_Ok in H. destruct H as ([ic2 cs2] & E2 & H).
  inversion H; subst; clear H.
  eapply scanKnights_shape; [intros m Hm; exact Hm | | exact E2].
  eapply scanRays_shape; [intros jd Hjd; exact Hjd | | exact E1].
  split; [constructor|]. split; [discriminate | intros Hn; contradiction Hn; reflexivity].
Qed.

(** ** Generators: what they add and what they leave alone *)

Lemma grows_refl (b : Board) (r c : Z) (moves : list Move) :
  grows b r c moves moves.
Proof. exists []. split; [symmetry; apply app_nil_r | constructor]. Qed.

Lemma grows_trans (b : Board) (r c : Z) (m1 m2 m3 : list Move) :
  grows b r c m1 m2 -> grows b r c m2 m3 -> grows b r c m1 m3.
Proof.
  intros (e1 & -> & H1) (e2 & -> & H2). exists (e1 ++ e2).
  split; [symmetry; apply app_assoc | apply Forall_app; split; assumption].
Qed.

Lemma append_move_grows (b : Board) (r c r' c' : Z) (moves moves' : list Move) :
  append_move b r c r' c' moves = Ok moves' -> grows b r c moves moves'.
Proof.
  unfold append_move. intros H. run.
  eexists. split; [reflexivity|].
  constructor; [|constructor]. exists r', c'. assumption.
Qed.

(** Close a [grows] goal from the appends found among the hypotheses and
    the induction hypothesis [IH] of the loop at hand. *)
Ltac grow IH :=
  solve
    [ apply grows_refl
    | eapply append_move_grows; eassumption
    | eapply IH; eassumption
    | eapply grows_trans;
      [ eapply append_move_grows; eassumption
      | first [ eapply IH; eassumption
              | eapply append_move_grows; eassumption
              | apply grows_refl ] ] ].

Lemma pawnAdvance_grows b r c dr home pp pd moves moves' :
  pawnAdvance b r c dr home pp pd moves = Ok moves' -> grows b r c moves moves'.
Proof.
  unfold pawnAdvance. intros H. run; grow grows_refl.
Qed.

Lemma pawnCapture_grows b r c dr dc g e pp pd moves moves' :
  pawnCapture b r c dr dc g e pp pd moves = Ok moves' ->
  grows b r c moves moves'.
Proof.
  unfold pawnCapture. intros H. run; grow grows_refl.
Qed.

Lemma slideRay_grows b e r c pp pd d steps :
  forall moves moves',
    slideRay b e r c pp pd d steps moves = Ok moves' -> grows b r c moves moves'.
Proof.
  induction steps as [|i rest IH]; intros moves moves' H; simpl in H.
  - run. apply grows_refl.
  - run; grow IH.
Qed.

Lemma slideRays_grows b e r c pp pd ds :
  forall moves moves',
    slideRays b e r c pp pd ds moves = Ok moves' -> grows b r c moves moves'.
Proof.
  induction ds as [|d rest IH]; intros moves moves' H; cbn [slideRays] in H.
  - run. apply grows_refl.
  - apply bind_Ok in H. destruct H as (m1 & E1 & H).
    eapply grows_trans; [eapply slideRay_grows; exact E1 | eapply IH; exact H].
Qed.

Lemma knightLoop_grows b a r c pp ms :
  forall moves moves',
    knightLoop b a r c pp ms moves = Ok moves' -> grows b r c moves moves'.
Proof.
  induction ms as [|m rest IH]; intros moves moves' H; simpl in H.
  - run. apply grows_refl.
  - run; grow IH.
Qed.

Lemma onlyPins_refl (s : GameState) : onlyPins s s.
Proof. destruct s; reflexivity. Qed.

Lemma onlyPins_set (s : GameState) (p : list Quad) : onlyPins s (set_pins s p).
Proof. reflexivity. Qed.

Lemma onlyPins_trans (s1 s2 s3 : GameState) :
  onlyPins s1 s2 -> onlyPins s2 s3 -> onlyPins s1 s3.
Proof.
  unfold onlyPins. intros H1 H2. rewrite H2. rewrite H1. reflexivity.
Qed.

Lemma onlyPins_frame (s s' : GameState) :
  onlyPins s s' -> frame s s' /\ sameKings s s'.
Proof.
  unfold onlyPins. intros ->. repeat split.
Qed.

Lemma takePin_onlyPins s r c pp pd s1 :
  takePin s r c = Ok (pp, pd, s1) -> onlyPins s s1.
Proof.
  unfold takePin. intros H. run; auto using onlyPins_refl, onlyPins_set.
Qed.

Lemma takePinRook_onlyPins s r c pp pd s1 :
  takePinRook s r c = Ok (pp, pd, s1) -> onlyPins s s1.
Proof.
  unfold takePinRook. intros H. run; auto using onlyPins_refl, onlyPins_set.
Qed.

Lemma onlyPins_board (s s' : GameState) : onlyPins s s' -> board s' = board s.
Proof. intros H. apply onlyPins_frame in H. apply H. Qed.

Lemma getPawnMoves_spec s r c moves s' moves' :
  getPawnMoves s r c moves = Ok (s', moves') ->
  onlyPins s s' /\ grows (board s) r c moves moves'.
Proof.
  unfold getPawnMoves. intros H.
  apply bind_Ok in H. destruct H as ([[pp pd] s1] & E1 & H).
  pose proof (takePin_onlyPins _ _ _ _ _ _ E1) as Hp.
  rewrite <- (onlyPins_board _ _ Hp).
  destruct (whiteToMove s1); run; (split; [exact Hp|]);
    (eapply grows_trans; [eapply pawnAdvance_grows; eassumption|]);
    (eapply grows_trans; [eapply pawnCapture_grows; eassumption|]);
    eapply pawnCapture_grows; eassumption.
Qed.

Lemma getRookMoves_spec s r c moves s' moves' :
  getRookMoves s r c moves = Ok (s', moves') ->
  onlyPins s s' /\ grows (board s) r c moves moves'.
Proof.
  unfold getRookMoves. intros H.
  apply bind_Ok in H. destruct H as ([[pp pd] s1] & E1 & H).
  pose proof (takePinRook_onlyPins _ _ _ _ _ _ E1) as Hp.
  rewrite <- (onlyPins_board _ _ Hp).
  run. split; [exact Hp | eapply slideRays_grows; eassumption].
Qed.

Lemma getBishopMoves_spec s r c moves s' moves' :
  getBishopMoves s r c moves = Ok (s', moves') ->
  onlyPins s s' /\ grows (board s) r c moves moves'.
Proof.
  unfold getBishopMoves. intros H.
  apply bind_Ok in H. destruct H as ([[pp pd] s1] & E1 & H).
  pose proof (takePin_onlyPins _ _ _ _ _ _ E1) as Hp.
  rewrite <- (onlyPins_board _ _ Hp).
  run. split; [exact Hp | eapply slideRays_grows; eassumption].
Qed.

Lemma getQueenMoves_spec s r c moves s' moves' :
  getQueenMoves s r c moves = Ok (s', moves') ->
  onlyPins s s' /\ grows (board s) r c moves moves'.
Proof.
  unfold getQueenMoves. intros H.
  apply bind_Ok in H. destruct H as ([s1 m1] & E1 & H).
  apply getRookMoves_spec in E1. destruct E1 as [Hp1 Hg1].
  apply getBishopMoves_spec in H. destruct H as [Hp2 Hg2].
  rewrite (onlyPins_board _ _ Hp1) in Hg2.
  split; [eapply onlyPins_trans; eassumption | eapply grows_trans; eassumption].
Qed.

Lemma getKnightMoves_spec s r c moves s' moves' :
  getKnightMoves s r c moves = Ok (s', moves') ->
  onlyPins s s' /\ grows (board s) r c moves moves'.
Proof.
  unfold getKnightMoves. intros H.
  apply bind_Ok in H. destruct H as ([[pp pd] s1] & E1 & H).
  pose proof (takePin_onlyPins _ _ _ _ _ _ E1) as Hp.
  rewrite <- (onlyPins_board _ _ Hp).
  run. split; [exact Hp | eapply knightLoop_grows; eassumption].
Qed.

(** ** The king generator and the king cache *)

Lemma placeKing_placeKing (s : GameState) (a : ascii) (q q' : Square) :
  placeKing (placeKing s a q) a q' = placeKing s a q'.
Proof. unfold placeKing. destruct (a =? "w")%char; reflexivity. Qed.

Lemma placeKing_board (s : GameState) (a : ascii) (q : Square) :
  board (placeKing s a q) = board s.
Proof. unfold placeKing. destruct (a =? "w")%char; reflexivity. Qed.

Lemma placeKing_frame (s : GameState) (a : ascii) (q : Square) :
  frame s (placeKing s a q) /\ pins (placeKing s a q) = pins s.
Proof. unfold placeKing, frame. destruct (a =? "w")%char; repeat split. Qed.

Lemma placeKing_home (s : GameState) (r c : Z) :
  kingLocation s = (r, c) -> placeKing s (allyColorOf s) (r, c) = s.
Proof.
  unfold kingLocation, allyColorOf, placeKing.
  destruct s as [b w l wk bk ic cs ps]; simpl.
  destruct w; simpl; intros ->; reflexivity.
Qed.

(** The loop leaves the state as it found it, or with the mover's cache set
    to [(r, c)]. *)
Lemma kingLoop_spec (a : ascii) (r c : Z) (ks : list (Z * Z)) :
  forall s moves s' moves',
    kingLoop s a r c ks moves = Ok (s', moves') ->
    (s' = s \/ s' = placeKing s a (r, c))
    /\ grows (board s) r c moves moves'.
Proof.
  induction ks as [|k rest IH]; intros s moves s' moves' H; simpl in H.
  - run. split; [left; reflexivity | apply grows_refl].
  - destruct (onBoard (r + fst k) (c + snd k)); [|apply IH; exact H].
    apply bind_Ok in H. destruct H as (p & Ep & H).
    apply bind_Ok in H. destruct H as (c0 & Ec0 & H).
    destruct (negb (c0 =? a)%char); [|apply IH; exact H].
    apply bind_Ok in H. destruct H as ([[ic ps] cs] & Ed & H).
    apply bind_Ok in H. destruct H as (moves1 & Em & H).
    apply IH in H. rewrite !placeKing_placeKing in H.
    rewrite placeKing_board in H. rewrite placeKing_board in Em.
    destruct H as [Hs Hg]. split.
    + right. destruct Hs as [->| ->]; reflexivity.
    + eapply grows_trans; [|exact Hg].
      destruct (negb ic); [eapply append_move_grows; exact Em|].
      inversion Em; subst. apply grows_refl.
Qed.

Lemma getKingMoves_spec s r c moves s' moves' :
  getKingMoves s r c moves = Ok (s', moves') ->
  (s' = s \/ s' = placeKing s (allyColorOf s) (r, c))
  /\ grows (board s) r c moves moves'.
Proof. unfold getKingMoves. apply kingLoop_spec. Qed.

Lemma getKingMoves_home s r c moves s' moves' :
  kingLocation s = (r, c) ->
  getKingMoves s r c moves = Ok (s', moves') -> s' = s.
Proof.
  intros Hk H. apply getKingMoves_spec in H. destruct H as [[->| ->] _];
    [reflexivity | apply placeKing_home; exact Hk].
Qed.

(** ** The pin list under the generators *)

Lemma takePin_no_pins s r c pp pd s1 :
  pins s = [] -> takePin s r c = Ok (pp, pd, s1) -> s1 = s /\ pp = false.
Proof.
  unfold takePin. intros Hp H. rewrite Hp in H. simpl in H.
  inversion H; subst. split; reflexivity.
Qed.

Lemma takePinRook_no_pins s r c pp pd s1 :
  pins s = [] -> takePinRook s r c = Ok (pp, pd, s1) -> s1 = s /\ pp = false.
Proof.
  unfold takePinRook. intros Hp H. rewrite Hp in H. simpl in H.
  inversion H; subst. split; reflexivity.
Qed.

Lemma generators_keep_empty_pins (gen : Generator) s r c moves s' moves' :
  In gen pinConsultingGenerators ->
  pins s = [] ->
  gen s r c moves = Ok (s', moves') -> s' = s.
Proof.
  assert (HR : forall s r c moves s' moves',
             pins s = [] -> getRookMoves s r c moves = Ok (s', moves') ->
             s' = s).
  { clear. intros s r c moves s' moves' Hp H. unfold getRookMoves in H.
    apply bind_Ok in H. destruct H as ([[pp pd] s1] & E1 & H).
    apply (takePinRook_no_pins _ _ _ _ _ _ Hp) in E1. destruct E1 as [-> _].
    run. reflexivity. }
  assert (HB : forall s r c moves s' moves',
             pins s = [] -> getBishopMoves s r c moves = Ok (s', moves') ->
             s' = s).
  { clear. intros s r c moves s' moves' Hp H. unfold getBishopMoves in H.
    apply bind_Ok in H. destruct H as ([[pp pd] s1] & E1 & H).
    apply (takePin_no_pins _ _ _ _ _ _ Hp) in E1. destruct E1 as [-> _].
    run. reflexivity. }
  intros Hin Hp H. simpl in Hin.
  destruct Hin as [<-|[<-|[<-|[<-|[<-|[]]]]]].
  - unfold getPawnMoves in H.
    apply bind_Ok in H. destruct H as ([[pp pd] s1] & E1 & H).
    apply (takePin_no_pins _ _ _ _ _ _ Hp) in E1. destruct E1 as [-> _].
    destruct (whiteToMove s); run; reflexivity.
  - eapply HR; eassumption.
  - unfold getKnightMoves in H.
    apply bind_Ok in H. destruct H as ([[pp pd] s1] & E1 & H).
    apply (takePin_no_pins _ _ _ _ _ _ Hp) in E1. destruct E1 as [-> _].
    run. reflexivity.
  - eapply HB; eassumption.
  - unfold getQueenMoves in H.
    apply bind_Ok in H. destruct H as ([s1 m1] & E1 & H).
    apply (HR _ _ _ _ _ _ Hp) in E1. subst s1.
    eapply HB; eassumption.
Qed.

(** The pin list [ps] that the detector computes survives every
    pin-consulting generator, for the only reason that it is empty: the
    generators' search finds nothing to remove.  What a generator does to
    a list that holds an entry is [generators_take_their_entry]. *)
Theorem generators_keep_computed_pins (gen : Generator) s0 ic ps cs
    s r c moves s' moves' :
  In gen pinConsultingGenerators ->
  checksForPinsAndChecks s0 = Ok (ic, ps, cs) ->
  pins s = ps ->
  gen s r c moves = Ok (s', moves') ->
  pins s' = ps /\ s' = s.
Proof.
  intros Hin Hd Hp H.
  apply checksForPinsAndChecks_pins_nil in Hd. subst ps.
  rewrite (generators_keep_empty_pins gen _ _ _ _ _ _ Hin Hp H).
  split; [exact Hp | reflexivity].
Qed.

Lemma generators_keep_computed_pins_witness :
  checksForPinsAndChecks newGame = Ok (false, [], [])
  /\ pins newGame = [].
Proof.
  split; [vm_compute; reflexivity|].
  apply (generators_keep_computed_pins getKnightMoves newGame false [] []
           newGame 7 1 [] newGame
           (let m := fun r' c' =>
              {| startRow := 7; startCol := 1; endRow := r'; endCol := c';
                 pieceMoved := "wN"; pieceCaptured := "--";
                 moveID := r' * 1000 + c' * 100 + 71 |} in
            [m 5 0; m 5 2])).
  - simpl. auto.
  - vm_compute; reflexivity.
  - reflexivity.
  - vm_compute; reflexivity.
Defined.

(** On a pin list that does hold an entry for the piece, the generator
    removes it: the destructive use the detector's empty result hides. *)
Example getKnightMoves_consumes_pin :
  exists s' moves',
    getKnightMoves knightPinnedByHand 7 1 [] = Ok (s', moves')
    /\ pins knightPinnedByHand = [(7, 1, 0, -1)]
    /\ pins s' = [] /\ moves' = [].
Proof.
  do 2 eexists. split; [vm_compute; reflexivity|]. repeat split.
Qed.

(** ** The board scan *)

Lemma frame_refl (s : GameState) : frame s s.
Proof. repeat split. Qed.

Lemma frame_trans (s1 s2 s3 : GameState) :
  frame s1 s2 -> frame s2 s3 -> frame s1 s3.
Proof.
  unfold frame. intros (A1 & A2 & A3 & A4 & A5) (B1 & B2 & B3 & B4 & B5).
  repeat split; congruence.
Qed.

Lemma sameKings_refl (s : GameState) : sameKings s s.
Proof. split; reflexivity. Qed.

Lemma sameKings_trans (s1 s2 s3 : GameState) :
  sameKings s1 s2 -> sameKings s2 s3 -> sameKings s1 s3.
Proof. unfold sameKings. intros [A1 A2] [B1 B2]. split; congruence. Qed.

Lemma kingsCached_frame (s s' : GameState) :
  frame s s' -> sameKings s s' -> kingsCached s' = kingsCached s.
Proof.
  intros (Hb & _) [Hw Hk]. unfold kingsCached. rewrite Hb, Hw, Hk. reflexivity.
Qed.


Lemma onlyPins_generatorSpec (gen : Generator) :
  In gen pinConsultingGenerators ->
  (forall s r c moves s' moves',
      gen s r c moves = Ok (s', moves') ->
      onlyPins s s' /\ grows (board s) r c moves moves') ->
  generatorSpec false gen.
Proof.
  intros Hin Hspec s r c moves s' moves' H.
  destruct (Hspec _ _ _ _ _ _ H) as [Hp Hg].
  destruct (onlyPins_frame _ _ Hp) as [Hf Hk].
  split; [exact Hf|]. split; [exact Hg|]. split; [|exact Hk].
  intros Hnil.
  rewrite (generators_keep_empty_pins gen _ _ _ _ _ _ Hin Hnil H).
  exact Hnil.
Qed.

Lemma getKingMoves_generatorSpec : generatorSpec true getKingMoves.
Proof.
  intros s r c moves s' moves' H.
  apply getKingMoves_spec in H. destruct H as [Hs Hg].
  assert (Hf : frame s s' /\ pins s' = pins s).
  { destruct Hs as [->| ->]; [split; [apply frame_refl | reflexivity]|].
    apply placeKing_frame. }
  destruct Hf as [Hf Hp].
  split; [exact Hf|]. split; [exact Hg|]. split; [|exact Hs].
  intros Hnil. rewrite Hp. exact Hnil.
Qed.

Lemma moveFunction_spec (piece : ascii) (gen : Generator) :
  moveFunction piece = Ok gen ->
  generatorSpec (piece =? "K")%char gen.
Proof.
  unfold moveFunction. cbn [Py.lookup]. intros H.
  destruct (Ascii.eqb "p" piece) eqn:Ep.
  { apply Ascii.eqb_eq in Ep. subst piece. inversion H; subst.
    apply onlyPins_generatorSpec;
      [simpl; auto | apply getPawnMoves_spec]. }
  destruct (Ascii.eqb "R" piece) eqn:ER.
  { apply Ascii.eqb_eq in ER. subst piece. inversion H; subst.
    apply onlyPins_generatorSpec;
      [simpl; auto | apply getRookMoves_spec]. }
  destruct (Ascii.eqb "N" piece) eqn:EN.
  { apply Ascii.eqb_eq in EN. subst piece. inversion H; subst.
    apply onlyPins_generatorSpec;
      [simpl; auto | apply getKnightMoves_spec]. }
  destruct (Ascii.eqb "B" piece) eqn:EB.
  { apply Ascii.eqb_eq in EB. subst piece. inversion H; subst.
    apply onlyPins_generatorSpec;
      [simpl; auto | apply getBishopMoves_spec]. }
  destruct (Ascii.eqb "Q" piece) eqn:EQ.
  { apply Ascii.eqb_eq in EQ. subst piece. inversion H; subst.
    apply onlyPins_generatorSpec;
      [simpl; auto 6 | apply getQueenMoves_spec]. }
  destruct (Ascii.eqb "K" piece) eqn:EK; [|discriminate H].
  apply Ascii.eqb_eq in EK. subst piece. inversion H; subst.
  apply getKingMoves_generatorSpec.
Qed.


Lemma extends_refl (b : Board) (moves : list Move) : extends b moves moves.
Proof. exists []. split; [symmetry; apply app_nil_r | constructor]. Qed.

Lemma extends_trans (b : Board) (m1 m2 m3 : list Move) :
  extends b m1 m2 -> extends b m2 m3 -> extends b m1 m3.
Proof.
  intros (e1 & -> & H1) (e2 & -> & H2). exists (e1 ++ e2).
  split; [symmetry; apply app_assoc | apply Forall_app; split; assumption].
Qed.

Lemma grows_extends (b : Board) (r c : Z) (moves moves' : list Move) :
  0 <= r -> 0 <= c -> grows b r c moves moves' -> extends b moves moves'.
Proof.
  intros Hr Hc (extra & -> & Hall). exists extra. split; [reflexivity|].
  eapply Forall_impl; [|exact Hall].
  intros m Hm. exists r, c. auto.
Qed.

Lemma extends_nil (b : Board) (moves : list Move) :
  extends b [] moves -> Forall (genuine b) moves.
Proof. intros (extra & -> & H). exact H. Qed.

Lemma range_nonneg (n c : Z) : In c (Py.range 0 n) -> 0 <= c.
Proof.
  unfold Py.range. intros H. apply in_map_iff in H.
  destruct H as (k & <- & _). lia.
Qed.

(** ** The king cache and the board *)

Lemma sq_eqb_eq (p q : Square) : sq_eqb p q = true <-> p = q.
Proof.
  destruct p as [a b], q as [a' b']. unfold sq_eqb. simpl.
  rewrite andb_true_iff, !Z.eqb_eq. split.
  - intros [-> ->]. reflexivity.
  - intros H. inversion H. auto.
Qed.

Lemma index_nonneg {A : Type} (l : list A) (i : Z) (x : A) :
  0 <= i -> Py.index l i = Ok x -> nth_error l (Z.to_nat i) = Some x.
Proof.
  unfold Py.index, Py.norm. intros Hi H.
  destruct (i <? 0) eqn:E; [apply Z.ltb_lt in E; lia|].
  rewrite E in H.
  destruct (nth_error l (Z.to_nat i)); [inversion H; reflexivity | discriminate].
Qed.

Lemma rowKingsAt_spec (col : ascii) (r : Z) (loc : Square) (row : list string) :
  forall c0 n p,
    rowKingsAt row col r c0 loc = true ->
    nth_error row n = Some p -> isKingOf col p = true ->
    loc = (r, c0 + Z.of_nat n).
Proof.
  induction row as [|q t IH]; intros c0 n p H Hn Hk.
  - destruct n; discriminate.
  - simpl in H. apply andb_true_iff in H. destruct H as [H1 H2].
    destruct n as [|n]; simpl in Hn.
    + inversion Hn; subst. rewrite Hk in H1.
      apply sq_eqb_eq in H1. rewrite <- H1. f_equal. lia.
    + rewrite (IH _ _ _ H2 Hn Hk). f_equal. lia.
Qed.

Lemma boardKingsAt_spec (col : ascii) (loc : Square) (b : Board) :
  forall r0 n row m p,
    boardKingsAt b col r0 loc = true ->
    nth_error b n = Some row -> nth_error row m = Some p ->
    isKingOf col p = true ->
    loc = (r0 + Z.of_nat n, Z.of_nat m).
Proof.
  induction b as [|row0 t IH]; intros r0 n row m p H Hn Hm Hk.
  - destruct n; discriminate.
  - simpl in H. apply andb_true_iff in H. destruct H as [H1 H2].
    destruct n as [|n]; simpl in Hn.
    + inversion Hn; subst.
      rewrite (rowKingsAt_spec _ _ _ _ _ _ _ H1 Hm Hk). f_equal. lia.
    + rewrite (IH _ _ _ _ _ H2 Hn Hm Hk). f_equal. lia.
Qed.

Lemma boardKingsAt_get (col : ascii) (loc : Square) (b : Board) (r c : Z)
    (p : string) :
  boardKingsAt b col 0 loc = true ->
  0 <= r -> 0 <= c ->
  board_get b r c = Ok p -> isKingOf col p = true -> loc = (r, c).
Proof.
  intros H Hr Hc Hg Hk. unfold board_get in Hg.
  apply bind_Ok in Hg. destruct Hg as (row & Er & Ec).
  apply (index_nonneg _ _ _ Hr) in Er.
  apply (index_nonneg _ _ _ Hc) in Ec.
  rewrite (boardKingsAt_spec _ _ _ _ _ _ _ _ H Er Ec Hk).
  f_equal; lia.
Qed.

Lemma kingsCached_parts (s : GameState) :
  kingsCached s = true ->
  boardKingsAt (board s) "w" 0 (whiteKingLocation s) = true
  /\ boardKingsAt (board s) "b" 0 (blackKingLocation s) = true
  /\ 0 <= fst (whiteKingLocation s) /\ 0 <= snd (whiteKingLocation s)
  /\ 0 <= fst (blackKingLocation s) /\ 0 <= snd (blackKingLocation s).
Proof.
  unfold kingsCached. rewrite !andb_true_iff, !Z.leb_le. tauto.
Qed.

(** A square that holds the mover's king is the mover's cached square. *)
Lemma kingsCached_ally (s : GameState) (r c : Z) (p : string) :
  kingsCached s = true -> 0 <= r -> 0 <= c ->
  board_get (board s) r c = Ok p ->
  isKingOf (allyColorOf s) p = true ->
  kingLocation s = (r, c).
Proof.
  intros H Hr Hc Hg Hk. apply kingsCached_parts in H.
  destruct H as (Hw & Hb & _).
  unfold kingLocation, allyColorOf in *.
  destruct (whiteToMove s); eapply boardKingsAt_get; eauto.
Qed.

Lemma kingLocation_nonneg (s : GameState) :
  kingsCached s = true ->
  0 <= fst (kingLocation s) /\ 0 <= snd (kingLocation s).
Proof.
  intros H. apply kingsCached_parts in H. unfold kingLocation.
  destruct (whiteToMove s); tauto.
Qed.

Lemma char_get (p : string) (n : nat) (a : ascii) :
  Py.char p n = Ok a <-> String.get n p = Some a.
Proof.
  unfold Py.char. destruct (String.get n p); split; intros H;
    inversion H; reflexivity.
Qed.

Lemma scanCols_spec (r : Z) (cs : list Z) :
  0 <= r -> (forall c, In c cs -> 0 <= c) ->
  forall s moves s' moves',
    scanCols s r cs moves = Ok (s', moves') ->
    frame s s' /\ extends (board s) moves moves'
    /\ (pins s = [] -> pins s' = [])
    /\ (kingsCached s = true -> sameKings s s').
Proof.
  intros Hr. induction cs as [|c rest IH]; intros Hcs s moves s' moves' H;
    cbn [scanCols] in H.
  - run. split; [apply frame_refl|]. split; [apply extends_refl|].
    split; [auto | intros _; apply sameKings_refl].
  - assert (Hc : 0 <= c) by (apply Hcs; left; reflexivity).
    assert (Hrest : forall c', In c' rest -> 0 <= c')
      by (intros c' Hin; apply Hcs; right; exact Hin).
    specialize (IH Hrest).
    apply bind_Ok in H. destruct H as (sq & Esq & H).
    apply bind_Ok in H. destruct H as (turn & Eturn & H).
    destruct (((turn =? "w")%char && whiteToMove s)
              || ((turn =? "b")%char && negb (whiteToMove s))) eqn:Eside;
      [|apply IH; exact H].
    apply bind_Ok in H. destruct H as (piece & Epiece & H).
    apply bind_Ok in H. destruct H as (gen & Egen & H).
    apply bind_Ok in H. destruct H as ([s1 moves1] & E1 & H).
    apply moveFunction_spec in Egen.
    destruct (Egen _ _ _ _ _ _ E1) as (Hf1 & Hg1 & Hp1 & Hk1).
    destruct (IH _ _ _ _ H) as (Hf2 & Hg2 & Hp2 & Hk2).
    assert (Hb : board s1 = board s) by apply Hf1.
    rewrite Hb in Hg2.
    split; [eapply frame_trans; eassumption|].
    split; [eapply extends_trans; [eapply (grows_extends _ r c); eassumption|exact Hg2]|].
    split; [auto|].
    intros HK.
    assert (Hs1 : sameKings s s1).
    { destruct (piece =? "K")%char eqn:EK; [|exact Hk1].
      assert (Hhome : kingLocation s = (r, c)).
      { apply (kingsCached_ally s r c sq HK Hr Hc Esq).
        unfold isKingOf. apply char_get in Eturn, Epiece.
        rewrite Eturn, Epiece, EK.
        unfold allyColorOf. destruct (whiteToMove s); simpl in *.
        - rewrite andb_false_r, orb_false_r, andb_true_r in Eside.
          rewrite Eside. reflexivity.
        - rewrite andb_false_r, andb_true_r in Eside. simpl in Eside.
          rewrite Eside. reflexivity. }
      destruct Hk1 as [->| ->]; [apply sameKings_refl|].
      rewrite (placeKing_home _ _ _ Hhome). apply sameKings_refl. }
    eapply sameKings_trans; [exact Hs1|]. apply Hk2.
    rewrite (kingsCached_frame _ _ Hf1 Hs1). exact HK.
Qed.

Lemma scanRows_spec (rs : list Z) :
  (forall r, In r rs -> 0 <= r) ->
  forall s moves s' moves',
    scanRows s rs moves = Ok (s', moves') ->
    frame s s' /\ extends (board s) moves moves'
    /\ (pins s = [] -> pins s' = [])
    /\ (kingsCached s = true -> sameKings s s').
Proof.
  induction rs as [|r rest IH]; intros Hrs s moves s' moves' H;
    cbn [scanRows] in H.
  - run. split; [apply frame_refl|]. split; [apply extends_refl|].
    split; [auto | intros _; apply sameKings_refl].
  - assert (Hr : 0 <= r) by (apply Hrs; left; reflexivity).
    assert (Hrest : forall r', In r' rest -> 0 <= r')
      by (intros r' Hin; apply Hrs; right; exact Hin).
    apply bind_Ok in H. destruct H as (row & Erow & H).
    apply bind_Ok in H. destruct H as ([s1 moves1] & E1 & H).
    apply (scanCols_spec r _ Hr (range_nonneg _)) in E1.
    destruct E1 as (Hf1 & Hg1 & Hp1 & Hk1).
    destruct (IH Hrest _ _ _ _ H) as (Hf2 & Hg2 & Hp2 & Hk2).
    assert (Hb : board s1 = board s) by apply Hf1.
    rewrite Hb in Hg2.
    split; [eapply frame_trans; eassumption|].
    split; [eapply extends_trans; eassumption|].
    split; [auto|].
    intros HK. specialize (Hk1 HK).
    eapply sameKings_trans; [exact Hk1|]. apply Hk2.
    rewrite (kingsCached_frame _ _ Hf1 Hk1). exact HK.
Qed.

Lemma getAllPossibleMoves_spec (s s' : GameState) (moves : list Move) :
  getAllPossibleMoves s = Ok (s', moves) ->
  frame s s' /\ Forall (genuine (board s)) moves
  /\ (pins s = [] -> pins s' = [])
  /\ (kingsCached s = true -> sameKings s s').
Proof.
  unfold getAllPossibleMoves. intros H.
  apply (scanRows_spec _ (range_nonneg _)) in H.
  destruct H as (Hf & Hg & Hp & Hk).
  split; [exact Hf|]. split; [apply extends_nil; exact Hg|].
  split; assumption.
Qed.

(** ** The filtering pass *)

Lemma index_of_nat {A : Type} (l : list A) (i : nat) (x : A) :
  Py.index l (Z.of_nat i) = Ok x -> nth_error l i = Some x.
Proof.
  intros H. apply index_nonneg in H; [|lia].
  rewrite Nat2Z.id in H. exact H.
Qed.

Lemma remove_skipn {A : Type} (eqb : A -> A -> bool) (x : A) (l : list A) :
  forall l' i y,
    Py.remove eqb x l = Ok l' ->
    nth_error l i = Some y -> eqb y x = true ->
    skipn i l' = skipn (S i) l.
Proof.
  induction l as [|h t IH]; intros l' i y H Hn Hy; simpl in H.
  - discriminate.
  - destruct (eqb h x) eqn:Eh.
    + inversion H; subst. reflexivity.
    + apply bind_Ok in H. destruct H as (t' & Et & H). inversion H; subst.
      destruct i as [|i]; simpl in Hn.
      * inversion Hn; subst. congruence.
      * simpl. apply (IH _ _ _ Et Hn Hy).
Qed.

Lemma remove_incl {A : Type} (eqb : A -> A -> bool) (x : A) (l : list A) :
  forall l' y, Py.remove eqb x l = Ok l' -> In y l' -> In y l.
Proof.
  induction l as [|h t IH]; intros l' y H Hy; simpl in H.
  - discriminate.
  - destruct (eqb h x).
    + inversion H; subst. right. exact Hy.
    + apply bind_Ok in H. destruct H as (t' & Et & H). inversion H; subst.
      destruct Hy as [->|Hy]; [left; reflexivity | right; eauto].
Qed.

Lemma down_S (n : nat) : Py.down (S n) = n :: Py.down n.
Proof.
  unfold Py.down. rewrite seq_S, rev_app_distr. reflexivity.
Qed.

Lemma Move_eqb_refl (m : Move) : Move_eqb m m = true.
Proof. apply Z.eqb_refl. Qed.

Lemma existsb_sq_In (q : Square) (l : list Square) :
  existsb (sq_eqb q) l = true -> In q l.
Proof.
  intros H. apply existsb_exists in H. destruct H as (x & Hin & Hx).
  apply sq_eqb_eq in Hx. subst. exact Hin.
Qed.

Lemma skipn_cons_nth {A : Type} (l : list A) :
  forall i x, nth_error l i = Some x -> skipn i l = x :: skipn (S i) l.
Proof.
  induction l as [|h t IH]; intros i x H; destruct i; simpl in *;
    try discriminate.
  - inversion H; reflexivity.
  - apply IH. exact H.
Qed.

(** The backward loop keeps the tail it has walked through free of moves
    that do not answer the check, whichever equal move [remove] drops. *)
Lemma filterMoves_tail (vs : list Square) (k : nat) :
  forall moves moves',
    filterMoves vs (Py.down k) moves = Ok moves' ->
    Forall (answersCheck vs) (skipn k moves) ->
    Forall (answersCheck vs) moves'.
Proof.
  induction k as [|i IH]; intros moves moves' H Htail.
  - simpl in H. inversion H; subst. exact Htail.
  - rewrite down_S in H. cbn [filterMoves] in H.
    apply bind_Ok in H. destruct H as (m & Em & H).
    apply index_of_nat in Em.
    apply bind_Ok in H. destruct H as (kind & Ek & H).
    assert (Hkeep : answersCheck vs m ->
                    filterMoves vs (Py.down i) moves = Ok moves' ->
                    Forall (answersCheck vs) moves').
    { intros Hm H'. apply (IH _ _ H').
      rewrite (skipn_cons_nth _ _ _ Em). constructor; assumption. }
    destruct (negb (kind =? "K")%char) eqn:EK.
    + destruct (negb (existsb (sq_eqb (endRow m, endCol m)) vs)) eqn:Ev.
      * apply bind_Ok in H. destruct H as (moves1 & Er & H).
        apply (IH _ _ H).
        rewrite (remove_skipn _ _ _ _ _ _ Er Em (Move_eqb_refl m)).
        exact Htail.
      * apply Hkeep; [|exact H]. right.
        apply existsb_sq_In. apply negb_false_iff. exact Ev.
    + apply Hkeep; [|exact H]. left.
      apply negb_false_iff, Ascii.eqb_eq in EK. subst. exact Ek.
Qed.

Lemma filterMoves_incl (vs : list Square) (idxs : list nat) :
  forall moves moves' m,
    filterMoves vs idxs moves = Ok moves' -> In m moves' -> In m moves.
Proof.
  induction idxs as [|i rest IH]; intros moves moves' m H Hin;
    cbn [filterMoves] in H.
  - inversion H; subst. exact Hin.
  - run; eauto using remove_incl.
Qed.

Lemma filterMoves_answers (vs : list Square) (moves moves' : list Move) :
  filterMoves vs (Py.down (length moves)) moves = Ok moves' ->
  Forall (answersCheck vs) moves'.
Proof.
  intros H. apply (filterMoves_tail _ _ _ _ H).
  rewrite skipn_all. constructor.
Qed.

(** The squares collected along the axis stop at the attacker. *)
Lemma blockSquares_upto (kr kc cr cc d0 d1 k : Z) (sq : Square)
    (steps : list Z) :
  StronglySorted Z.lt steps ->
  In k steps -> (cr, cc) = (kr + d0 * k, kc + d1 * k) ->
  In sq (blockSquares kr kc cr cc d0 d1 steps) ->
  exists t, In t steps /\ t <= k /\ sq = (kr + d0 * t, kc + d1 * t).
Proof.
  intros Hs Hk Heq. inversion Heq; subst cr cc. clear Heq.
  induction steps as [|i rest IH]; intros Hin; simpl in Hin; [contradiction|].
  inversion Hs as [|? ? Hs' Hlt]; subst.
  assert (Hik : i <= k).
  { destruct Hk as [->|Hk]; [lia|].
    rewrite Forall_forall in Hlt. specialize (Hlt _ Hk). lia. }
  destruct ((kr + d0 * i =? kr + d0 * k) && (kc + d1 * i =? kc + d1 * k))
    eqn:E.
  - destruct Hin as [<-|[]]. exists i. split; [left; reflexivity|].
    split; [exact Hik | reflexivity].
  - destruct Hin as [<-|Hin].
    + exists i. split; [left; reflexivity|]. split; [exact Hik | reflexivity].
    + destruct Hk as [->|Hk].
      * rewrite !Z.eqb_refl in E. discriminate.
      * destruct (IH Hs' Hk Hin) as (t & Ht & Htk & Hsq).
        exists t. split; [right; exact Ht | split; assumption].
Qed.

Lemma range_1_8_sorted : StronglySorted Z.lt (Py.range 1 8).
Proof.
  rewrite range_1_8.
  repeat (constructor; [|repeat (constructor; [lia|]); constructor]).
  constructor.
Qed.

Lemma range_1_8_in (i : Z) : 1 <= i <= 7 -> In i (Py.range 1 8).
Proof. rewrite range_1_8. simpl. lia. Qed.

(** ** The three branches of [getValidMoves] *)

Lemma getValidMoves_branches (s : GameState) ic ps cs :
  checksForPinsAndChecks s = Ok (ic, ps, cs) ->
  getValidMoves s =
  let s0 := set_analysis s ic ps cs in
  if ic then
    if Nat.eqb (length cs) 1 then
      '(s1, moves) <- getAllPossibleMoves s0 ;;
      check <- Py.index (checks s1) 0 ;;
      match check with
      | (checkRow, checkCol, d0, d1) =>
          pieceChecking <- board_get (board s1) checkRow checkCol ;;
          kind <- Py.char pieceChecking 1 ;;
          let validSquares :=
            if (kind =? "N")%char then [(checkRow, checkCol)]
            else blockSquares (fst (kingLocation s)) (snd (kingLocation s))
                              checkRow checkCol d0 d1 (Py.range 1 8) in
          moves' <- filterMoves validSquares (Py.down (length moves)) moves ;;
          Ok (s1, moves')
      end
    else getKingMoves s0 (fst (kingLocation s)) (snd (kingLocation s)) []
  else getAllPossibleMoves s0.
Proof.
  intros H. unfold getValidMoves. rewrite H. reflexivity.
Qed.

Lemma checks_flag (s : GameState) ic ps cs :
  checksForPinsAndChecks s = Ok (ic, ps, cs) -> cs <> [] -> ic = true.
Proof.
  intros H Hne. apply checksForPinsAndChecks_shape in H.
  destruct H as [_ [_ H]]. exact (H Hne).
Qed.

Lemma madeAt_fields (b : Board) (r c : Z) (m : Move) :
  madeAt b r c m ->
  startRow m = r /\ startCol m = c
  /\ board_get b r c = Ok (pieceMoved m)
  /\ board_get b (endRow m) (endCol m) = Ok (pieceCaptured m).
Proof.
  intros (r' & c' & H). unfold Move_init in H. simpl in H.
  apply bind_Ok in H. destruct H as (pm & Epm & H).
  apply bind_Ok in H. destruct H as (pc & Epc & H).
  inversion H; subst; simpl. auto.
Qed.

(** With two or more checks only [getKingMoves] runs, for the cached king
    square: when that square holds the mover's king, every move returned
    by [getValidMoves] starts on it and has the king as [pieceMoved].
    (After a king has been taken the square may hold anything: see
    [double_check_moves_empty_square].) *)
Theorem double_check_only_king_moves (s : GameState) ic ps cs s1 moves m :
  checksForPinsAndChecks s = Ok (ic, ps, cs) ->
  (2 <= length cs)%nat ->
  board_get (board s) (fst (kingLocation s)) (snd (kingLocation s))
  = Ok (allyKing s) ->
  getValidMoves s = Ok (s1, moves) ->
  In m moves ->
  pieceMoved m = allyKing s
  /\ (startRow m, startCol m) = kingLocation s.
Proof.
  intros Hd Hlen Hking Hv Hin.
  rewrite (getValidMoves_branches _ _ _ _ Hd) in Hv. cbv zeta in Hv.
  assert (Hic : ic = true).
  { apply (checks_flag _ _ _ _ Hd). destruct cs; [simpl in Hlen; lia | discriminate]. }
  subst ic.
  assert (Hone : Nat.eqb (length cs) 1 = false) by (apply Nat.eqb_neq; lia).
  rewrite Hone in Hv.
  apply getKingMoves_spec in Hv. destruct Hv as [_ (extra & Hm & Hall)].
  simpl in Hm. subst moves.
  rewrite Forall_forall in Hall. specialize (Hall _ Hin).
  apply madeAt_fields in Hall. destruct Hall as (Hr & Hc & Hpm & _).
  simpl in Hpm. rewrite Hking in Hpm. inversion Hpm as [Hp].
  split; [reflexivity|].
  rewrite Hr, Hc. destruct (kingLocation s); reflexivity.
Qed.

Lemma double_check_only_king_moves_witness :
  exists s1 moves m,
    checksForPinsAndChecks doubleCheck
    = Ok (true, [], [(0, 4, -1, 0); (5, 3, -2, -1)])
    /\ getValidMoves doubleCheck = Ok (s1, moves)
    /\ In m moves
    /\ pieceMoved m = "wK".
Proof.
  destruct (getValidMoves doubleCheck) as [[s1 moves]|e] eqn:Ev;
    [|vm_compute in Ev; discriminate].
  destruct moves as [|m rest] eqn:Em;
    [vm_compute in Ev; discriminate|].
  exists s1, (m :: rest), m.
  assert (Hd : checksForPinsAndChecks doubleCheck
               = Ok (true, [], [(0, 4, -1, 0); (5, 3, -2, -1)]))
    by (vm_compute; reflexivity).
  split; [exact Hd|]. split; [reflexivity|].
  split; [left; reflexivity|].
  apply (double_check_only_king_moves doubleCheck true []
           [(0, 4, -1, 0); (5, 3, -2, -1)] s1 (m :: rest) m).
  - exact Hd.
  - simpl. lia.
  - vm_compute. reflexivity.
  - exact Ev.
  - left. reflexivity.
Defined.

Lemma kindAt_unique (b : Board) (r c : Z) (k k' : ascii) :
  kindAt b r c k -> kindAt b r c k' -> k = k'.
Proof.
  intros (p & Hp & Hk) (p' & Hp' & Hk'). congruence.
Qed.

(** C4: when the detector reports exactly one check [q], every move
    returned by [getValidMoves] that does not move a king lands on the
    line from the king to the attacker, the attacker's square included;
    when the attacker is a knight, it lands on the knight's square. *)
Theorem single_check_moves_answer_it (s : GameState) ic ps q s1 moves m :
  checksForPinsAndChecks s = Ok (ic, ps, [q]) ->
  getValidMoves s = Ok (s1, moves) ->
  In m moves ->
  Py.char (pieceMoved m) 1 <> Ok "K"%char ->
  onAttackRay (kingLocation s) q (endRow m, endCol m)
  /\ (match q with
      | (cr, cc, _, _) =>
          kindAt (board s) cr cc "N" -> (endRow m, endCol m) = (cr, cc)
      end).
Proof.
  intros Hd Hv Hin Hnk.
  rewrite (getValidMoves_branches _ _ _ _ Hd) in Hv. cbv zeta in Hv.
  assert (Hic : ic = true) by (apply (checks_flag _ _ _ _ Hd); discriminate).
  subst ic. simpl (Nat.eqb _ _) in Hv. cbv iota in Hv.
  apply bind_Ok in Hv. destruct Hv as ([s1' moves0] & Ea & Hv).
  apply getAllPossibleMoves_spec in Ea.
  destruct Ea as ((Hb & _ & _ & _ & Hc) & _).
  simpl in Hb, Hc. rewrite Hc, Hb in Hv.
  apply bind_Ok in Hv. destruct Hv as (q' & Eq & Hv).
  vm_compute in Eq. inversion Eq; subst q'. clear Eq.
  destruct q as [[[cr cc] d0] d1].
  apply bind_Ok in Hv. destruct Hv as (pc & Epc & Hv).
  apply bind_Ok in Hv. destruct Hv as (kind & Ekind & Hv).
  apply bind_Ok in Hv. destruct Hv as (moves' & Ef & Hv).
  inversion Hv; subst s1' moves'. clear Hv.
  apply filterMoves_answers in Ef. rewrite Forall_forall in Ef.
  specialize (Ef _ Hin). destruct Ef as [Hk|Hsq]; [contradiction|].
  assert (Hkind : kindAt (board s) cr cc kind) by (exists pc; split; assumption).
  apply checksForPinsAndChecks_shape in Hd. destruct Hd as [Hall _].
  inversion Hall as [|? ? Hq _]; subst.
  destruct (kind =? "N")%char eqn:EN.
  - apply Ascii.eqb_eq in EN. subst kind.
    destruct Hsq as [Hsq|[]]. split; [|intros _; symmetry; exact Hsq].
    rewrite <- Hsq.
    destruct Hq as [(j & d & i & k & _ & Hi & Hq & _)|(mv & _ & Hq & _)];
      inversion Hq; subst.
    + exists i, i. repeat split; lia.
    + exists 1, 1. repeat split; try lia; f_equal; lia.
  - split.
    2:{ intros HN. pose proof (kindAt_unique _ _ _ _ _ Hkind HN) as ->.
        discriminate. }
    destruct Hq as [(j & d & i & k & _ & Hi & Hq & _)|(mv & _ & Hq & HN)].
    + inversion Hq; subst.
      destruct (blockSquares_upto _ _ _ _ _ _ i _ _ range_1_8_sorted
                  (range_1_8_in _ Hi) eq_refl Hsq) as (t & Ht & Hti & Hsq').
      apply range_1_8_bounds in Ht.
      exists i, t. repeat split; try lia. exact Hsq'.
    + inversion Hq; subst.
      pose proof (kindAt_unique _ _ _ _ _ Hkind HN) as ->. discriminate.
Qed.

Lemma single_check_moves_answer_it_witness :
  onAttackRay (0, 4) (3, 7, 1, 1) (2, 6).
Proof.
  destruct (getValidMoves afterQueenCheck) as [[s1 moves]|e] eqn:Ev;
    [|vm_compute in Ev; discriminate].
  refine (proj1 (single_check_moves_answer_it afterQueenCheck true []
                   (3, 7, 1, 1) s1 moves pawnBlocks _ Ev _ _)).
  - vm_compute. reflexivity.
  - vm_compute in Ev. inversion Ev; subst. simpl. tauto.
  - vm_compute. discriminate.
Defined.

(** ** List updates *)

Lemma length_update {A : Type} (l : list A) :
  forall n x, length (Py.update l n x) = length l.
Proof.
  induction l as [|h t IH]; intros [|n] x; simpl; auto.
Qed.

Lemma nth_error_update_eq {A : Type} (l : list A) :
  forall n x, (n < length l)%nat -> nth_error (Py.update l n x) n = Some x.
Proof.
  induction l as [|h t IH]; intros [|n] x H; simpl in *; try lia; auto.
  apply IH. lia.
Qed.

Lemma nth_error_update_neq {A : Type} (l : list A) :
  forall n m x, n <> m -> nth_error (Py.update l n x) m = nth_error l m.
Proof.
  induction l as [|h t IH]; intros [|n] [|m] x H; simpl; auto;
    try contradiction.
Qed.

Lemma list_ext {A : Type} (l l' : list A) :
  (forall n, nth_error l n = nth_error l' n) -> l = l'.
Proof.
  revert l'. induction l as [|h t IH]; intros [|h' t'] H.
  - reflexivity.
  - specialize (H 0%nat). discriminate.
  - specialize (H 0%nat). discriminate.
  - pose proof (H 0%nat) as H0. simpl in H0. inversion H0; subst.
    f_equal. apply IH. intros n. apply (H (S n)).
Qed.

(** ** Cells *)

Lemma shape_put (b : Board) (i j : nat) (x : string) :
  shape (put b i j x) = shape b.
Proof.
  unfold put, shape. destruct (nth_error b i) as [row|] eqn:E; [|reflexivity].
  apply list_ext. intros n.
  rewrite !nth_error_map.
  destruct (Nat.eq_dec i n) as [->|Hn].
  - rewrite nth_error_update_eq, E; [|apply nth_error_Some; congruence].
    simpl. rewrite length_update. reflexivity.
  - rewrite nth_error_update_neq by exact Hn. reflexivity.
Qed.

Lemma length_shape (b : Board) : length (shape b) = length b.
Proof. apply length_map. Qed.

Lemma length_put (b : Board) (i j : nat) (x : string) :
  length (put b i j x) = length b.
Proof. rewrite <- !length_shape, shape_put. reflexivity. Qed.

Lemma cellAt_put_eq (b : Board) (i j : nat) (x p : string) :
  cellAt b i j = Some p -> cellAt (put b i j x) i j = Some x.
Proof.
  unfold cellAt, put. destruct (nth_error b i) as [row|] eqn:E; [|discriminate].
  intros Hj.
  rewrite nth_error_update_eq by (apply nth_error_Some; congruence).
  apply nth_error_update_eq. apply nth_error_Some. congruence.
Qed.

Lemma cellAt_put_neq (b : Board) (i j i' j' : nat) (x : string) :
  (i, j) <> (i', j') -> cellAt (put b i j x) i' j' = cellAt b i' j'.
Proof.
  unfold cellAt, put. intros Hne.
  destruct (nth_error b i) as [row|] eqn:E; [|reflexivity].
  destruct (Nat.eq_dec i i') as [<-|Hi].
  - rewrite nth_error_update_eq by (apply nth_error_Some; congruence).
    rewrite E. apply nth_error_update_neq. congruence.
  - rewrite nth_error_update_neq by exact Hi. reflexivity.
Qed.

Lemma board_ext (b b' : Board) :
  shape b = shape b' ->
  (forall i j, cellAt b i j = cellAt b' i j) -> b = b'.
Proof.
  intros Hsh Hcell. apply list_ext. intros i.
  pose proof (f_equal (fun l => nth_error l i) Hsh) as Hi. simpl in Hi.
  unfold shape in Hi. rewrite !nth_error_map in Hi.
  specialize (Hcell i). unfold cellAt in Hcell.
  destruct (nth_error b i) as [row|], (nth_error b' i) as [row'|];
    try discriminate; [|reflexivity].
  f_equal. apply list_ext. exact Hcell.
Qed.

Lemma index_pos {A : Type} (l : list A) (i : Z) (x : A) :
  Py.index l i = Ok x -> nth_error l (pos (length l) i) = Some x.
Proof.
  unfold Py.index, pos. intros H.
  destruct (Py.norm (Z.of_nat (length l)) i <? 0); [discriminate|].
  destruct (nth_error l _); [inversion H; reflexivity | discriminate].
Qed.

Lemma setitem_pos {A : Type} (l : list A) (i : Z) (x y : A) :
  Py.index l i = Ok x ->
  Py.setitem l i y = Ok (Py.update l (pos (length l) i) y).
Proof.
  unfold Py.index, Py.setitem, pos. intros H.
  destruct (Py.norm (Z.of_nat (length l)) i <? 0) eqn:E; [discriminate|].
  destruct (nth_error l _) eqn:En; [|discriminate].
  assert (Hlt : (Z.to_nat (Py.norm (Z.of_nat (length l)) i) < length l)%nat)
    by (apply nth_error_Some; congruence).
  apply Z.ltb_ge in E.
  destruct (Z.of_nat (length l) <=? Py.norm (Z.of_nat (length l)) i) eqn:E2;
    [apply Z.leb_le in E2; lia | reflexivity].
Qed.

Lemma index_same_length {A B : Type} (l : list A) (l' : list B) (i : Z) (x : A) :
  length l = length l' -> Py.index l i = Ok x ->
  exists x', Py.index l' i = Ok x'.
Proof.
  unfold Py.index. intros Hlen H. rewrite <- Hlen.
  destruct (Py.norm (Z.of_nat (length l)) i <? 0); [discriminate|].
  destruct (nth_error l _) eqn:En; [|discriminate].
  assert (Hlt : (Z.to_nat (Py.norm (Z.of_nat (length l)) i) < length l')%nat)
    by (rewrite <- Hlen; apply nth_error_Some; congruence).
  apply nth_error_Some in Hlt.
  destruct (nth_error l' _); [eauto | contradiction].
Qed.

Lemma nth_shape (b : Board) (i : nat) (row : list string) :
  nth_error b i = Some row -> nth i (shape b) 0%nat = length row.
Proof.
  intros H. unfold shape.
  apply nth_error_nth. rewrite nth_error_map, H. reflexivity.
Qed.

(** [b[r][c]] reads the cell [(rowOf b r, colOf b r c)]. *)
Lemma board_get_cell (b : Board) (r c : Z) (p : string) :
  board_get b r c = Ok p <->
  cellAt b (rowOf b r) (colOf b r c) = Some p
  /\ exists row, Py.index b r = Ok row /\ Py.index row c = Ok p.
Proof.
  unfold board_get. split.
  - intros H. apply bind_Ok in H. destruct H as (row & Er & Ec).
    split; [|eauto].
    unfold cellAt, colOf, rowOf.
    pose proof (index_pos _ _ _ Er) as Hr. rewrite Hr.
    rewrite (nth_shape _ _ _ Hr). apply index_pos. exact Ec.
  - intros [_ (row & Er & Ec)]. rewrite Er. exact Ec.
Qed.

(** [b[r][c] = x] writes that cell. *)
Lemma board_set_put (b : Board) (r c : Z) (p x : string) :
  board_get b r c = Ok p ->
  board_set b r c x = Ok (put b (rowOf b r) (colOf b r c) x).
Proof.
  intros H. apply board_get_cell in H. destruct H as [_ (row & Er & Ec)].
  unfold board_set, put, colOf, rowOf.
  pose proof (index_pos _ _ _ Er) as Hr.
  rewrite Er. cbn [bind].
  rewrite (setitem_pos _ _ _ _ Ec). cbn [bind].
  rewrite (setitem_pos _ _ _ _ Er). rewrite Hr.
  rewrite (nth_shape _ _ _ Hr). reflexivity.
Qed.

Lemma rowOf_shape (b b' : Board) (r : Z) :
  shape b = shape b' -> rowOf b r = rowOf b' r.
Proof.
  intros H. unfold rowOf. rewrite <- (length_shape b), <- (length_shape b'), H.
  reflexivity.
Qed.

Lemma colOf_shape (b b' : Board) (r c : Z) :
  shape b = shape b' -> colOf b r c = colOf b' r c.
Proof.
  intros H. unfold colOf. rewrite (rowOf_shape _ _ _ H), H. reflexivity.
Qed.

(** Whether [b[r][c]] succeeds depends on the shape alone. *)
Lemma board_get_shape (b b' : Board) (r c : Z) (p : string) :
  shape b = shape b' -> board_get b r c = Ok p ->
  exists p', board_get b' r c = Ok p'.
Proof.
  intros Hsh H. apply board_get_cell in H. destruct H as [_ (row & Er & Ec)].
  assert (Hlen : length b = length b')
    by (rewrite <- (length_shape b), <- (length_shape b'), Hsh; reflexivity).
  destruct (index_same_length _ _ _ _ Hlen Er) as (row' & Er').
  assert (Hrow : length row = length row').
  { apply index_pos in Er, Er'. rewrite <- Hlen in Er'.
    rewrite <- (nth_shape _ _ _ Er), <- (nth_shape _ _ _ Er'), Hsh.
    reflexivity. }
  destruct (index_same_length _ _ _ _ Hrow Ec) as (p' & Ec').
  exists p'. unfold board_get. rewrite Er'. exact Ec'.
Qed.

Lemma update_out {A : Type} (l : list A) :
  forall n x, (length l <= n)%nat -> Py.update l n x = l.
Proof.
  induction l as [|h t IH]; intros [|n] x H; simpl in *; auto; try lia.
  f_equal. apply IH. lia.
Qed.

Lemma cellAt_put (b : Board) (i j i' j' : nat) (x : string) :
  cellAt (put b i j x) i' j'
  = if Nat.eqb i i' && Nat.eqb j j'
    then option_map (fun _ => x) (cellAt b i j)
    else cellAt b i' j'.
Proof.
  destruct (Nat.eqb i i' && Nat.eqb j j') eqn:E.
  - apply andb_true_iff in E. destruct E as [Ei Ej].
    apply Nat.eqb_eq in Ei, Ej. subst i' j'.
    destruct (cellAt b i j) as [p|] eqn:Ec.
    + simpl. eapply cellAt_put_eq; eassumption.
    + simpl. unfold cellAt, put in *.
      destruct (nth_error b i) as [row|] eqn:Er; [|rewrite Er; reflexivity].
      rewrite nth_error_update_eq by (apply nth_error_Some; congruence).
      apply nth_error_None in Ec. rewrite update_out by exact Ec.
      apply nth_error_None. exact Ec.
  - apply cellAt_put_neq. intros H. inversion H; subst.
    rewrite !Nat.eqb_refl in E. discriminate.
Qed.

(** ** Making a move and taking it back *)

(** The four board writes of [makeMove] followed by [undoMove]. *)
Lemma board_write_back (b : Board) (sr sc er ec : Z) (pm pc : string) :
  board_get b sr sc = Ok pm -> board_get b er ec = Ok pc ->
  exists b1 b2 b3,
    board_set b sr sc "--" = Ok b1
    /\ board_set b1 er ec pm = Ok b2
    /\ board_set b2 sr sc pm = Ok b3
    /\ board_set b3 er ec pc = Ok b.
Proof.
  intros Hs He.
  pose proof (board_set_put _ _ _ _ "--" Hs) as E1.
  set (i := rowOf b sr) in *. set (j := colOf b sr sc) in *.
  set (k := rowOf b er). set (l := colOf b er ec).
  set (b1 := put b i j "--") in *.
  assert (S1 : shape b1 = shape b) by apply shape_put.
  destruct (board_get_shape b b1 er ec pc (eq_sym S1) He) as (p1 & G1).
  pose proof (board_set_put _ _ _ _ pm G1) as E2.
  rewrite (rowOf_shape _ _ _ S1), (colOf_shape _ _ _ _ S1) in E2.
  fold k l in E2. set (b2 := put b1 k l pm) in *.
  assert (S2 : shape b2 = shape b)
    by (unfold b2; rewrite shape_put; exact S1).
  destruct (board_get_shape b b2 sr sc pm (eq_sym S2) Hs) as (p2 & G2).
  pose proof (board_set_put _ _ _ _ pm G2) as E3.
  rewrite (rowOf_shape _ _ _ S2), (colOf_shape _ _ _ _ S2) in E3.
  fold i j in E3. set (b3 := put b2 i j pm) in *.
  assert (S3 : shape b3 = shape b)
    by (unfold b3; rewrite shape_put; exact S2).
  destruct (board_get_shape b b3 er ec pc (eq_sym S3) He) as (p3 & G3).
  pose proof (board_set_put _ _ _ _ pc G3) as E4.
  rewrite (rowOf_shape _ _ _ S3), (colOf_shape _ _ _ _ S3) in E4.
  fold k l in E4.
  exists b1, b2, b3. repeat split; try assumption.
  rewrite E4. f_equal.
  apply board_get_cell in Hs, He.
  destruct Hs as [Cs _], He as [Ce _]. fold i j in Cs. fold k l in Ce.
  apply board_ext; [rewrite shape_put; exact S3|].
  intros i' j'. unfold b3, b2, b1. rewrite !cellAt_put.
  clear - Cs Ce. clearbody i j k l.
  destruct (Nat.eq_dec k i'), (Nat.eq_dec l j'), (Nat.eq_dec i i'),
    (Nat.eq_dec j j'), (Nat.eq_dec i k), (Nat.eq_dec j l);
    subst; try congruence;
    repeat match goal with
           | |- context [Nat.eqb ?a ?a] => rewrite (Nat.eqb_refl a)
           | |- context [Nat.eqb ?a ?b] =>
               rewrite (proj2 (Nat.eqb_neq a b)) by congruence
           end;
    cbn [andb]; rewrite ?Cs, ?Ce; cbn [option_map];
    try reflexivity; try congruence.
Qed.

Lemma pop_snoc {A : Type} (l : list A) (x : A) : pop (l ++ [x]) = Some (x, l).
Proof.
  unfold pop. rewrite rev_app_distr. simpl. rewrite rev_involutive.
  reflexivity.
Qed.

(** [makeMove] then [undoMove] give the state back when the move records
    what the board holds and a king that moves starts from its cached
    square. *)
Lemma makeMove_undoMove (s : GameState) (m : Move) :
  board_get (board s) (startRow m) (startCol m) = Ok (pieceMoved m) ->
  board_get (board s) (endRow m) (endCol m) = Ok (pieceCaptured m) ->
  (pieceMoved m = "wK" -> whiteKingLocation s = (startRow m, startCol m)) ->
  (pieceMoved m = "bK" -> blackKingLocation s = (startRow m, startCol m)) ->
  exists s2, makeMove s m = Ok s2 /\ undoMove s2 = Ok s.
Proof.
  intros Hs He Hw Hk.
  destruct (board_write_back _ _ _ _ _ _ _ Hs He)
    as (b1 & b2 & b3 & E1 & E2 & E3 & E4).
  unfold makeMove. rewrite E1. cbn [bind]. rewrite E2. cbn [bind].
  assert (Hundo : forall s2,
             moveLog s2 = moveLog s ++ [m] -> board s2 = b2 ->
             undoMove s2 =
             (let s1 := set_board (set_moveLog s2 (moveLog s)) (board s) in
              let s2' := set_whiteToMove s1 (negb (whiteToMove s1)) in
              if (pieceMoved m =? "wK")%string
              then Ok (set_whiteKingLocation s2' (startRow m, startCol m))
              else if (pieceMoved m =? "bK")%string
              then Ok (set_blackKingLocation s2' (startRow m, startCol m))
              else Ok s2')).
  { intros s2 Hlog Hb. unfold undoMove. rewrite Hlog.
    rewrite length_app. simpl length.
    replace (Nat.eqb (length (moveLog s) + 1) 0) with false
      by (symmetry; apply Nat.eqb_neq; lia).
    cbn [negb]. rewrite pop_snoc.
    cbn [board set_moveLog]. rewrite Hb, E3. cbn [bind]. rewrite E4.
    reflexivity. }
  destruct (pieceMoved m =? "wK")%string eqn:EW.
  - eexists. split; [reflexivity|].
    rewrite Hundo by reflexivity. cbv zeta. rewrite ?EW.
    apply String.eqb_eq in EW. specialize (Hw EW). clear - Hw.
    destruct s as [b w log wk bk ic cs ps]. cbn in *.
    rewrite Hw, negb_involutive. reflexivity.
  - destruct (pieceMoved m =? "bK")%string eqn:EB.
    + eexists. split; [reflexivity|].
      rewrite Hundo by reflexivity. cbv zeta. rewrite ?EW, ?EB.
      apply String.eqb_eq in EB. specialize (Hk EB). clear - Hk.
      destruct s as [b w log wk bk ic cs ps]. cbn in *.
      rewrite Hk, negb_involutive. reflexivity.
    + eexists. split; [reflexivity|].
      rewrite Hundo by reflexivity. cbv zeta. rewrite ?EW, ?EB.
      clear. destruct s as [b w log wk bk ic cs ps]. cbn.
      rewrite negb_involutive. reflexivity.
Qed.

Lemma getValidMoves_spec (s s1 : GameState) (moves : list Move) :
  kingsCached s = true ->
  getValidMoves s = Ok (s1, moves) ->
  board s1 = board s /\ whiteToMove s1 = whiteToMove s
  /\ moveLog s1 = moveLog s /\ sameKings s s1
  /\ Forall (genuine (board s)) moves.
Proof.
  intros HK Hv.
  destruct (checksForPinsAndChecks s) as [[[ic ps] cs]|e] eqn:Hd;
    [|unfold getValidMoves in Hv; rewrite Hd in Hv; discriminate].
  rewrite (getValidMoves_branches _ _ _ _ Hd) in Hv. cbv zeta in Hv.
  set (s0 := set_analysis s ic ps cs) in *.
  assert (HK0 : kingsCached s0 = true) by exact HK.
  assert (Hall : forall s' ms,
             getAllPossibleMoves s0 = Ok (s', ms) ->
             board s' = board s /\ whiteToMove s' = whiteToMove s
             /\ moveLog s' = moveLog s /\ sameKings s s'
             /\ Forall (genuine (board s)) ms).
  { intros s' ms H. apply getAllPossibleMoves_spec in H.
    destruct H as ((Hb & Hw & Hl & _) & Hg & _ & Hk).
    specialize (Hk HK0). repeat split; try assumption; apply Hk. }
  destruct ic; [|apply Hall; exact Hv].
  destruct (Nat.eqb (length cs) 1).
  - apply bind_Ok in Hv. destruct Hv as ([s1' moves0] & Ea & Hv).
    apply Hall in Ea. destruct Ea as (Hb & Hw & Hl & Hk & Hg).
    apply bind_Ok in Hv. destruct Hv as ([[[cr cc] d0] d1] & _ & Hv).
    apply bind_Ok in Hv. destruct Hv as (pc & _ & Hv).
    apply bind_Ok in Hv. destruct Hv as (kind & _ & Hv).
    apply bind_Ok in Hv. destruct Hv as (moves' & Ef & Hv).
    inversion Hv; subst s1' moves'. clear Hv.
    repeat split; try assumption; try apply Hk.
    rewrite Forall_forall in *. intros m Hin.
    apply Hg. eapply filterMoves_incl; eassumption.
  - destruct (kingLocation_nonneg _ HK) as [Hr Hc].
    pose proof Hv as Hhome.
    apply getKingMoves_home in Hhome;
      [|change (kingLocation s0) with (kingLocation s);
        destruct (kingLocation s); reflexivity].
    subst s1. apply getKingMoves_spec in Hv. destruct Hv as [_ Hg].
    apply (grows_extends _ _ _ _ _ Hr Hc) in Hg. apply extends_nil in Hg.
    repeat split; assumption.
Qed.

(** C5: on a state whose king caches agree with its board, for every move
    [m] that [getValidMoves] returns, [makeMove m] followed by [undoMove]
    succeeds and restores the board, the side to move, both king caches and
    the length of the move log to what they were just before [makeMove]. *)
Theorem makeMove_undoMove_roundtrip (s s1 : GameState) (moves : list Move)
    (m : Move) :
  kingsCached s = true ->
  getValidMoves s = Ok (s1, moves) ->
  In m moves ->
  exists s2 s3,
    makeMove s1 m = Ok s2 /\ undoMove s2 = Ok s3
    /\ board s3 = board s1
    /\ whiteToMove s3 = whiteToMove s1
    /\ whiteKingLocation s3 = whiteKingLocation s1
    /\ blackKingLocation s3 = blackKingLocation s1
    /\ length (moveLog s3) = length (moveLog s1).
Proof.
  intros HK Hv Hin.
  destruct (getValidMoves_spec _ _ _ HK Hv) as (Hb & Hw & Hl & Hk & Hg).
  rewrite Forall_forall in Hg. specialize (Hg _ Hin).
  destruct Hg as (r & c & Hr & Hc & Hm).
  apply madeAt_fields in Hm. destruct Hm as (Er & Ec & Hpm & Hpc).
  subst r c. rewrite <- Hb in Hpm, Hpc.
  assert (HK1 : kingsCached s1 = true).
  { destruct Hk as [Hk1 Hk2]. unfold kingsCached.
    rewrite Hb, Hk1, Hk2. exact HK. }
  apply kingsCached_parts in HK1. destruct HK1 as (Kw & Kb & _).
  destruct (makeMove_undoMove s1 m Hpm Hpc) as (s2 & E1 & E2).
  - intros HwK. apply (boardKingsAt_get _ _ _ _ _ _ Kw Hr Hc Hpm).
    rewrite HwK. reflexivity.
  - intros HbK. apply (boardKingsAt_get _ _ _ _ _ _ Kb Hr Hc Hpm).
    rewrite HbK. reflexivity.
  - exists s2, s1. repeat split; assumption.
Qed.

Lemma makeMove_undoMove_roundtrip_witness :
  exists s1 moves s2 s3,
    kingsCached newGame = true
    /\ getValidMoves newGame = Ok (s1, moves)
    /\ In kingPawnTwo moves
    /\ makeMove s1 kingPawnTwo = Ok s2 /\ undoMove s2 = Ok s3
    /\ board s3 = board s1.
Proof.
  destruct (getValidMoves newGame) as [[s1 moves]|e] eqn:Ev;
    [|vm_compute in Ev; discriminate].
  assert (HK : kingsCached newGame = true) by reflexivity.
  assert (Hin : In kingPawnTwo moves).
  { vm_compute in Ev. inversion Ev; subst. simpl. tauto. }
  destruct (makeMove_undoMove_roundtrip newGame s1 moves kingPawnTwo HK Ev Hin)
    as (s2 & s3 & E1 & E2 & Hb & _).
  exists s1, moves, s2, s3. repeat split; assumption.
Defined.

(** ** Lookups that cannot fail *)

Lemma index_total {A : Type} (l : list A) (i : Z) :
  - Z.of_nat (length l) <= i < Z.of_nat (length l) ->
  exists x, Py.index l i = Ok x /\ In x l.
Proof.
  intros Hi. unfold Py.index, Py.norm.
  set (n := Z.of_nat (length l)) in *.
  assert (Hj : 0 <= (if i <? 0 then i + n else i) < n).
  { destruct (i <? 0) eqn:E; [apply Z.ltb_lt in E | apply Z.ltb_ge in E]; lia. }
  destruct ((if i <? 0 then i + n else i) <? 0) eqn:E;
    [apply Z.ltb_lt in E; lia|].
  destruct (nth_error l (Z.to_nat (if i <? 0 then i + n else i))) as [x|] eqn:En.
  - exists x. split; [reflexivity | eapply nth_error_In; exact En].
  - apply nth_error_None in En. unfold n in *. lia.
Qed.

Lemma wellFormedBoard_parts (b : Board) :
  wellFormedBoard b = true ->
  length b = 8%nat
  /\ forall row, In row b ->
       length row = 8%nat
       /\ forall p, In p row -> String.length p = 2%nat.
Proof.
  unfold wellFormedBoard. rewrite andb_true_iff, Nat.eqb_eq, forallb_forall.
  intros [Hlen Hrows]. split; [exact Hlen|].
  intros row Hin. specialize (Hrows _ Hin).
  rewrite andb_true_iff, Nat.eqb_eq, forallb_forall in Hrows.
  destruct Hrows as [Hl Hp]. split; [exact Hl|].
  intros p Hp'. apply Nat.eqb_eq. apply Hp. exact Hp'.
Qed.

Lemma board_get_total (b : Board) (r c : Z) :
  wellFormedBoard b = true -> -8 <= r < 8 -> -8 <= c < 8 ->
  exists p, board_get b r c = Ok p /\ String.length p = 2%nat.
Proof.
  intros Hwf Hr Hc. apply wellFormedBoard_parts in Hwf.
  destruct Hwf as [Hlen Hrows].
  destruct (index_total b r) as (row & Er & Hin); [rewrite Hlen; lia|].
  destruct (Hrows _ Hin) as [Hl Hp].
  destruct (index_total row c) as (p & Ec & Hin'); [rewrite Hl; lia|].
  exists p. split; [|apply Hp; exact Hin'].
  unfold board_get. rewrite Er. exact Ec.
Qed.

Lemma char_total (p : string) (n : nat) :
  (n < String.length p)%nat -> exists a, Py.char p n = Ok a.
Proof.
  revert n. induction p as [|a p IH]; intros n H; simpl in H; [lia|].
  destruct n as [|n].
  - exists a. reflexivity.
  - destruct (IH n) as (a' & Ha); [lia|].
    exists a'. unfold Py.char in *. simpl. exact Ha.
Qed.

Lemma append_move_total (b : Board) (r c r' c' : Z) (moves : list Move) :
  wellFormedBoard b = true ->
  -8 <= r < 8 -> -8 <= c < 8 -> -8 <= r' < 8 -> -8 <= c' < 8 ->
  exists m, append_move b r c r' c' moves = Ok (moves ++ [m])
            /\ startRow m = r /\ startCol m = c
            /\ endRow m = r' /\ endCol m = c'.
Proof.
  intros Hwf Hr Hc Hr' Hc'.
  destruct (board_get_total b r c Hwf Hr Hc) as (pm & Epm & _).
  destruct (board_get_total b r' c' Hwf Hr' Hc') as (pc & Epc & _).
  unfold append_move, Move_init. simpl. rewrite Epm, Epc. simpl.
  eexists. split; [reflexivity|]. simpl. auto.
Qed.

Lemma quad_eqb_refl (q : Quad) : quad_eqb q q = true.
Proof.
  destruct q as [[[a b] c] d]. simpl. rewrite !Z.eqb_refl. reflexivity.
Qed.

Lemma remove_total {A : Type} (eqb : A -> A -> bool) (x : A) (l : list A) :
  (forall y, eqb y y = true) -> In x l -> exists l', Py.remove eqb x l = Ok l'.
Proof.
  intros Hrefl. induction l as [|h t IH]; intros Hin; [contradiction|].
  simpl. destruct (eqb h x) eqn:E; [eauto|].
  destruct Hin as [->|Hin]; [rewrite Hrefl in E; discriminate|].
  destruct (IH Hin) as (t' & Et). rewrite Et. simpl. eauto.
Qed.

Lemma findPin_total (pins : list Quad) (r c : Z) (idxs : list nat) :
  (forall i, In i idxs -> (i < length pins)%nat) ->
  exists res, findPin pins r c idxs = Ok res
              /\ forall p, res = Some p -> In p pins.
Proof.
  induction idxs as [|i rest IH]; intros Hidx; simpl.
  - exists None. split; [reflexivity | discriminate].
  - destruct (index_total pins (Z.of_nat i)) as (p & Ep & Hin).
    { specialize (Hidx i (or_introl eq_refl)). lia. }
    rewrite Ep. simpl. destruct p as [[[pr pc] dr] dc].
    destruct ((pr =? r) && (pc =? c)).
    + eexists. split; [reflexivity|]. intros p Hp. inversion Hp; subst.
      exact Hin.
    + apply IH. intros j Hj. apply Hidx. right. exact Hj.
Qed.

Lemma down_lt (n i : nat) : In i (Py.down n) -> (i < n)%nat.
Proof.
  unfold Py.down. rewrite <- in_rev, in_seq. lia.
Qed.

Lemma takePin_total (s : GameState) (r c : Z) :
  exists pp pd s1, takePin s r c = Ok (pp, pd, s1) /\ onlyPins s s1.
Proof.
  unfold takePin.
  destruct (findPin_total (pins s) r c (Py.down (length (pins s)))
              (down_lt _)) as (res & Er & Hres).
  rewrite Er. simpl. destruct res as [p|].
  - destruct (remove_total quad_eqb p (pins s) quad_eqb_refl (Hres _ eq_refl))
      as (l' & El).
    rewrite El. simpl. do 3 eexists. split; [reflexivity | apply onlyPins_set].
  - do 3 eexists. split; [reflexivity | apply onlyPins_refl].
Qed.

Lemma pawnAdvance_total b r c dr home pp pd moves :
  wellFormedBoard b = true ->
  -8 <= r < 8 -> -8 <= c < 8 -> -8 <= r + dr < 8 ->
  (r = home -> -8 <= r + 2 * dr < 8) ->
  exists moves', pawnAdvance b r c dr home pp pd moves = Ok moves'.
Proof.
  intros Hwf Hr Hc Hr1 Hr2. unfold pawnAdvance.
  destruct (board_get_total b (r + dr) c Hwf Hr1 Hc) as (p & Ep & _).
  rewrite Ep. cbn [bind].
  destruct (p =? "--")%string; [|eauto].
  destruct (negb pp || axis_is pd (dr, 0)); [|eauto].
  destruct (append_move_total b r c (r + dr) c moves Hwf Hr Hc Hr1 Hc)
    as (m & Em & _).
  rewrite Em. cbn [bind].
  destruct (r =? home) eqn:Eh; [|eauto].
  apply Z.eqb_eq in Eh. specialize (Hr2 Eh).
  destruct (board_get_total b (r + 2 * dr) c Hwf Hr2 Hc) as (p2 & Ep2 & _).
  rewrite Ep2. cbn [bind].
  destruct (p2 =? "--")%string; [|eauto].
  destruct (append_move_total b r c (r + 2 * dr) c (moves ++ [m])
              Hwf Hr Hc Hr2 Hc) as (m2 & Em2 & _).
  rewrite Em2. eauto.
Qed.

Lemma pawnCapture_total b r c dr dc g e pp pd moves :
  wellFormedBoard b = true ->
  -8 <= r < 8 -> -8 <= c < 8 -> -8 <= r + dr < 8 ->
  (g = true -> -8 <= c + dc < 8) ->
  exists moves', pawnCapture b r c dr dc g e pp pd moves = Ok moves'.
Proof.
  intros Hwf Hr Hc Hr1 Hg. unfold pawnCapture.
  destruct g; [|eauto]. specialize (Hg eq_refl).
  destruct (board_get_total b (r + dr) (c + dc) Hwf Hr1 Hg) as (p & Ep & Hl).
  rewrite Ep. cbn [bind].
  destruct (char_total p 0) as (a & Ea); [lia|].
  rewrite Ea. cbn [bind].
  destruct (a =? e)%char; [|eauto].
  destruct (negb pp || axis_is pd (dr, dc)); [|eauto].
  destruct (append_move_total b r c (r + dr) (c + dc) moves
              Hwf Hr Hc Hr1 Hg) as (m & Em & _).
  rewrite Em. eauto.
Qed.

(** On eight rows, index [-1] is row 7. *)
Lemma last_row_wraps (b : Board) (c : Z) :
  length b = 8%nat -> board_get b (-1) c = board_get b 7 c.
Proof.
  intros Hlen. unfold board_get, Py.index. rewrite Hlen. reflexivity.
Qed.

Lemma grows_In (b : Board) (r c : Z) (moves moves' : list Move) (m : Move) :
  grows b r c moves moves' -> In m moves -> In m moves'.
Proof.
  intros (extra & -> & _) Hin. apply in_or_app. left. exact Hin.
Qed.

(** C10: with white to move on a well-formed board, [getPawnMoves(0, c,
    moves)] raises nothing for any column [c] of the board: the look-up of
    the square ahead, at row index [0 - 1], reads row 7; when that square
    is empty (and no pin is recorded) the advance to row [-1] is
    appended. *)
Theorem white_pawn_on_row_0_wraps (s : GameState) (c : Z) (moves : list Move) :
  wellFormedBoard (board s) = true ->
  whiteToMove s = true ->
  0 <= c <= 7 ->
  (exists s' moves', getPawnMoves s 0 c moves = Ok (s', moves'))
  /\ board_get (board s) (0 - 1) c = board_get (board s) 7 c
  /\ (pins s = [] -> board_get (board s) 7 c = Ok "--" ->
      exists s' moves' m,
        getPawnMoves s 0 c moves = Ok (s', moves')
        /\ In m moves'
        /\ startRow m = 0 /\ startCol m = c
        /\ endRow m = -1 /\ endCol m = c).
Proof.
  intros Hwf Hw Hc.
  pose proof (proj1 (wellFormedBoard_parts _ Hwf)) as Hlen.
  assert (Hwrap : board_get (board s) (0 - 1) c = board_get (board s) 7 c)
    by (apply last_row_wraps; exact Hlen).
  assert (Hrun : forall pp pd s1,
             onlyPins s s1 ->
             exists m1 m2 m3,
               pawnAdvance (board s1) 0 c (-1) 6 pp pd moves = Ok m1
               /\ pawnCapture (board s1) 0 c (-1) (-1) (c - 1 >=? 0) "b"
                              pp pd m1 = Ok m2
               /\ pawnCapture (board s1) 0 c (-1) 1 (c + 1 <=? 7) "b"
                              pp pd m2 = Ok m3).
  { intros pp pd s1 Hp. rewrite (onlyPins_board _ _ Hp).
    assert (G1 : (c - 1 >=? 0) = true -> -8 <= c + -1 < 8)
      by (intros Hg; apply Z.geb_le in Hg; lia).
    assert (G2 : (c + 1 <=? 7) = true -> -8 <= c + 1 < 8)
      by (intros Hg; apply Z.leb_le in Hg; lia).
    destruct (pawnAdvance_total (board s) 0 c (-1) 6 pp pd moves Hwf
                ltac:(lia) ltac:(lia) ltac:(lia) ltac:(lia)) as (m1 & E1).
    destruct (pawnCapture_total (board s) 0 c (-1) (-1) (c - 1 >=? 0) "b"
                pp pd m1 Hwf ltac:(lia) ltac:(lia) ltac:(lia) G1)
      as (m2 & E2).
    destruct (pawnCapture_total (board s) 0 c (-1) 1 (c + 1 <=? 7) "b"
                pp pd m2 Hwf ltac:(lia) ltac:(lia) ltac:(lia) G2)
      as (m3 & E3).
    eauto 6. }
  assert (Hwhite : forall s1, onlyPins s s1 -> whiteToMove s1 = true).
  { intros s1 Hp. apply onlyPins_frame in Hp.
    destruct Hp as [(_ & Hw1 & _) _]. congruence. }
  split; [|split; [exact Hwrap|]].
  - destruct (takePin_total s 0 c) as (pp & pd & s1 & Et & Hp).
    destruct (Hrun pp pd s1 Hp) as (m1 & m2 & m3 & E1 & E2 & E3).
    unfold getPawnMoves. rewrite Et. cbn [bind].
    rewrite (Hwhite _ Hp), E1. cbn [bind]. rewrite E2. cbn [bind].
    rewrite E3. cbn [bind]. eauto.
  - intros Hnil Hempty.
    destruct (takePin_total s 0 c) as (pp & pd & s1 & Et & Hp).
    destruct (takePin_no_pins _ _ _ _ _ _ Hnil Et) as [-> ->].
    destruct (Hrun false pd s Hp) as (m1 & m2 & m3 & E1 & E2 & E3).
    assert (Hm : exists m, In m m1 /\ startRow m = 0 /\ startCol m = c
                           /\ endRow m = -1 /\ endCol m = c).
    { unfold pawnAdvance in E1.
      change (0 + -1) with (0 - 1) in E1.
      rewrite Hwrap, Hempty in E1. cbn [bind] in E1.
      change ("--" =? "--")%string with true in E1.
      cbn [negb orb] in E1.
      destruct (append_move_total (board s) 0 c (0 - 1) c moves Hwf
                  ltac:(lia) ltac:(lia) ltac:(lia) ltac:(lia))
        as (m & Em & Hf).
      rewrite Em in E1. cbn [bind] in E1.
      change (0 =? 6) with false in E1. cbv iota in E1.
      inversion E1; subst m1.
      exists m. split; [apply in_or_app; right; left; reflexivity | exact Hf]. }
    destruct Hm as (m & Hin & Hf).
    exists s, m3, m. split.
    + unfold getPawnMoves. rewrite Et. cbn [bind].
      rewrite Hw, E1. cbn [bind]. rewrite E2. cbn [bind].
      rewrite E3. reflexivity.
    + split; [|exact Hf].
      apply pawnCapture_grows in E2, E3.
      eapply grows_In; [exact E3|]. eapply grows_In; [exact E2 | exact Hin].
Qed.

Lemma white_pawn_on_row_0_wraps_witness :
  wellFormedBoard (board pawnOnLastRow) = true
  /\ whiteToMove pawnOnLastRow = true
  /\ board_get (board pawnOnLastRow) (0 - 1) 0
     = board_get (board pawnOnLastRow) 7 0.
Proof.
  split; [reflexivity|]. split; [reflexivity|].
  apply (white_pawn_on_row_0_wraps pawnOnLastRow 0 []);
    [reflexivity | reflexivity | lia].
Defined.

(** The generator run on that position: the pawn on [(0, 0)] is given the
    move to row [-1], whose captured piece was read from [(7, 0)]. *)
Example white_pawn_on_row_0_move :
  exists s' m,
    getPawnMoves pawnOnLastRow 0 0 [] = Ok (s', [m])
    /\ (startRow m, startCol m, endRow m, endCol m) = (0, 0, -1, 0)
    /\ pieceMoved m = "wp" /\ pieceCaptured m = "--".
Proof.
  do 2 eexists. split; [vm_compute; reflexivity|]. repeat split.
Qed.

(** ** Where generated moves land *)

Section Landing.

(** Any property [Q] that holds of the moves landing on the board. *)
Variable Q : Move -> Prop.
Hypothesis Q_lands : forall m, landsOnBoard m -> Q m.

Lemma append_move_lands (b : Board) (r c r' c' : Z) (moves moves' : list Move) :
  onBoard r' c' = true ->
  append_move b r c r' c' moves = Ok moves' ->
  Forall Q moves -> Forall Q moves'.
Proof.
  unfold append_move, Move_init. intros Hon H Hall. run.
  apply Forall_app. split; [exact Hall|].
  constructor; [apply Q_lands; exact Hon | constructor].
Qed.

Ltac lands IH :=
  solve
    [ assumption
    | eapply append_move_lands; eassumption
    | eapply IH; eassumption
    | eapply IH; [eassumption | eapply append_move_lands; eassumption] ].

Lemma slideRay_lands b e r c pp pd d steps :
  forall moves moves',
    slideRay b e r c pp pd d steps moves = Ok moves' ->
    Forall Q moves -> Forall Q moves'.
Proof.
  induction steps as [|i rest IH]; intros moves moves' H Hall;
    cbn [slideRay] in H.
  - run. exact Hall.
  - cbv zeta in H. run; lands IH.
Qed.

Lemma slideRays_lands b e r c pp pd ds :
  forall moves moves',
    slideRays b e r c pp pd ds moves = Ok moves' ->
    Forall Q moves -> Forall Q moves'.
Proof.
  induction ds as [|d rest IH]; intros moves moves' H Hall;
    cbn [slideRays] in H.
  - run. exact Hall.
  - apply bind_Ok in H. destruct H as (m1 & E1 & H).
    eapply IH; [exact H|]. eapply slideRay_lands; eassumption.
Qed.

Lemma knightLoop_lands b a r c pp ms :
  forall moves moves',
    knightLoop b a r c pp ms moves = Ok moves' ->
    Forall Q moves -> Forall Q moves'.
Proof.
  induction ms as [|m rest IH]; intros moves moves' H Hall;
    cbn [knightLoop] in H.
  - run. exact Hall.
  - cbv zeta in H. run; lands IH.
Qed.

Lemma kingLoop_lands a r c ks :
  forall s moves s' moves',
    kingLoop s a r c ks moves = Ok (s', moves') ->
    Forall Q moves -> Forall Q moves'.
Proof.
  induction ks as [|k rest IH]; intros s moves s' moves' H Hall;
    cbn [kingLoop] in H.
  - run. exact Hall.
  - cbv zeta in H. run; lands IH.
Qed.

(** Every generator but the pawn's lands its moves on the board. *)
Lemma moveFunction_lands (piece : ascii) (gen : Generator) :
  moveFunction piece = Ok gen ->
  piece <> "p"%char ->
  forall s r c moves s' moves',
    gen s r c moves = Ok (s', moves') ->
    Forall Q moves -> Forall Q moves'.
Proof.
  assert (HR : forall s r c moves s' moves',
             getRookMoves s r c moves = Ok (s', moves') ->
             Forall Q moves -> Forall Q moves').
  { intros s r c moves s' moves' H Hall. unfold getRookMoves in H.
    run. eapply slideRays_lands; eassumption. }
  assert (HB : forall s r c moves s' moves',
             getBishopMoves s r c moves = Ok (s', moves') ->
             Forall Q moves -> Forall Q moves').
  { intros s r c moves s' moves' H Hall. unfold getBishopMoves in H.
    run. eapply slideRays_lands; eassumption. }
  unfold moveFunction. cbn [Py.lookup]. intros H Hp.
  destruct (Ascii.eqb "p" piece) eqn:Ep.
  { apply Ascii.eqb_eq in Ep. congruence. }
  destruct (Ascii.eqb "R" piece); [inversion H; subst; exact HR|].
  destruct (Ascii.eqb "N" piece).
  { inversion H; subst. intros s r c moves s' moves' Hg Hall.
    unfold getKnightMoves in Hg. run. eapply knightLoop_lands; eassumption. }
  destruct (Ascii.eqb "B" piece); [inversion H; subst; exact HB|].
  destruct (Ascii.eqb "Q" piece).
  { inversion H; subst. intros s r c moves s' moves' Hg Hall.
    unfold getQueenMoves in Hg. run. eauto. }
  destruct (Ascii.eqb "K" piece); [|discriminate H].
  inversion H; subst. intros s r c moves s' moves' Hg Hall.
  unfold getKingMoves in Hg. eapply kingLoop_lands; eassumption.
Qed.

End Landing.

Lemma scanCols_lands (r : Z) (cs : list Z) :
  forall s moves s' moves',
    scanCols s r cs moves = Ok (s', moves') ->
    Forall landsOrPawn moves -> Forall landsOrPawn moves'.
Proof.
  induction cs as [|c rest IH]; intros s moves s' moves' H Hall;
    cbn [scanCols] in H.
  - run. exact Hall.
  - apply bind_Ok in H. destruct H as (sq & Esq & H).
    apply bind_Ok in H. destruct H as (turn & Eturn & H).
    destruct (((turn =? "w")%char && whiteToMove s)
              || ((turn =? "b")%char && negb (whiteToMove s)));
      [|eapply IH; eassumption].
    apply bind_Ok in H. destruct H as (piece & Epiece & H).
    apply bind_Ok in H. destruct H as (gen & Egen & H).
    apply bind_Ok in H. destruct H as ([s1 moves1] & E1 & H).
    eapply IH; [exact H|].
    destruct (Ascii.eqb piece "p") eqn:Ep.
    + apply Ascii.eqb_eq in Ep. subst piece.
      pose proof (moveFunction_spec _ _ Egen _ _ _ _ _ _ E1)
        as (_ & (extra & -> & Hextra) & _).
      apply Forall_app. split; [exact Hall|].
      eapply Forall_impl; [|exact Hextra].
      intros m Hm. right. apply madeAt_fields in Hm.
      destruct Hm as (_ & _ & Hpm & _). rewrite Esq in Hpm.
      inversion Hpm; subst. exact Epiece.
    + apply Ascii.eqb_neq in Ep.
      eapply (moveFunction_lands landsOrPawn); try eassumption.
      intros m Hm. left. exact Hm.
Qed.

Lemma scanRows_lands (rs : list Z) :
  forall s moves s' moves',
    scanRows s rs moves = Ok (s', moves') ->
    Forall landsOrPawn moves -> Forall landsOrPawn moves'.
Proof.
  induction rs as [|r rest IH]; intros s moves s' moves' H Hall;
    cbn [scanRows] in H.
  - run. exact Hall.
  - apply bind_Ok in H. destruct H as (row & Erow & H).
    apply bind_Ok in H. destruct H as ([s1 moves1] & E1 & H).
    eapply IH; [exact H|]. eapply scanCols_lands; eassumption.
Qed.

Lemma getValidMoves_lands (s s1 : GameState) (moves : list Move) :
  getValidMoves s = Ok (s1, moves) -> Forall landsOrPawn moves.
Proof.
  intros Hv.
  destruct (checksForPinsAndChecks s) as [[[ic ps] cs]|e] eqn:Hd;
    [|unfold getValidMoves in Hv; rewrite Hd in Hv; discriminate].
  rewrite (getValidMoves_branches _ _ _ _ Hd) in Hv. cbv zeta in Hv.
  assert (Hall : forall s0 s' ms,
             getAllPossibleMoves s0 = Ok (s', ms) -> Forall landsOrPawn ms).
  { intros s0 s' ms H. unfold getAllPossibleMoves in H.
    eapply scanRows_lands; [exact H | constructor]. }
  destruct ic; [|eapply Hall; exact Hv].
  destruct (Nat.eqb (length cs) 1).
  - apply bind_Ok in Hv. destruct Hv as ([s1' moves0] & Ea & Hv).
    apply Hall in Ea.
    apply bind_Ok in Hv. destruct Hv as ([[[cr cc] d0] d1] & _ & Hv).
    apply bind_Ok in Hv. destruct Hv as (pc & _ & Hv).
    apply bind_Ok in Hv. destruct Hv as (kind & _ & Hv).
    apply bind_Ok in Hv. destruct Hv as (moves' & Ef & Hv).
    inversion Hv; subst s1' moves'. clear Hv.
    rewrite Forall_forall in *. intros m Hin.
    apply Ea. eapply filterMoves_incl; eassumption.
  - unfold getKingMoves in Hv.
    eapply (kingLoop_lands landsOrPawn); [|exact Hv | constructor].
    intros m Hm. left. exact Hm.
Qed.

(** ** Play keeps the king caches in step with the board *)

Lemma rowKingsAt_cells (col : ascii) (r : Z) (loc : Square) (row : list string) :
  forall c0,
    (forall n p, nth_error row n = Some p -> isKingOf col p = true ->
                 loc = (r, c0 + Z.of_nat n)) ->
    rowKingsAt row col r c0 loc = true.
Proof.
  induction row as [|q t IH]; intros c0 H; simpl; [reflexivity|].
  apply andb_true_iff. split.
  - destruct (isKingOf col q) eqn:E; [|reflexivity].
    apply sq_eqb_eq. rewrite (H 0%nat q eq_refl E). f_equal. lia.
  - apply IH. intros n p Hn Hk. rewrite (H (S n) p Hn Hk). f_equal. lia.
Qed.

Lemma boardKingsAt_cells (col : ascii) (loc : Square) (b : Board) :
  forall r0,
    (forall n m p, cellAt b n m = Some p -> isKingOf col p = true ->
                   loc = (r0 + Z.of_nat n, Z.of_nat m)) ->
    boardKingsAt b col r0 loc = true.
Proof.
  induction b as [|row t IH]; intros r0 H; simpl; [reflexivity|].
  apply andb_true_iff. split.
  - apply rowKingsAt_cells. intros n p Hn Hk.
    rewrite (H 0%nat n p Hn Hk). f_equal. lia.
  - apply IH. intros n m p Hc Hk.
    rewrite (H (S n) m p Hc Hk). f_equal. lia.
Qed.

Lemma boardKingsAt_iff (col : ascii) (loc : Square) (b : Board) :
  boardKingsAt b col 0 loc = true <->
  forall n m p, cellAt b n m = Some p -> isKingOf col p = true ->
                loc = (Z.of_nat n, Z.of_nat m).
Proof.
  split.
  - intros H n m p Hc Hk. unfold cellAt in Hc.
    destruct (nth_error b n) as [row|] eqn:En; [|discriminate].
    apply (boardKingsAt_spec _ _ _ _ _ _ _ _ H En Hc Hk).
  - intros H. apply boardKingsAt_cells. exact H.
Qed.

Lemma wellFormedBoard_iff (b : Board) :
  wellFormedBoard b = true <->
  shape b = repeat 8%nat 8
  /\ forall n m p, cellAt b n m = Some p -> String.length p = 2%nat.
Proof.
  split.
  - intros H. apply wellFormedBoard_parts in H. destruct H as [Hlen Hrows].
    split.
    + apply list_ext. intros n. unfold shape. rewrite nth_error_map.
      destruct (nth_error b n) as [row|] eqn:En.
      * cbn [option_map]. rewrite (proj1 (Hrows row (nth_error_In _ _ En))).
        assert (Hn : (n < 8)%nat)
          by (rewrite <- Hlen; apply nth_error_Some; congruence).
        symmetry. apply nth_error_repeat. exact Hn.
      * cbn [option_map]. symmetry. apply nth_error_None.
        rewrite repeat_length. apply nth_error_None in En. lia.
    + intros n m p Hc. unfold cellAt in Hc.
      destruct (nth_error b n) as [row|] eqn:En; [|discriminate].
      apply (proj2 (Hrows row (nth_error_In _ _ En))).
      eapply nth_error_In. exact Hc.
  - intros [Hsh Hcells]. unfold wellFormedBoard.
    apply andb_true_iff. split.
    + apply Nat.eqb_eq. rewrite <- length_shape, Hsh. reflexivity.
    + apply forallb_forall. intros row Hin.
      apply In_nth_error in Hin. destruct Hin as (n & En).
      apply andb_true_iff. split.
      * apply Nat.eqb_eq.
        rewrite <- (nth_shape _ _ _ En), Hsh.
        assert (Hn : (n < 8)%nat).
        { rewrite <- (repeat_length 8%nat 8), <- Hsh, length_shape.
          apply nth_error_Some. congruence. }
        apply nth_error_nth. apply nth_error_repeat. exact Hn.
      * apply forallb_forall. intros p Hp.
        apply In_nth_error in Hp. destruct Hp as (m & Em).
        apply Nat.eqb_eq. apply (Hcells n m p).
        unfold cellAt. rewrite En. exact Em.
Qed.

Lemma isKingOf_spells (col : ascii) (p : string) :
  String.length p = 2%nat -> isKingOf col p = true ->
  p = String col (String "K" EmptyString).
Proof.
  destruct p as [|a [|k [|x t]]]; simpl; try discriminate.
  intros _ H. unfold isKingOf in H. simpl in H.
  apply andb_true_iff in H. destruct H as [Ha Hk].
  apply Ascii.eqb_eq in Ha, Hk. subst. reflexivity.
Qed.

(** The cells of a board after the two writes of [makeMove]. *)
Lemma cells_after_move (b : Board) (i j k l : nat) (pm p' : string)
    (i' j' : nat) :
  cellAt (put (put b i j "--") k l pm) i' j' = Some p' ->
  ((i', j') = (k, l) /\ p' = pm)
  \/ ((i', j') = (i, j) /\ p' = "--")
  \/ ((i', j') <> (i, j) /\ (i', j') <> (k, l) /\ cellAt b i' j' = Some p').
Proof.
  rewrite !cellAt_put. intros H.
  destruct (Nat.eqb k i' && Nat.eqb l j') eqn:Ek.
  - apply andb_true_iff in Ek. destruct Ek as [E1 E2].
    apply Nat.eqb_eq in E1, E2. subst i' j'. left. split; [reflexivity|].
    destruct (Nat.eqb i k && Nat.eqb j l);
      [destruct (cellAt b i j) | destruct (cellAt b k l)];
      simpl in H; congruence.
  - right.
    assert (Hkl : (i', j') <> (k, l)).
    { intros E. inversion E; subst. rewrite !Nat.eqb_refl in Ek. discriminate. }
    destruct (Nat.eqb i i' && Nat.eqb j j') eqn:Ei.
    + apply andb_true_iff in Ei. destruct Ei as [E1 E2].
      apply Nat.eqb_eq in E1, E2. subst i' j'. left. split; [reflexivity|].
      destruct (cellAt b i j); simpl in H; congruence.
    + right. split; [|split; [exact Hkl | exact H]].
      intros E. inversion E; subst. rewrite !Nat.eqb_refl in Ei. discriminate.
Qed.

Lemma isKingOf_empty (col : ascii) : isKingOf col "--" = false.
Proof. unfold isKingOf. simpl. apply andb_false_r. Qed.

Lemma kings_after_move (col : ascii) (b : Board) (i j k l : nat) (pm : string)
    (loc loc' : Square) :
  (forall n m p, cellAt b n m = Some p -> isKingOf col p = true ->
                 loc = (Z.of_nat n, Z.of_nat m)) ->
  cellAt b i j = Some pm ->
  (isKingOf col pm = true -> loc' = (Z.of_nat k, Z.of_nat l)) ->
  (isKingOf col pm = false -> loc' = loc) ->
  forall n m p,
    cellAt (put (put b i j "--") k l pm) n m = Some p ->
    isKingOf col p = true -> loc' = (Z.of_nat n, Z.of_nat m).
Proof.
  intros Hold Hpm Hking Hother n m p Hc Hk.
  apply cells_after_move in Hc.
  destruct Hc as [[E ->]|[[E ->]|(Hij & Hkl & Hc)]].
  - inversion E; subst. apply Hking. exact Hk.
  - rewrite isKingOf_empty in Hk. discriminate.
  - pose proof (Hold _ _ _ Hc Hk) as Hloc.
    destruct (isKingOf col pm) eqn:Epm.
    + pose proof (Hold _ _ _ Hpm Epm) as Hloc'.
      rewrite Hloc in Hloc'. inversion Hloc'.
      apply Nat2Z.inj in H0, H1. subst. contradiction Hij. reflexivity.
    + rewrite (Hother eq_refl). exact Hloc.
Qed.

Lemma pos_nonneg (n : nat) (i : Z) : 0 <= i -> Z.of_nat (pos n i) = i.
Proof.
  intros H. unfold pos, Py.norm.
  destruct (i <? 0) eqn:E; [apply Z.ltb_lt in E; lia|]. lia.
Qed.

(** The two board writes of [makeMove]. *)
Lemma board_two_writes (b : Board) (sr sc er ec : Z) (pm pc : string) :
  board_get b sr sc = Ok pm -> board_get b er ec = Ok pc ->
  exists b1,
    board_set b sr sc "--" = Ok b1
    /\ board_set b1 er ec pm
       = Ok (put (put b (rowOf b sr) (colOf b sr sc) "--")
                 (rowOf b er) (colOf b er ec) pm).
Proof.
  intros Hs He.
  pose proof (board_set_put _ _ _ _ "--" Hs) as E1.
  eexists. split; [exact E1|].
  assert (S1 : shape (put b (rowOf b sr) (colOf b sr sc) "--") = shape b)
    by apply shape_put.
  destruct (board_get_shape b _ er ec pc (eq_sym S1) He) as (p1 & G1).
  rewrite (board_set_put _ _ _ _ pm G1).
  rewrite (rowOf_shape _ _ _ S1), (colOf_shape _ _ _ _ S1). reflexivity.
Qed.

Lemma makeMove_consistent (s s2 : GameState) (m : Move) :
  consistent s -> genuine (board s) m -> landsOrPawn m ->
  makeMove s m = Ok s2 -> consistent s2.
Proof.
  intros [HK Hwf] (r & c & Hr & Hc & Hm) Hland Hmk.
  apply madeAt_fields in Hm. destruct Hm as (<- & <- & Hpm & Hpc).
  destruct (board_two_writes _ _ _ _ _ _ _ Hpm Hpc) as (b1 & E1 & E2).
  set (i := rowOf (board s) (startRow m)) in *.
  set (j := colOf (board s) (startRow m) (startCol m)) in *.
  set (k := rowOf (board s) (endRow m)) in *.
  set (l := colOf (board s) (endRow m) (endCol m)) in *.
  set (b2 := put (put (board s) i j "--") k l (pieceMoved m)) in *.
  pose proof (proj1 (board_get_cell _ _ _ _) Hpm) as [Cpm _].
  fold i j in Cpm.
  apply kingsCached_parts in HK.
  destruct HK as (Kw & Kb & Nw1 & Nw2 & Nb1 & Nb2).
  rewrite boardKingsAt_iff in Kw, Kb.
  apply wellFormedBoard_iff in Hwf. destruct Hwf as [Hsh Hlen].
  assert (Hpm2 : String.length (pieceMoved m) = 2%nat) by (eapply Hlen; exact Cpm).
  assert (Hwf2 : wellFormedBoard b2 = true).
  { apply wellFormedBoard_iff. split.
    - unfold b2. rewrite !shape_put. exact Hsh.
    - intros n q p Hc'. apply cells_after_move in Hc'.
      destruct Hc' as [[_ ->]|[[_ ->]|(_ & _ & Hc')]];
        [exact Hpm2 | reflexivity | eapply Hlen; exact Hc']. }
  assert (Hend : forall col, isKingOf col (pieceMoved m) = true ->
                   (endRow m, endCol m) = (Z.of_nat k, Z.of_nat l)
                   /\ 0 <= endRow m /\ 0 <= endCol m).
  { intros col Hk.
    apply (isKingOf_spells _ _ Hpm2) in Hk.
    destruct Hland as [Hon|Hp]; [|rewrite Hk in Hp; discriminate].
    unfold landsOnBoard, onBoard in Hon.
    rewrite !andb_true_iff, !Z.leb_le in Hon.
    destruct Hon as [[[H1 _] H2] _].
    unfold k, l, rowOf, colOf. rewrite !pos_nonneg by assumption. auto. }
  assert (Hcheck : forall wk bk,
             (isKingOf "w" (pieceMoved m) = true -> wk = (endRow m, endCol m)) ->
             (isKingOf "w" (pieceMoved m) = false -> wk = whiteKingLocation s) ->
             (isKingOf "b" (pieceMoved m) = true -> bk = (endRow m, endCol m)) ->
             (isKingOf "b" (pieceMoved m) = false -> bk = blackKingLocation s) ->
             boardKingsAt b2 "w" 0 wk
             && boardKingsAt b2 "b" 0 bk
             && (0 <=? fst wk) && (0 <=? snd wk)
             && (0 <=? fst bk) && (0 <=? snd bk) = true).
  { intros wk bk W1 W2 B1 B2.
    rewrite !andb_true_iff, !Z.leb_le, !boardKingsAt_iff.
    assert (Nw : 0 <= fst wk /\ 0 <= snd wk).
    { destruct (isKingOf "w" (pieceMoved m)) eqn:E.
      - rewrite (W1 eq_refl). simpl. apply (Hend "w"%char E).
      - rewrite (W2 eq_refl). auto. }
    assert (Nb : 0 <= fst bk /\ 0 <= snd bk).
    { destruct (isKingOf "b" (pieceMoved m)) eqn:E.
      - rewrite (B1 eq_refl). simpl. apply (Hend "b"%char E).
      - rewrite (B2 eq_refl). auto. }
    repeat split; try tauto.
    - apply (kings_after_move "w" _ _ _ _ _ _ _ _ Kw Cpm); [|exact W2].
      intros E. rewrite (W1 E). apply (Hend "w"%char E).
    - apply (kings_after_move "b" _ _ _ _ _ _ _ _ Kb Cpm); [|exact B2].
      intros E. rewrite (B1 E). apply (Hend "b"%char E). }
  unfold makeMove in Hmk. rewrite E1 in Hmk. cbn [bind] in Hmk.
  rewrite E2 in Hmk. cbn [bind] in Hmk. fold b2 in Hmk.
  destruct (pieceMoved m =? "wK")%string eqn:EW.
  - apply String.eqb_eq in EW. inversion Hmk; subst s2. clear Hmk.
    split; [|exact Hwf2]. unfold kingsCached. cbn.
    apply Hcheck; rewrite EW; try reflexivity; discriminate.
  - destruct (pieceMoved m =? "bK")%string eqn:EB.
    + apply String.eqb_eq in EB. inversion Hmk; subst s2. clear Hmk.
      split; [|exact Hwf2]. unfold kingsCached. cbn.
      apply Hcheck; rewrite EB; try reflexivity; discriminate.
    + apply String.eqb_neq in EW, EB. inversion Hmk; subst s2. clear Hmk.
      split; [|exact Hwf2]. unfold kingsCached. cbn.
      apply Hcheck; try reflexivity; intros E;
        apply (isKingOf_spells _ _ Hpm2) in E; contradiction.
Qed.

Lemma getValidMoves_consistent (s s1 : GameState) (moves : list Move) :
  consistent s -> getValidMoves s = Ok (s1, moves) -> consistent s1.
Proof.
  intros [HK Hwf] Hv.
  destruct (getValidMoves_spec _ _ _ HK Hv) as (Hb & _ & _ & [Hk1 Hk2] & _).
  split.
  - unfold kingsCached. rewrite Hb, Hk1, Hk2. exact HK.
  - rewrite Hb. exact Hwf.
Qed.

(** Every position reached by playing offered moves from [newGame] keeps
    the king caches in step with a well-formed board. *)
Lemma reachable_consistent (s : GameState) : reachable s -> consistent s.
Proof.
  induction 1 as [|s s1 s2 moves m Hs IH Hv Hin Hmk].
  - split; reflexivity.
  - pose proof (getValidMoves_consistent _ _ _ IH Hv) as H1.
    destruct (getValidMoves_spec _ _ _ (proj1 IH) Hv) as (Hb & _ & _ & _ & Hg).
    pose proof (getValidMoves_lands _ _ _ Hv) as Hl.
    rewrite Forall_forall in Hg, Hl.
    apply (makeMove_consistent s1 s2 m H1); auto.
    rewrite Hb. auto.
Qed.

Lemma reachable_kingsCached (s : GameState) :
  reachable s -> kingsCached s = true.
Proof. intros H. apply reachable_consistent in H. apply H. Qed.

(** * Further properties of the engine *)

(** ** The detector's answer *)

(** X1: in the answer of [checksForPinsAndChecks] the flag [inCheck] is
    set exactly when the list [checks] holds a record. *)
Theorem detector_flag_iff_record (s : GameState) ic ps cs :
  checksForPinsAndChecks s = Ok (ic, ps, cs) ->
  (ic = true <-> cs <> []).
Proof.
  intros H. apply checksForPinsAndChecks_shape in H. apply H.
Qed.

Lemma detector_flag_iff_record_witness :
  checksForPinsAndChecks afterQueenCheck = Ok (true, [], [(3, 7, 1, 1)])
  /\ (true = true <-> [(3, 7, 1, 1)] <> ([] : list Quad)).
Proof.
  assert (H : checksForPinsAndChecks afterQueenCheck
              = Ok (true, [], [(3, 7, 1, 1)])) by (vm_compute; reflexivity).
  split; [exact H|].
  exact (detector_flag_iff_record afterQueenCheck true [] [(3, 7, 1, 1)] H).
Defined.

(** ** What [getValidMoves] leaves alone *)

Lemma getValidMoves_frame_aux (s s1 : GameState) (moves : list Move) :
  getValidMoves s = Ok (s1, moves) ->
  board s1 = board s /\ whiteToMove s1 = whiteToMove s
  /\ moveLog s1 = moveLog s /\ pins s1 = []
  /\ exists ic cs,
       checksForPinsAndChecks s = Ok (ic, [], cs)
       /\ inCheck s1 = ic /\ checks s1 = cs.
Proof.
  intros Hv.
  destruct (checksForPinsAndChecks s) as [[[ic ps] cs]|e] eqn:Hd;
    [|unfold getValidMoves in Hv; rewrite Hd in Hv; discriminate].
  pose proof (checksForPinsAndChecks_pins_nil _ _ _ _ Hd) as ->.
  rewrite (getValidMoves_branches _ _ _ _ Hd) in Hv. cbv zeta in Hv.
  set (s0 := set_analysis s ic [] cs) in *.
  assert (Hall : forall s' ms,
             getAllPossibleMoves s0 = Ok (s', ms) ->
             board s' = board s /\ whiteToMove s' = whiteToMove s
             /\ moveLog s' = moveLog s /\ pins s' = []
             /\ exists ic' cs',
                  Ok (ic, @nil Quad, cs) = Ok (ic', [], cs')
                  /\ inCheck s' = ic' /\ checks s' = cs').
  { intros s' ms H. apply getAllPossibleMoves_spec in H.
    destruct H as ((Hb & Hw & Hl & Hi & Hc) & _ & Hp & _).
    repeat split; try assumption; [apply Hp; reflexivity|].
    exists ic, cs. repeat split; assumption. }
  destruct ic; [|eapply Hall; exact Hv].
  destruct (Nat.eqb (length cs) 1).
  - apply bind_Ok in Hv. destruct Hv as ([s1' moves0] & Ea & Hv).
    apply Hall in Ea.
    apply bind_Ok in Hv. destruct Hv as ([[[cr cc] d0] d1] & _ & Hv).
    apply bind_Ok in Hv. destruct Hv as (pc & _ & Hv).
    apply bind_Ok in Hv. destruct Hv as (kind & _ & Hv).
    apply bind_Ok in Hv. destruct Hv as (moves' & Ef & Hv).
    inversion Hv; subst s1' moves'. exact Ea.
  - apply getKingMoves_spec in Hv. destruct Hv as [Hs _].
    assert (Hf : frame s0 s1 /\ pins s1 = pins s0).
    { destruct Hs as [->| ->]; [split; [apply frame_refl | reflexivity]|].
      apply placeKing_frame. }
    destruct Hf as [(Hb & Hw & Hl & Hi & Hc) Hp].
    repeat split; try assumption.
    exists true, cs. repeat split; assumption.
Qed.

(** X3: when [getValidMoves] returns, the board, the side to move and the
    move log are what they were; the state holds the detector's answer for
    the position in [inCheck] and [checks], and an empty [pins]. *)
Theorem getValidMoves_keeps_position (s s1 : GameState) (moves : list Move) :
  getValidMoves s = Ok (s1, moves) ->
  board s1 = board s /\ whiteToMove s1 = whiteToMove s
  /\ moveLog s1 = moveLog s /\ pins s1 = []
  /\ exists ic cs,
       checksForPinsAndChecks s = Ok (ic, [], cs)
       /\ inCheck s1 = ic /\ checks s1 = cs.
Proof. apply getValidMoves_frame_aux. Qed.

Lemma getValidMoves_keeps_position_witness :
  exists s1 moves,
    getValidMoves afterQueenCheck = Ok (s1, moves)
    /\ board s1 = board afterQueenCheck.
Proof.
  destruct (getValidMoves afterQueenCheck) as [[s1 moves]|e] eqn:Ev;
    [|vm_compute in Ev; discriminate].
  exists s1, moves. split; [reflexivity|].
  exact (proj1 (getValidMoves_keeps_position afterQueenCheck s1 moves Ev)).
Defined.

(** X4: on a state whose king caches agree with the board, [getValidMoves]
    returns with both caches as they were: every speculative placement of
    the king made while generating has been taken back. *)
Theorem getValidMoves_keeps_king_caches (s s1 : GameState)
    (moves : list Move) :
  kingsCached s = true ->
  getValidMoves s = Ok (s1, moves) ->
  whiteKingLocation s1 = whiteKingLocation s
  /\ blackKingLocation s1 = blackKingLocation s.
Proof.
  intros HK Hv.
  destruct (getValidMoves_spec _ _ _ HK Hv) as (_ & _ & _ & Hk & _).
  exact Hk.
Qed.

Lemma getValidMoves_keeps_king_caches_witness :
  exists s1 moves,
    kingsCached doubleCheck = true
    /\ getValidMoves doubleCheck = Ok (s1, moves)
    /\ whiteKingLocation s1 = (7, 4).
Proof.
  destruct (getValidMoves doubleCheck) as [[s1 moves]|e] eqn:Ev;
    [|vm_compute in Ev; discriminate].
  assert (HK : kingsCached doubleCheck = true) by (vm_compute; reflexivity).
  exists s1, moves. split; [exact HK|]. split; [reflexivity|].
  destruct (getValidMoves_keeps_king_caches doubleCheck s1 moves HK Ev)
    as [Hw _].
  rewrite Hw. reflexivity.
Defined.

(** ** An invariant of play *)

Lemma queenChecks_reachable (s : GameState) :
  queenChecks = Ok s -> reachable s.
Proof.
  unfold queenChecks. intros H. run.
  eauto using playMove_reachable, reachable_new.
Qed.

Lemma afterQueenCheck_reachable : reachable afterQueenCheck.
Proof.
  apply queenChecks_reachable. vm_compute. reflexivity.
Qed.

(** X5: in every position reached from the initial one by making moves
    that [getValidMoves] offers, a king that stands on the board stands on
    the cached square of its colour, the cached squares are not negative,
    and the board is still 8x8 with two characters on every square. *)
Theorem play_keeps_caches_and_board (s : GameState) :
  reachable s ->
  kingsCached s = true /\ wellFormedBoard (board s) = true.
Proof. intros H. apply reachable_consistent. exact H. Qed.

Lemma play_keeps_caches_and_board_witness :
  kingsCached afterQueenCheck = true.
Proof.
  destruct (play_keeps_caches_and_board afterQueenCheck
              afterQueenCheck_reachable) as [HK _].
  exact HK.
Defined.

(** ** Notation outside the board *)

Lemma colsToFiles_missing (c : Z) :
  ~ 0 <= c <= 7 -> Py.lookup Z.eqb colsToFiles c = Raise KeyError.
Proof.
  intros H. unfold colsToFiles, filesToCols, invert.
  cbn [map fst snd Py.lookup].
  repeat match goal with
         | |- context [?k =? c] => destruct (Z.eqb_spec k c); [lia|]
         end.
  reflexivity.
Qed.

Lemma rowsToRanks_missing (r : Z) :
  ~ 0 <= r <= 7 -> Py.lookup Z.eqb rowsToRanks r = Raise KeyError.
Proof.
  intros H. unfold rowsToRanks, ranksToRows, invert.
  cbn [map fst snd Py.lookup].
  repeat match goal with
         | |- context [?k =? r] => destruct (Z.eqb_spec k r); [lia|]
         end.
  reflexivity.
Qed.

Lemma getRankFile_missing (r c : Z) :
  ~ (0 <= r <= 7 /\ 0 <= c <= 7) -> getRankFile r c = Raise KeyError.
Proof.
  intros H. unfold getRankFile.
  destruct (Z_le_dec 0 c) as [H0|H0], (Z_le_dec c 7) as [H7|H7];
    try (rewrite colsToFiles_missing by lia; reflexivity).
  assert (Hr : ~ 0 <= r <= 7) by lia.
  assert (Hc : 0 <= c <= 7) by lia.
  small_split Hc; cbn [bind]; rewrite (rowsToRanks_missing r Hr);
    reflexivity.
Qed.

Lemma getRankFile_range (r c : Z) (str : string) :
  getRankFile r c = Ok str -> 0 <= r <= 7 /\ 0 <= c <= 7.
Proof.
  intros H.
  destruct (Z_le_dec 0 r), (Z_le_dec r 7), (Z_le_dec 0 c), (Z_le_dec c 7);
    try lia;
    rewrite getRankFile_missing in H by lia; discriminate.
Qed.

(** X6: [getChessNotation] raises [KeyError] as soon as one of the four
    coordinates of the move is not in [0,7]; the move to row [-1] that
    [getPawnMoves] gives a white pawn on row 0 is such a move. *)
Theorem getChessNotation_off_board (m : Move) :
  ~ inRange m -> getChessNotation m = Raise KeyError.
Proof.
  unfold inRange. intros H. unfold getChessNotation.
  destruct (getRankFile (startRow m) (startCol m)) as [a|e] eqn:Ea.
  - apply getRankFile_range in Ea. cbn [bind].
    rewrite getRankFile_missing by lia. reflexivity.
  - rewrite getRankFile_missing in Ea by
        (intros Hs; rewrite (getRankFile_squareName _ _ (proj1 Hs) (proj2 Hs))
           in Ea; discriminate).
    inversion Ea. reflexivity.
Qed.

Lemma getChessNotation_off_board_witness :
  getChessNotation pawnOffBoard = Raise KeyError.
Proof.
  apply (getChessNotation_off_board pawnOffBoard).
  unfold inRange. simpl. lia.
Defined.

Lemma fileLetter_inj (c c' : Z) :
  0 <= c <= 7 -> 0 <= c' <= 7 -> fileLetter c = fileLetter c' -> c = c'.
Proof.
  intros H H'. small_split H; small_split H'; intros E;
    try reflexivity; vm_compute in E; discriminate.
Qed.

Lemma rankDigit_inj (r r' : Z) :
  0 <= r <= 7 -> 0 <= r' <= 7 -> rankDigit r = rankDigit r' -> r = r'.
Proof.
  intros H H'. small_split H; small_split H'; intros E;
    try reflexivity; vm_compute in E; discriminate.
Qed.

Lemma getChessNotation_inRange (m : Move) (str : string) :
  getChessNotation m = Ok str ->
  inRange m
  /\ str = (squareName (startRow m) (startCol m)
            ++ squareName (endRow m) (endCol m))%string.
Proof.
  unfold getChessNotation. intros H.
  apply bind_Ok in H. destruct H as (a & Ea & H).
  apply bind_Ok in H. destruct H as (b & Eb & H).
  pose proof (getRankFile_range _ _ _ Ea) as [R1 R2].
  pose proof (getRankFile_range _ _ _ Eb) as [R3 R4].
  rewrite (getRankFile_squareName _ _ R1 R2) in Ea.
  rewrite (getRankFile_squareName _ _ R3 R4) in Eb.
  inversion Ea; inversion Eb; inversion H; subst.
  split; [unfold inRange; auto | reflexivity].
Qed.

(** X7: the notation tells moves apart: two moves that
    [getChessNotation] spells the same have the same four coordinates. *)
Theorem getChessNotation_injective (m1 m2 : Move) (str : string) :
  getChessNotation m1 = Ok str -> getChessNotation m2 = Ok str ->
  squaresOf m1 = squaresOf m2.
Proof.
  intros H1 H2.
  apply getChessNotation_inRange in H1, H2.
  destruct H1 as [(A1 & A2 & A3 & A4) E1], H2 as [(B1 & B2 & B3 & B4) E2].
  rewrite E1 in E2. unfold squareName in E2. simpl in E2.
  inversion E2 as [[Hsc Hsr Hec Her]].
  apply fileLetter_inj in Hsc, Hec; try assumption.
  apply rankDigit_inj in Hsr, Her; try assumption.
  unfold squaresOf. congruence.
Qed.

Lemma getChessNotation_injective_witness :
  squaresOf kingPawnTwo = squaresOf kingPawnTwo.
Proof.
  apply (getChessNotation_injective kingPawnTwo kingPawnTwo "d2d4");
    vm_compute; reflexivity.
Defined.

(** ** Move identity *)

Lemma Move_init_fields (a b : Square) (bd : Board) (m : Move) :
  Move_init a b bd = Ok m ->
  squaresOf m = (fst a, snd a, fst b, snd b)
  /\ moveID m = fst b * 1000 + snd b * 100 + fst a * 10 + snd a.
Proof.
  unfold Move_init. intros H. run. split; reflexivity.
Qed.

(** X8: [Move.__eq__] compares [moveID] alone.  For two moves built by
    [Move(...)], on whatever boards, whose start row, start column and end
    column are single digits, it answers true exactly when the four
    coordinates agree, whatever pieces the moves record. *)
Theorem Move_eq_iff_same_squares (a b a' b' : Square) (bd bd' : Board)
    (m m' : Move) :
  Move_init a b bd = Ok m -> Move_init a' b' bd' = Ok m' ->
  digit (fst a) -> digit (snd a) -> digit (snd b) ->
  digit (fst a') -> digit (snd a') -> digit (snd b') ->
  (Move_eqb m m' = true <-> squaresOf m = squaresOf m').
Proof.
  unfold digit. intros H H' D1 D2 D3 D1' D2' D3'.
  apply Move_init_fields in H, H'.
  destruct H as [Hs Hid], H' as [Hs' Hid'].
  unfold Move_eqb. rewrite Z.eqb_eq, Hid, Hid', Hs, Hs'.
  destruct a as [sr sc], b as [er ec], a' as [sr' sc'], b' as [er' ec'].
  simpl in *. split.
  - intros E. assert (er = er' /\ ec = ec' /\ sr = sr' /\ sc = sc') by lia.
    intuition congruence.
  - intros E. inversion E; subst. reflexivity.
Qed.

Lemma Move_eq_iff_same_squares_witness :
  Move_eqb kingPawnTwo kingPawnTwo = true
  <-> squaresOf kingPawnTwo = squaresOf kingPawnTwo.
Proof.
  apply (Move_eq_iff_same_squares (6, 4) (4, 4) (6, 4) (4, 4)
           initialBoard initialBoard kingPawnTwo kingPawnTwo);
    try (vm_compute; reflexivity); unfold digit; simpl; lia.
Defined.

(** ** A black pawn on the last row *)

Lemma index_past_end {A : Type} (l : list A) :
  Py.index l (Z.of_nat (length l)) = Raise IndexError.
Proof.
  unfold Py.index, Py.norm.
  destruct (Z.of_nat (length l) <? 0) eqn:E; [apply Z.ltb_lt in E; lia|].
  rewrite E, Nat2Z.id.
  destruct (nth_error l (length l)) eqn:En; [|reflexivity].
  assert (length l < length l)%nat by (apply nth_error_Some; congruence).
  lia.
Qed.

(** X9: with black to move on a board of eight rows,
    [getPawnMoves(7, c, moves)] raises [IndexError]: the square ahead is
    looked up at row index 8.  (For white on row 0 the index [-1] wraps
    instead.) *)
Theorem black_pawn_on_row_7_raises (s : GameState) (c : Z)
    (moves : list Move) :
  length (board s) = 8%nat -> whiteToMove s = false ->
  getPawnMoves s 7 c moves = Raise IndexError.
Proof.
  intros Hlen Hw.
  destruct (takePin_total s 7 c) as (pp & pd & s1 & Et & Hp).
  unfold getPawnMoves. rewrite Et. cbn [bind].
  apply onlyPins_frame in Hp. destruct Hp as [(Hb & Hw1 & _) _].
  rewrite Hw1, Hw, Hb. unfold pawnAdvance, board_get.
  change (7 + 1) with (Z.of_nat 8). rewrite <- Hlen.
  rewrite index_past_end. reflexivity.
Qed.

Lemma black_pawn_on_row_7_raises_witness :
  getPawnMoves blackPawnOnLastRow 7 0 [] = Raise IndexError.
Proof.
  apply (black_pawn_on_row_7_raises blackPawnOnLastRow 0 []); reflexivity.
Defined.

(** ** Making any move and taking it back *)

Lemma makeMove_undoMove_undone (s : GameState) (m : Move) :
  board_get (board s) (startRow m) (startCol m) = Ok (pieceMoved m) ->
  board_get (board s) (endRow m) (endCol m) = Ok (pieceCaptured m) ->
  exists s2, makeMove s m = Ok s2 /\ undoMove s2 = Ok (undone s m).
Proof.
  intros Hs He.
  destruct (board_write_back _ _ _ _ _ _ _ Hs He)
    as (b1 & b2 & b3 & E1 & E2 & E3 & E4).
  unfold makeMove. rewrite E1. cbn [bind]. rewrite E2. cbn [bind].
  assert (Hundo : forall s2,
             moveLog s2 = moveLog s ++ [m] -> board s2 = b2 ->
             undoMove s2 =
             (let s1 := set_board (set_moveLog s2 (moveLog s)) (board s) in
              let s2' := set_whiteToMove s1 (negb (whiteToMove s1)) in
              if (pieceMoved m =? "wK")%string
              then Ok (set_whiteKingLocation s2' (startRow m, startCol m))
              else if (pieceMoved m =? "bK")%string
              then Ok (set_blackKingLocation s2' (startRow m, startCol m))
              else Ok s2')).
  { intros s2 Hlog Hb. unfold undoMove. rewrite Hlog.
    rewrite length_app. simpl length.
    replace (Nat.eqb (length (moveLog s) + 1) 0) with false
      by (symmetry; apply Nat.eqb_neq; lia).
    cbn [negb]. rewrite pop_snoc.
    cbn [board set_moveLog]. rewrite Hb, E3. cbn [bind]. rewrite E4.
    reflexivity. }
  unfold undone.
  destruct (pieceMoved m =? "wK")%string eqn:EW.
  - eexists. split; [reflexivity|].
    rewrite Hundo by reflexivity. cbv zeta.
    clear. destruct s as [b w log wk bk ic cs ps]. cbn.
    rewrite negb_involutive. reflexivity.
  - destruct (pieceMoved m =? "bK")%string eqn:EB.
    + eexists. split; [reflexivity|].
      rewrite Hundo by reflexivity. cbv zeta.
      clear. destruct s as [b w log wk bk ic cs ps]. cbn.
      rewrite negb_involutive. reflexivity.
    + eexists. split; [reflexivity|].
      rewrite Hundo by reflexivity. cbv zeta.
      clear. destruct s as [b w log wk bk ic cs ps]. cbn.
      rewrite negb_involutive. reflexivity.
Qed.

(** X10: for any move built by [Move(a, b, self.board)] on the current
    board, [makeMove] followed by [undoMove] succeeds and gives back the
    state with one possible difference: the cache of a king that was moved
    holds the start square [a].  The whole state is restored exactly when
    a moved king started from its cached square. *)
Theorem makeMove_undoMove_any_move (s : GameState) (a b : Square) (m : Move) :
  Move_init a b (board s) = Ok m ->
  exists s2,
    makeMove s m = Ok s2 /\ undoMove s2 = Ok (undone s m)
    /\ (undone s m = s <->
        (pieceMoved m = "wK" -> whiteKingLocation s = a)
        /\ (pieceMoved m = "bK" -> blackKingLocation s = a)).
Proof.
  intros Hm.
  assert (Hmade : madeAt (board s) (fst a) (snd a) m).
  { exists (fst b), (snd b). destruct a, b. exact Hm. }
  apply madeAt_fields in Hmade. destruct Hmade as (Hr & Hc & Hpm & Hpc).
  rewrite <- Hr, <- Hc in Hpm.
  destruct (makeMove_undoMove_undone s m Hpm Hpc) as (s2 & E1 & E2).
  exists s2. split; [exact E1|]. split; [exact E2|].
  assert (Ha : a = (startRow m, startCol m))
    by (destruct a; simpl in *; congruence).
  rewrite Ha. unfold undone.
  destruct (pieceMoved m =? "wK")%string eqn:EW.
  - apply String.eqb_eq in EW. split.
    + intros E. split; [intros _ | intros EB; congruence].
      rewrite <- E at 1. reflexivity.
    + intros [Hw _]. specialize (Hw EW).
      destruct s; simpl in *; subst; reflexivity.
  - apply String.eqb_neq in EW.
    destruct (pieceMoved m =? "bK")%string eqn:EB.
    + apply String.eqb_eq in EB. split.
      * intros E. split; [intros E'; contradiction | intros _].
        rewrite <- E at 1. reflexivity.
      * intros [_ Hb]. specialize (Hb EB).
        destruct s; simpl in *; subst; reflexivity.
    + apply String.eqb_neq in EB. split; [|reflexivity].
      intros _. split; intros E; contradiction.
Qed.

Lemma makeMove_undoMove_any_move_witness :
  exists s2,
    makeMove newGame kingPawnTwo = Ok s2
    /\ undoMove s2 = Ok (undone newGame kingPawnTwo).
Proof.
  destruct (makeMove_undoMove_any_move newGame (6, 4) (4, 4) kingPawnTwo)
    as (s2 & E1 & E2 & _).
  - vm_compute. reflexivity.
  - exists s2. split; assumption.
Defined.

(** ** What the generators offer *)

Lemma append_move_inv (b : Board) (r c r' c' : Z) (moves moves' : list Move) :
  append_move b r c r' c' moves = Ok moves' ->
  exists m, Move_init (r, c) (r', c') b = Ok m /\ moves' = moves ++ [m].
Proof.
  unfold append_move. intros H. run. eauto.
Qed.

Lemma Forall_snoc {A : Type} (P : A -> Prop) (l : list A) (x : A) :
  Forall P l -> P x -> Forall P (l ++ [x]).
Proof.
  intros Hl Hx. apply Forall_app. split; [exact Hl | constructor; auto].
Qed.

Lemma checksForPinsAndChecks_detectAt (s : GameState) :
  checksForPinsAndChecks s
  = detectAt (board s) (whiteToMove s) (kingLocation s).
Proof.
  unfold checksForPinsAndChecks, detectAt, allyColorOf, enemyColorOf,
    allyOf, enemyOf.
  reflexivity.
Qed.

Section Offers.

Variable b : Board.
Variables r c : Z.
Variable Q : Move -> Prop.

Lemma pawnAdvance_offers dr home e pp pd moves moves' :
  (forall m, pawnOffer b dr home e pp pd r c m -> Q m) ->
  pawnAdvance b r c dr home pp pd moves = Ok moves' ->
  Forall Q moves -> Forall Q moves'.
Proof.
  intros HQ H Hall. unfold pawnAdvance in H.
  apply bind_Ok in H. destruct H as (ahead & Ea & H).
  destruct (ahead =? "--")%string eqn:E1; [|inversion H; subst; exact Hall].
  apply String.eqb_eq in E1. subst ahead.
  destruct (negb pp || axis_is pd (dr, 0)) eqn:Epin;
    [|inversion H; subst; exact Hall].
  apply bind_Ok in H. destruct H as (moves1 & Em1 & H).
  apply append_move_inv in Em1. destruct Em1 as (m1 & Hm1 & ->).
  assert (Hq1 : Q m1).
  { apply HQ. exists (r + dr), c. split; [exact Hm1|].
    left. repeat split; assumption. }
  destruct (r =? home) eqn:Eh;
    [|inversion H; subst; apply Forall_snoc; assumption].
  apply Z.eqb_eq in Eh.
  apply bind_Ok in H. destruct H as (ahead2 & Ea2 & H).
  destruct (ahead2 =? "--")%string eqn:E2;
    [|inversion H; subst; apply Forall_snoc; assumption].
  apply String.eqb_eq in E2. subst ahead2.
  apply append_move_inv in H. destruct H as (m2 & Hm2 & ->).
  apply Forall_snoc; [apply Forall_snoc; assumption|].
  apply HQ. exists (r + 2 * dr), c. split; [exact Hm2|].
  right. left. repeat split; assumption.
Qed.

Lemma pawnCapture_offers dr home dc g e pp pd moves moves' :
  (g = true -> (dc = -1 /\ 0 <= c - 1) \/ (dc = 1 /\ c + 1 <= 7)) ->
  (forall m, pawnOffer b dr home e pp pd r c m -> Q m) ->
  pawnCapture b r c dr dc g e pp pd moves = Ok moves' ->
  Forall Q moves -> Forall Q moves'.
Proof.
  intros Hg HQ H Hall. unfold pawnCapture in H.
  destruct g; [|inversion H; subst; exact Hall].
  apply bind_Ok in H. destruct H as (target & Et & H).
  apply bind_Ok in H. destruct H as (col & Ec & H).
  destruct (col =? e)%char eqn:Ecol; [|inversion H; subst; exact Hall].
  apply Ascii.eqb_eq in Ecol. subst col.
  destruct (negb pp || axis_is pd (dr, dc)) eqn:Epin;
    [|inversion H; subst; exact Hall].
  apply append_move_inv in H. destruct H as (m & Hm & ->).
  apply Forall_snoc; [exact Hall|].
  apply HQ. exists (r + dr), (c + dc). split; [exact Hm|].
  right. right. exists dc. split; [apply Hg; reflexivity|].
  repeat split; try assumption. exists target. split; assumption.
Qed.

(** The slide along [d]: [pre] are the steps already passed. *)
Lemma slideRay_offers e pp pd (ds : list (Z * Z)) d (all : list Z) :
  In d ds ->
  (forall i, In i all -> 1 <= i <= 7) ->
  (forall pre i post, all = pre ++ i :: post ->
                      forall j, 1 <= j < i -> In j pre) ->
  (forall m, slideOffer b e pp pd ds r c m -> Q m) ->
  forall steps pre moves moves',
    all = pre ++ steps ->
    (forall j, In j pre -> passable b (r + fst d * j) (c + snd d * j)) ->
    slideRay b e r c pp pd d steps moves = Ok moves' ->
    Forall Q moves -> Forall Q moves'.
Proof.
  intros Hd Hbound Hpre HQ.
  induction steps as [|i rest IH]; intros pre moves moves' Hall Hpass H HF;
    cbn [slideRay] in H.
  - inversion H; subst. exact HF.
  - cbv zeta in H.
    assert (Hnext : forall moves1,
               passable b (r + fst d * i) (c + snd d * i) ->
               slideRay b e r c pp pd d rest moves1 = Ok moves' ->
               Forall Q moves1 -> Forall Q moves').
    { intros moves1 Hp Hs HF1.
      apply (IH (pre ++ [i]) moves1 moves'); try assumption.
      - rewrite <- app_assoc. exact Hall.
      - intros j Hj. apply in_app_or in Hj.
        destruct Hj as [Hj|[<-|[]]]; [apply Hpass; exact Hj | exact Hp]. }
    assert (Hoffer : forall m,
               onBoard (r + fst d * i) (c + snd d * i) = true ->
               pinAllowsLine pp pd d = true ->
               isEmpty b (r + fst d * i) (c + snd d * i)
               \/ holdsColor b (r + fst d * i) (c + snd d * i) e ->
               Move_init (r, c) (r + fst d * i, c + snd d * i) b = Ok m ->
               Q m).
    { intros m Hon Hpin Htarget Hm. apply HQ. exists d, i.
      split; [exact Hd|].
      split; [apply Hbound; rewrite Hall; apply in_or_app; right; left;
              reflexivity|].
      split; [exact Hm|]. split; [exact Hon|]. split; [exact Hpin|].
      split; [exact Htarget|].
      intros j Hj. apply Hpass. eapply Hpre; eassumption. }
    destruct (onBoard (r + fst d * i) (c + snd d * i)) eqn:Eon;
      [|eapply Hnext; [left; exact Eon | exact H | exact HF]].
    destruct (negb pp || axis_is pd d || axis_is pd (- fst d, - snd d))
      eqn:Epin; [|inversion H; subst; exact HF].
    apply bind_Ok in H. destruct H as (p & Ep & H).
    destruct (p =? "--")%string eqn:Eempty.
    + apply String.eqb_eq in Eempty. subst p.
      apply bind_Ok in H. destruct H as (moves1 & Em & H).
      apply append_move_inv in Em. destruct Em as (m & Hm & ->).
      eapply Hnext; [right; exact Ep | exact H|].
      apply Forall_snoc; [exact HF|].
      apply (Hoffer m eq_refl Epin); [left; exact Ep | exact Hm].
    + apply bind_Ok in H. destruct H as (c0 & Ec0 & H).
      destruct (c0 =? e)%char eqn:Ee; [|inversion H; subst; exact HF].
      apply Ascii.eqb_eq in Ee. subst c0.
      apply append_move_inv in H. destruct H as (m & Hm & ->).
      apply Forall_snoc; [exact HF|].
      apply (Hoffer m eq_refl Epin); [|exact Hm].
      right. exists p. split; assumption.
Qed.

Lemma range_1_8_split (pre post : list Z) (i j : Z) :
  Py.range 1 8 = pre ++ i :: post -> 1 <= j < i -> In j pre.
Proof.
  rewrite range_1_8. intros H Hj.
  repeat (destruct pre as [|? pre]; simpl in H;
          [inversion H; subst; simpl; lia|];
          inversion H as [[Hh Ht]]; clear H; rename Ht into H; subst).
Qed.

Lemma slideRays_offers e pp pd (all : list (Z * Z)) :
  (forall m, slideOffer b e pp pd all r c m -> Q m) ->
  forall ds moves moves',
    (forall d, In d ds -> In d all) ->
    slideRays b e r c pp pd ds moves = Ok moves' ->
    Forall Q moves -> Forall Q moves'.
Proof.
  intros HQ. induction ds as [|d rest IH]; intros moves moves' Hsub H HF;
    cbn [slideRays] in H.
  - inversion H; subst. exact HF.
  - apply bind_Ok in H. destruct H as (moves1 & E1 & H).
    apply (IH moves1 moves'); [intros d' Hd'; apply Hsub; right; exact Hd'
                              | exact H |].
    apply (slideRay_offers e pp pd all d (Py.range 1 8)
             (Hsub d (or_introl eq_refl)) range_1_8_bounds
             (fun pre i post Heq j Hj => range_1_8_split pre post i j Heq Hj)
             HQ (Py.range 1 8) [] moves moves1);
      [reflexivity | intros j [] | exact E1 | exact HF].
Qed.

Lemma knightLoop_offers a pp :
  (forall m, knightOffer b a pp r c m -> Q m) ->
  forall ms moves moves',
    (forall mv, In mv ms -> In mv knightMoves) ->
    knightLoop b a r c pp ms moves = Ok moves' ->
    Forall Q moves -> Forall Q moves'.
Proof.
  intros HQ. induction ms as [|mv rest IH]; intros moves moves' Hsub H HF;
    cbn [knightLoop] in H.
  - inversion H; subst. exact HF.
  - cbv zeta in H.
    assert (Hrest : forall mv', In mv' rest -> In mv' knightMoves)
      by (intros mv' Hin; apply Hsub; right; exact Hin).
    destruct (onBoard (r + fst mv) (c + snd mv)) eqn:Eon;
      [|eapply IH; eassumption].
    destruct (negb pp) eqn:Epp; [|eapply IH; eassumption].
    apply negb_true_iff in Epp.
    apply bind_Ok in H. destruct H as (p & Ep & H).
    apply bind_Ok in H. destruct H as (c0 & Ec0 & H).
    destruct (negb (c0 =? a)%char) eqn:Ea; [|eapply IH; eassumption].
    apply negb_true_iff, Ascii.eqb_neq in Ea.
    apply bind_Ok in H. destruct H as (moves1 & Em & H).
    apply append_move_inv in Em. destruct Em as (m & Hm & ->).
    eapply IH; [exact Hrest | exact H|].
    apply Forall_snoc; [exact HF|].
    apply HQ. exists mv. split; [apply Hsub; left; reflexivity|].
    split; [exact Hm|]. split; [exact Eon|]. split; [exact Epp|].
    exists p, c0. repeat split; assumption.
Qed.

End Offers.

Lemma allyColorOf_allyOf (s : GameState) :
  allyColorOf s = allyOf (whiteToMove s).
Proof. reflexivity. Qed.

Lemma enemyColorOf_enemyOf (s : GameState) :
  enemyColorOf s = enemyOf (whiteToMove s).
Proof. reflexivity. Qed.

Lemma placeKing_fields (s : GameState) (white : bool) (q : Square) :
  whiteToMove s = white ->
  board (placeKing s (allyOf white) q) = board s
  /\ whiteToMove (placeKing s (allyOf white) q) = white
  /\ kingLocation (placeKing s (allyOf white) q) = q.
Proof.
  intros <-. unfold placeKing, allyOf, kingLocation.
  destruct (whiteToMove s) eqn:E; simpl; rewrite E; auto.
Qed.

Lemma kingLoop_offers (b : Board) (white : bool) (r c : Z)
    (Q : Move -> Prop) :
  (forall m, kingOffer b white r c m -> Q m) ->
  forall ks s moves s' moves',
    board s = b -> whiteToMove s = white ->
    (forall k, In k ks -> In k kingMoves) ->
    kingLoop s (allyOf white) r c ks moves = Ok (s', moves') ->
    Forall Q moves -> Forall Q moves'.
Proof.
  intros HQ. induction ks as [|k rest IH];
    intros s moves s' moves' Hb Hw Hsub H HF; cbn [kingLoop] in H.
  - inversion H; subst. exact HF.
  - cbv zeta in H.
    assert (Hrest : forall k', In k' rest -> In k' kingMoves)
      by (intros k' Hin; apply Hsub; right; exact Hin).
    destruct (onBoard (r + fst k) (c + snd k)) eqn:Eon;
      [|eapply IH; eassumption].
    apply bind_Ok in H. destruct H as (p & Ep & H).
    apply bind_Ok in H. destruct H as (c0 & Ec0 & H).
    destruct (negb (c0 =? allyOf white)%char) eqn:Ea;
      [|eapply IH; eassumption].
    apply negb_true_iff, Ascii.eqb_neq in Ea.
    apply bind_Ok in H. destruct H as ([[ic ps] cs] & Ed & H).
    apply bind_Ok in H. destruct H as (moves1 & Em & H).
    destruct (placeKing_fields s white (r + fst k, c + snd k) Hw)
      as (Hb1 & Hw1 & Hk1).
    rewrite checksForPinsAndChecks_detectAt, Hb1, Hw1, Hk1, Hb in Ed.
    rewrite Hb1, Hb in Em. rewrite Hb in Ep.
    destruct (placeKing_fields
                (placeKing s (allyOf white) (r + fst k, c + snd k))
                white (r, c) Hw1) as (Hb2 & Hw2 & _).
    eapply (IH _ moves1 s' moves'); [| exact Hw2 | exact Hrest | exact H |].
    + rewrite Hb2, Hb1. exact Hb.
    + destruct (negb ic) eqn:Eic; [|inversion Em; subst; exact HF].
      apply negb_true_iff in Eic. subst ic.
      apply append_move_inv in Em. destruct Em as (m & Hm & ->).
      apply Forall_snoc; [exact HF|].
      apply HQ. exists k. split; [apply Hsub; left; reflexivity|].
      split; [exact Hm|]. split; [exact Eon|].
      split; [exists p, c0; repeat split; assumption|].
      exists ps, cs. exact Ed.
Qed.

Lemma takePin_nil (s : GameState) (r c : Z) :
  pins s = [] -> takePin s r c = Ok (false, None, s).
Proof. intros H. unfold takePin. rewrite H. reflexivity. Qed.

Lemma takePinRook_nil (s : GameState) (r c : Z) :
  pins s = [] -> takePinRook s r c = Ok (false, None, s).
Proof. intros H. unfold takePinRook. rewrite H. reflexivity. Qed.

Lemma slideOffer_more (b : Board) e pp pd (ds ds' : list (Z * Z)) r c m :
  (forall d, In d ds -> In d ds') ->
  slideOffer b e pp pd ds r c m -> slideOffer b e pp pd ds' r c m.
Proof.
  intros Hsub (d & i & Hd & H). exists d, i. split; [apply Hsub; exact Hd|].
  exact H.
Qed.

(** Without recorded pins, the generator that the table has for [piece]
    appends only what [pieceOffer] describes. *)
Lemma moveFunction_offers (piece : ascii) (gen : Generator)
    (Q : Move -> Prop) :
  moveFunction piece = Ok gen ->
  forall s r c moves s' moves',
    pins s = [] ->
    (forall m, pieceOffer (board s) (whiteToMove s) piece r c m -> Q m) ->
    gen s r c moves = Ok (s', moves') ->
    Forall Q moves -> Forall Q moves'.
Proof.
  assert (HR : forall s r c moves s' moves',
             pins s = [] ->
             (forall m, slideOffer (board s) (enemyOf (whiteToMove s)) false
                                   None rookDirections r c m -> Q m) ->
             getRookMoves s r c moves = Ok (s', moves') ->
             Forall Q moves -> Forall Q moves').
  { intros s r c moves s' moves' Hp HQ H HF. unfold getRookMoves in H.
    rewrite (takePinRook_nil _ _ _ Hp) in H. cbn [bind] in H.
    apply bind_Ok in H. destruct H as (moves1 & E1 & H).
    inversion H; subst.
    eapply slideRays_offers; [exact HQ | | exact E1 | exact HF].
    intros d Hd; exact Hd. }
  assert (HB : forall s r c moves s' moves',
             pins s = [] ->
             (forall m, slideOffer (board s) (enemyOf (whiteToMove s)) false
                                   None bishopDirections r c m -> Q m) ->
             getBishopMoves s r c moves = Ok (s', moves') ->
             Forall Q moves -> Forall Q moves').
  { intros s r c moves s' moves' Hp HQ H HF. unfold getBishopMoves in H.
    rewrite (takePin_nil _ _ _ Hp) in H. cbn [bind] in H.
    apply bind_Ok in H. destruct H as (moves1 & E1 & H).
    inversion H; subst.
    eapply slideRays_offers; [exact HQ | | exact E1 | exact HF].
    intros d Hd; exact Hd. }
  unfold moveFunction. cbn [Py.lookup]. intros H s r c moves s' moves' Hp HQ.
  unfold pieceOffer in HQ.
  destruct (Ascii.eqb "p" piece) eqn:Ep.
  { apply Ascii.eqb_eq in Ep. subst piece. inversion H; subst gen.
    cbn [Ascii.eqb] in HQ. intros Hg HF. unfold getPawnMoves in Hg.
    rewrite (takePin_nil _ _ _ Hp) in Hg. cbn [bind] in Hg.
    change (("p" =? "p")%char) with true in HQ. cbv iota in HQ.
    destruct (whiteToMove s) eqn:Ew; cbn [forwardOf homeOf enemyOf] in HQ;
      apply bind_Ok in Hg; destruct Hg as (m1 & E1 & Hg);
      apply bind_Ok in Hg; destruct Hg as (m2 & E2 & Hg);
      apply bind_Ok in Hg; destruct Hg as (m3 & E3 & Hg);
      inversion Hg; subst s' moves'.
    - eapply pawnCapture_offers; [| exact HQ | exact E3 |].
      { intros G. apply Z.leb_le in G. right. split; [reflexivity | exact G]. }
      eapply pawnCapture_offers; [| exact HQ | exact E2 |].
      { intros G. apply Z.geb_le in G. left. split; [reflexivity | lia]. }
      eapply pawnAdvance_offers; [exact HQ | exact E1 | exact HF].
    - eapply pawnCapture_offers; [| exact HQ | exact E3 |].
      { intros G. apply Z.leb_le in G. right. split; [reflexivity | exact G]. }
      eapply pawnCapture_offers; [| exact HQ | exact E2 |].
      { intros G. apply Z.geb_le in G. left. split; [reflexivity | lia]. }
      eapply pawnAdvance_offers; [exact HQ | exact E1 | exact HF]. }
  apply Ascii.eqb_neq in Ep.
  replace ((piece =? "p")%char) with false in HQ
    by (symmetry; apply Ascii.eqb_neq; congruence).
  destruct (Ascii.eqb "R" piece) eqn:ER.
  { apply Ascii.eqb_eq in ER. subst piece. inversion H; subst gen.
    apply HR; assumption. }
  apply Ascii.eqb_neq in ER.
  replace ((piece =? "R")%char) with false in HQ
    by (symmetry; apply Ascii.eqb_neq; congruence).
  destruct (Ascii.eqb "N" piece) eqn:EN.
  { apply Ascii.eqb_eq in EN. subst piece. inversion H; subst gen.
    intros Hg HF. unfold getKnightMoves in Hg.
    rewrite (takePin_nil _ _ _ Hp) in Hg. cbn [bind] in Hg.
    apply bind_Ok in Hg. destruct Hg as (moves1 & E1 & Hg).
    inversion Hg; subst.
    eapply knightLoop_offers; [exact HQ | | exact E1 | exact HF].
    intros mv Hmv; exact Hmv. }
  apply Ascii.eqb_neq in EN.
  replace ((piece =? "N")%char) with false in HQ
    by (symmetry; apply Ascii.eqb_neq; congruence).
  destruct (Ascii.eqb "B" piece) eqn:EB.
  { apply Ascii.eqb_eq in EB. subst piece. inversion H; subst gen.
    apply HB; assumption. }
  apply Ascii.eqb_neq in EB.
  replace ((piece =? "B")%char) with false in HQ
    by (symmetry; apply Ascii.eqb_neq; congruence).
  destruct (Ascii.eqb "Q" piece) eqn:EQ.
  { apply Ascii.eqb_eq in EQ. subst piece. inversion H; subst gen.
    intros Hg HF. unfold getQueenMoves in Hg.
    apply bind_Ok in Hg. destruct Hg as ([s1 moves1] & E1 & Hg).
    pose proof (generators_keep_empty_pins getRookMoves _ _ _ _ _ _
                  (or_intror (or_introl eq_refl)) Hp E1) as ->.
    eapply HB; [exact Hp | | exact Hg |].
    - intros m Hm. apply HQ. eapply slideOffer_more; [|exact Hm].
      intros d Hd. apply in_or_app. right. exact Hd.
    - eapply HR; [exact Hp | | exact E1 | exact HF].
      intros m Hm. apply HQ. eapply slideOffer_more; [|exact Hm].
      intros d Hd. apply in_or_app. left. exact Hd. }
  apply Ascii.eqb_neq in EQ.
  replace ((piece =? "Q")%char) with false in HQ
    by (symmetry; apply Ascii.eqb_neq; congruence).
  destruct (Ascii.eqb "K" piece) eqn:EK; [|discriminate H].
  apply Ascii.eqb_eq in EK. subst piece. inversion H; subst gen.
  intros Hg HF. unfold getKingMoves in Hg.
  rewrite allyColorOf_allyOf in Hg.
  eapply kingLoop_offers; [exact HQ | reflexivity | reflexivity | | exact Hg
                          | exact HF].
  intros k Hk; exact Hk.
Qed.

Lemma scanCols_offers (r : Z) (cs : list Z) :
  0 <= r -> (forall c, In c cs -> 0 <= c) ->
  forall s moves s' moves',
    pins s = [] ->
    scanCols s r cs moves = Ok (s', moves') ->
    Forall (offered (board s) (whiteToMove s)) moves ->
    Forall (offered (board s) (whiteToMove s)) moves'.
Proof.
  intros Hr. induction cs as [|c rest IH]; intros Hcs s moves s' moves' Hp H HF;
    cbn [scanCols] in H.
  - inversion H; subst. exact HF.
  - assert (Hc : 0 <= c) by (apply Hcs; left; reflexivity).
    assert (Hrest : forall c', In c' rest -> 0 <= c')
      by (intros c' Hin; apply Hcs; right; exact Hin).
    specialize (IH Hrest).
    apply bind_Ok in H. destruct H as (sq & Esq & H).
    apply bind_Ok in H. destruct H as (turn & Eturn & H).
    destruct (((turn =? "w")%char && whiteToMove s)
              || ((turn =? "b")%char && negb (whiteToMove s))) eqn:Eside;
      [|eapply IH; eassumption].
    apply bind_Ok in H. destruct H as (piece & Epiece & H).
    apply bind_Ok in H. destruct H as (gen & Egen & H).
    apply bind_Ok in H. destruct H as ([s1 moves1] & E1 & H).
    destruct (moveFunction_spec _ _ Egen _ _ _ _ _ _ E1)
      as ((Hb1 & Hw1 & _) & _ & Hp1 & _).
    rewrite <- Hb1, <- Hw1. apply (IH s1 moves1 s' moves' (Hp1 Hp) H).
    rewrite Hb1, Hw1.
    apply (moveFunction_offers piece gen _ Egen s r c moves s1 moves1 Hp);
      [|exact E1 | exact HF].
    intros m Hm. exists r, c, sq, piece. repeat split; try assumption.
    assert (Hturn : turn = allyOf (whiteToMove s)).
    { unfold allyOf. destruct (whiteToMove s); simpl in Eside.
      - rewrite andb_true_r, andb_false_r, orb_false_r in Eside.
        apply Ascii.eqb_eq in Eside. exact Eside.
      - rewrite andb_false_r, andb_true_r in Eside. simpl in Eside.
        apply Ascii.eqb_eq in Eside. exact Eside. }
    rewrite <- Hturn. exact Eturn.
Qed.

Lemma scanRows_offers (rs : list Z) :
  (forall r, In r rs -> 0 <= r) ->
  forall s moves s' moves',
    pins s = [] ->
    scanRows s rs moves = Ok (s', moves') ->
    Forall (offered (board s) (whiteToMove s)) moves ->
    Forall (offered (board s) (whiteToMove s)) moves'.
Proof.
  induction rs as [|r rest IH]; intros Hrs s moves s' moves' Hp H HF;
    cbn [scanRows] in H.
  - inversion H; subst. exact HF.
  - assert (Hr : 0 <= r) by (apply Hrs; left; reflexivity).
    assert (Hrest : forall r', In r' rest -> 0 <= r')
      by (intros r' Hin; apply Hrs; right; exact Hin).
    apply bind_Ok in H. destruct H as (row & Erow & H).
    apply bind_Ok in H. destruct H as ([s1 moves1] & E1 & H).
    pose proof (scanCols_spec r _ Hr (range_nonneg _) _ _ _ _ E1)
      as ((Hb1 & Hw1 & _) & _ & Hp1 & _).
    rewrite <- Hb1, <- Hw1. apply (IH Hrest s1 moves1 s' moves' (Hp1 Hp) H).
    rewrite Hb1, Hw1.
    exact (scanCols_offers r _ Hr (range_nonneg _) s moves s1 moves1 Hp E1 HF).
Qed.

Lemma getAllPossibleMoves_offers (s s' : GameState) (moves : list Move) :
  pins s = [] ->
  getAllPossibleMoves s = Ok (s', moves) ->
  Forall (offered (board s) (whiteToMove s)) moves.
Proof.
  intros Hp H. unfold getAllPossibleMoves in H.
  eapply scanRows_offers; [apply range_nonneg | exact Hp | exact H|].
  constructor.
Qed.

(** The moves [getValidMoves] returns were generated by the board scan, or
    by the king generator run for the cached king square. *)
Lemma getValidMoves_offers (s s1 : GameState) (moves : list Move) :
  getValidMoves s = Ok (s1, moves) ->
  Forall (fun m =>
            offered (board s) (whiteToMove s) m
            \/ kingOffer (board s) (whiteToMove s)
                         (fst (kingLocation s)) (snd (kingLocation s)) m)
         moves.
Proof.
  intros Hv.
  destruct (checksForPinsAndChecks s) as [[[ic ps] cs]|e] eqn:Hd;
    [|unfold getValidMoves in Hv; rewrite Hd in Hv; discriminate].
  pose proof (checksForPinsAndChecks_pins_nil _ _ _ _ Hd) as ->.
  rewrite (getValidMoves_branches _ _ _ _ Hd) in Hv. cbv zeta in Hv.
  set (s0 := set_analysis s ic [] cs) in *.
  assert (Hall : forall s' ms,
             getAllPossibleMoves s0 = Ok (s', ms) ->
             Forall (offered (board s) (whiteToMove s)) ms).
  { intros s' ms H.
    apply (getAllPossibleMoves_offers s0 s' ms eq_refl H). }
  assert (Hleft : forall ms,
             Forall (offered (board s) (whiteToMove s)) ms ->
             Forall (fun m =>
                       offered (board s) (whiteToMove s) m
                       \/ kingOffer (board s) (whiteToMove s)
                            (fst (kingLocation s)) (snd (kingLocation s)) m)
                    ms).
  { intros ms. apply Forall_impl. intros m Hm. left. exact Hm. }
  destruct ic; [|apply Hleft; eapply Hall; exact Hv].
  destruct (Nat.eqb (length cs) 1).
  - apply bind_Ok in Hv. destruct Hv as ([s1' moves0] & Ea & Hv).
    apply Hall in Ea.
    apply bind_Ok in Hv. destruct Hv as ([[[cr cc] d0] d1] & _ & Hv).
    apply bind_Ok in Hv. destruct Hv as (pc & _ & Hv).
    apply bind_Ok in Hv. destruct Hv as (kind & _ & Hv).
    apply bind_Ok in Hv. destruct Hv as (moves' & Ef & Hv).
    inversion Hv; subst s1' moves'. clear Hv.
    apply Hleft. rewrite Forall_forall in *. intros m Hin.
    apply Ea. eapply filterMoves_incl; eassumption.
  - unfold getKingMoves in Hv. rewrite allyColorOf_allyOf in Hv.
    eapply (kingLoop_offers (board s) (whiteToMove s)); [| | | | exact Hv|];
      [intros m Hm; right; exact Hm | reflexivity | reflexivity
      | intros k Hk; exact Hk | constructor].
Qed.

(** ** Properties of the moves that are returned *)

Lemma allyOf_not_dash (white : bool) : "-"%char <> allyOf white.
Proof. destruct white; discriminate. Qed.

Lemma enemyOf_not_ally (white : bool) : enemyOf white <> allyOf white.
Proof. destruct white; discriminate. Qed.

Lemma isEmpty_notAlly (b : Board) (r c : Z) (white : bool) :
  isEmpty b r c -> notAlly b r c (allyOf white).
Proof.
  intros H. exists "--", "-"%char.
  split; [exact H|]. split; [reflexivity | apply allyOf_not_dash].
Qed.

Lemma holdsColor_notAlly (b : Board) (r c : Z) (white : bool) :
  holdsColor b r c (enemyOf white) -> notAlly b r c (allyOf white).
Proof.
  intros (p & Hp & Hk). exists p, (enemyOf white).
  split; [exact Hp|]. split; [exact Hk | apply enemyOf_not_ally].
Qed.

Lemma Move_init_ends (a b' : Square) (bd : Board) (m : Move) :
  Move_init a b' bd = Ok m ->
  startRow m = fst a /\ startCol m = snd a
  /\ endRow m = fst b' /\ endCol m = snd b'
  /\ board_get bd (fst a) (snd a) = Ok (pieceMoved m)
  /\ board_get bd (fst b') (snd b') = Ok (pieceCaptured m).
Proof.
  unfold Move_init. intros H.
  apply bind_Ok in H. destruct H as (pm & Epm & H).
  apply bind_Ok in H. destruct H as (pc & Epc & H).
  inversion H; subst; simpl. auto 6.
Qed.

(** Where an offered move starts and what it lands on. *)
Lemma pieceOffer_ends (b : Board) (white : bool) (kind : ascii) (r c : Z)
    (m : Move) :
  pieceOffer b white kind r c m ->
  startRow m = r /\ startCol m = c
  /\ board_get b r c = Ok (pieceMoved m)
  /\ notAlly b (endRow m) (endCol m) (allyOf white).
Proof.
  assert (Hslide : forall ds,
             slideOffer b (enemyOf white) false None ds r c m ->
             startRow m = r /\ startCol m = c
             /\ board_get b r c = Ok (pieceMoved m)
             /\ notAlly b (endRow m) (endCol m) (allyOf white)).
  { intros ds (d & i & _ & _ & Hm & _ & _ & Ht & _).
    apply Move_init_ends in Hm. simpl in Hm.
    destruct Hm as (-> & -> & -> & -> & Hpm & _).
    repeat split; try assumption.
    destruct Ht; [apply isEmpty_notAlly | apply holdsColor_notAlly];
      assumption. }
  unfold pieceOffer.
  destruct (kind =? "p")%char.
  { intros (r' & c' & Hm & Hcase).
    apply Move_init_ends in Hm. simpl in Hm.
    destruct Hm as (-> & -> & -> & -> & Hpm & _).
    repeat split; try assumption.
    destruct Hcase as [(-> & -> & He & _)
                      |[(-> & -> & _ & _ & He & _)
                       |(dc & _ & -> & -> & He & _)]];
      [apply isEmpty_notAlly | apply isEmpty_notAlly
      | apply holdsColor_notAlly]; assumption. }
  destruct (kind =? "R")%char; [apply Hslide|].
  destruct (kind =? "N")%char.
  { intros (mv & _ & Hm & _ & _ & Hn).
    apply Move_init_ends in Hm. simpl in Hm.
    destruct Hm as (-> & -> & -> & -> & Hpm & _).
    repeat split; assumption. }
  destruct (kind =? "B")%char; [apply Hslide|].
  destruct (kind =? "Q")%char; [apply Hslide|].
  destruct (kind =? "K")%char; [|contradiction].
  intros (k & _ & Hm & _ & Hn & _).
  apply Move_init_ends in Hm. simpl in Hm.
  destruct Hm as (-> & -> & -> & -> & Hpm & _).
  repeat split; assumption.
Qed.

Lemma kingOffer_ends (b : Board) (white : bool) (r c : Z) (m : Move) :
  kingOffer b white r c m ->
  startRow m = r /\ startCol m = c
  /\ board_get b r c = Ok (pieceMoved m)
  /\ notAlly b (endRow m) (endCol m) (allyOf white).
Proof.
  intros (k & _ & Hm & _ & Hn & _).
  apply Move_init_ends in Hm. simpl in Hm.
  destruct Hm as (-> & -> & -> & -> & Hpm & _).
  repeat split; assumption.
Qed.

(** X11: no move that [getValidMoves] returns lands on a piece of the side
    to move: the destination square holds a string whose first character
    is not the mover's colour. *)
Theorem no_move_captures_own_piece (s s1 : GameState) (moves : list Move)
    (m : Move) :
  getValidMoves s = Ok (s1, moves) ->
  In m moves ->
  notAlly (board s) (endRow m) (endCol m) (allyColorOf s).
Proof.
  intros Hv Hin. apply getValidMoves_offers in Hv.
  rewrite Forall_forall in Hv. specialize (Hv _ Hin).
  rewrite allyColorOf_allyOf.
  destruct Hv as [(r & c & sq & kind & _ & _ & _ & _ & _ & Ho)|Hk].
  - apply pieceOffer_ends in Ho. apply Ho.
  - apply kingOffer_ends in Hk. apply Hk.
Qed.

Lemma no_move_captures_own_piece_witness :
  notAlly (board newGame) 5 2 "w".
Proof.
  destruct (getValidMoves newGame) as [[s1 moves]|e] eqn:Ev;
    [|vm_compute in Ev; discriminate].
  refine (no_move_captures_own_piece newGame s1 moves knightOut Ev _).
  vm_compute in Ev. inversion Ev; subst. simpl. tauto.
Defined.

Lemma kingAtCache_sq (s : GameState) :
  kingAtCache s ->
  Py.char (allyKing s) 0 = Ok (allyOf (whiteToMove s))
  /\ Py.char (allyKing s) 1 = Ok "K"%char.
Proof.
  intros _. unfold allyKing, allyOf. destruct (whiteToMove s); split;
    reflexivity.
Qed.

(** With the king on its cached square, every returned move is one the
    scan offers. *)
Lemma getValidMoves_offered (s s1 : GameState) (moves : list Move) :
  kingAtCache s ->
  getValidMoves s = Ok (s1, moves) ->
  Forall (offered (board s) (whiteToMove s)) moves.
Proof.
  intros (Hr & Hc & Hk) Hv. apply getValidMoves_offers in Hv.
  eapply Forall_impl; [|exact Hv].
  intros m [Ho|Ho]; [exact Ho|].
  destruct (kingAtCache_sq s (conj Hr (conj Hc Hk))) as [H0 H1].
  exists (fst (kingLocation s)), (snd (kingLocation s)), (allyKing s),
    "K"%char.
  repeat split; try assumption.
Qed.

(** X12: when the cached king square holds the mover's king, every move
    that [getValidMoves] returns starts on a square of the board scan that
    holds a piece of the side to move, and records that piece as
    [pieceMoved]. *)
Theorem moves_move_own_pieces (s s1 : GameState) (moves : list Move)
    (m : Move) :
  kingAtCache s ->
  getValidMoves s = Ok (s1, moves) ->
  In m moves ->
  0 <= startRow m /\ 0 <= startCol m
  /\ board_get (board s) (startRow m) (startCol m) = Ok (pieceMoved m)
  /\ Py.char (pieceMoved m) 0 = Ok (allyColorOf s).
Proof.
  intros HK Hv Hin.
  pose proof (getValidMoves_offered _ _ _ HK Hv) as Ho.
  rewrite Forall_forall in Ho. specialize (Ho _ Hin).
  destruct Ho as (r & c & sq & kind & Hr & Hc & Hsq & H0 & H1 & Ho).
  apply pieceOffer_ends in Ho. destruct Ho as (-> & -> & Hpm & _).
  rewrite Hsq in Hpm. inversion Hpm; subst sq.
  repeat split; assumption.
Qed.

Lemma kingAtCache_newGame : kingAtCache newGame.
Proof.
  unfold kingAtCache. simpl. repeat split; try lia.
Qed.

Lemma moves_move_own_pieces_witness :
  Py.char (pieceMoved knightOut) 0 = Ok (allyColorOf newGame).
Proof.
  destruct (getValidMoves newGame) as [[s1 moves]|e] eqn:Ev;
    [|vm_compute in Ev; discriminate].
  refine (proj2 (proj2 (proj2
            (moves_move_own_pieces newGame s1 moves knightOut
               kingAtCache_newGame Ev _)))).
  vm_compute in Ev. inversion Ev; subst. simpl. tauto.
Defined.

Lemma slideOffer_line (b : Board) e pp pd (ds : list (Z * Z)) r c m :
  slideOffer b e pp pd ds r c m ->
  exists d i,
    In d ds /\ 1 <= i <= 7
    /\ endRow m - startRow m = fst d * i
    /\ endCol m - startCol m = snd d * i.
Proof.
  intros (d & i & Hd & Hi & Hm & _).
  apply Move_init_ends in Hm. simpl in Hm.
  destruct Hm as (-> & -> & -> & -> & _).
  exists d, i. repeat split; try assumption; lia.
Qed.

Lemma rook_line (d : Z * Z) (i : Z) :
  In d rookDirections -> 1 <= i <= 7 -> rookLike (fst d * i) (snd d * i).
Proof.
  unfold rookLike. intros H Hi. simpl in H.
  destruct H as [<-|[<-|[<-|[<-|[]]]]]; cbn [fst snd]; lia.
Qed.

Lemma bishop_line (d : Z * Z) (i : Z) :
  In d bishopDirections -> 1 <= i <= 7 -> bishopLike (fst d * i) (snd d * i).
Proof.
  unfold bishopLike. intros H Hi. simpl in H.
  destruct H as [<-|[<-|[<-|[<-|[]]]]]; cbn [fst snd]; lia.
Qed.

Lemma pieceOffer_movesLike (b : Board) (white : bool) (kind : ascii)
    (r c : Z) (m : Move) :
  pieceOffer b white kind r c m ->
  movesLike kind white (endRow m - startRow m) (endCol m - startCol m).
Proof.
  unfold pieceOffer, movesLike.
  destruct (kind =? "p")%char.
  { intros (r' & c' & Hm & Hcase).
    apply Move_init_ends in Hm. simpl in Hm.
    destruct Hm as (-> & -> & -> & -> & _).
    destruct Hcase as [(-> & -> & _)
                      |[(-> & -> & _)
                       |(dc & Hdc & -> & -> & _)]]; lia. }
  destruct (kind =? "R")%char.
  { intros H. apply slideOffer_line in H.
    destruct H as (d & i & Hd & Hi & -> & ->). apply rook_line; assumption. }
  destruct (kind =? "N")%char.
  { intros (mv & Hmv & Hm & _).
    apply Move_init_ends in Hm. simpl in Hm.
    destruct Hm as (-> & -> & -> & -> & _).
    simpl in Hmv.
    destruct Hmv as [<-|[<-|[<-|[<-|[<-|[<-|[<-|[<-|[]]]]]]]]];
      cbn [fst snd]; lia. }
  destruct (kind =? "B")%char.
  { intros H. apply slideOffer_line in H.
    destruct H as (d & i & Hd & Hi & -> & ->). apply bishop_line; assumption. }
  destruct (kind =? "Q")%char.
  { intros H. apply slideOffer_line in H.
    destruct H as (d & i & Hd & Hi & -> & ->).
    apply in_app_or in Hd. destruct Hd as [Hd|Hd];
      [left; apply rook_line | right; apply bishop_line]; assumption. }
  destruct (kind =? "K")%char; [|contradiction].
  intros (k & Hk & Hm & _).
  apply Move_init_ends in Hm. simpl in Hm.
  destruct Hm as (-> & -> & -> & -> & _).
  simpl in Hk.
  destruct Hk as [<-|[<-|[<-|[<-|[<-|[<-|[<-|[<-|[]]]]]]]]];
    cbn [fst snd]; lia.
Qed.

Lemma offered_kind (b : Board) (white : bool) (m : Move) :
  offered b white m ->
  exists r c kind,
    0 <= r /\ 0 <= c /\ Py.char (pieceMoved m) 1 = Ok kind
    /\ board_get b r c = Ok (pieceMoved m)
    /\ pieceOffer b white kind r c m.
Proof.
  intros (r & c & sq & kind & Hr & Hc & Hsq & H0 & H1 & Ho).
  pose proof (pieceOffer_ends _ _ _ _ _ _ Ho) as (_ & _ & Hpm & _).
  rewrite Hsq in Hpm. inversion Hpm; subst sq.
  exists r, c, kind. repeat split; assumption.
Qed.

(** X13: when the cached king square holds the mover's king, every move
    that [getValidMoves] returns displaces its piece the way a piece of
    that kind moves: a pawn one or two rows forward or one row diagonally
    forward, a rook along a rank or file, a knight in an L, a bishop along
    a diagonal, a queen either way, a king to a neighbouring square. *)
Theorem moves_follow_piece_kind (s s1 : GameState) (moves : list Move)
    (m : Move) :
  kingAtCache s ->
  getValidMoves s = Ok (s1, moves) ->
  In m moves ->
  exists kind,
    Py.char (pieceMoved m) 1 = Ok kind
    /\ movesLike kind (whiteToMove s)
                 (endRow m - startRow m) (endCol m - startCol m).
Proof.
  intros HK Hv Hin.
  pose proof (getValidMoves_offered _ _ _ HK Hv) as Ho.
  rewrite Forall_forall in Ho. specialize (Ho _ Hin).
  apply offered_kind in Ho.
  destruct Ho as (r & c & kind & _ & _ & Hkind & _ & Ho).
  exists kind. split; [exact Hkind|].
  eapply pieceOffer_movesLike. exact Ho.
Qed.

Lemma moves_follow_piece_kind_witness :
  exists kind,
    Py.char (pieceMoved knightOut) 1 = Ok kind
    /\ movesLike kind true (5 - 7) (2 - 1).
Proof.
  destruct (getValidMoves newGame) as [[s1 moves]|e] eqn:Ev;
    [|vm_compute in Ev; discriminate].
  refine (moves_follow_piece_kind newGame s1 moves knightOut
            kingAtCache_newGame Ev _).
  vm_compute in Ev. inversion Ev; subst. simpl. tauto.
Defined.

Lemma board_get_on_board (b : Board) (r c : Z) (p : string) :
  wellFormedBoard b = true -> 0 <= r -> 0 <= c ->
  board_get b r c = Ok p -> r <= 7 /\ c <= 7.
Proof.
  intros Hwf Hr Hc H. apply wellFormedBoard_parts in Hwf.
  destruct Hwf as [Hlen Hrows].
  unfold board_get in H. apply bind_Ok in H. destruct H as (row & Er & Ec).
  apply (index_nonneg _ _ _ Hr) in Er. apply (index_nonneg _ _ _ Hc) in Ec.
  assert (Hl : length row = 8%nat)
    by (apply (Hrows row); eapply nth_error_In; exact Er).
  assert (H1 : (Z.to_nat r < 8)%nat)
    by (rewrite <- Hlen; apply nth_error_Some; congruence).
  assert (H2 : (Z.to_nat c < 8)%nat)
    by (rewrite <- Hl; apply nth_error_Some; congruence).
  lia.
Qed.

Lemma onBoard_iff (r c : Z) :
  onBoard r c = true <-> 0 <= r <= 7 /\ 0 <= c <= 7.
Proof.
  unfold onBoard. rewrite !andb_true_iff, !Z.leb_le, !Z.ltb_lt. lia.
Qed.

Lemma direction_small (d : Z * Z) :
  In d (rookDirections ++ bishopDirections) ->
  -1 <= fst d <= 1 /\ -1 <= snd d <= 1.
Proof.
  intros H. simpl in H.
  destruct H as [<-|[<-|[<-|[<-|[<-|[<-|[<-|[<-|[]]]]]]]]]; cbn [fst snd]; lia.
Qed.

(** X14: on a well-formed board with the king on its cached square, a
    rook, bishop or queen move that [getValidMoves] returns runs along one
    of the eight directions, and every square strictly between its start
    and its destination is empty. *)
Theorem sliding_moves_do_not_jump (s s1 : GameState) (moves : list Move)
    (m : Move) (kind : ascii) :
  wellFormedBoard (board s) = true ->
  kingAtCache s ->
  getValidMoves s = Ok (s1, moves) ->
  In m moves ->
  Py.char (pieceMoved m) 1 = Ok kind ->
  In kind ["R"%char; "B"%char; "Q"%char] ->
  exists d i,
    In d (rookDirections ++ bishopDirections) /\ 1 <= i <= 7
    /\ endRow m = startRow m + fst d * i
    /\ endCol m = startCol m + snd d * i
    /\ forall j, 1 <= j < i ->
         isEmpty (board s) (startRow m + fst d * j) (startCol m + snd d * j).
Proof.
  intros Hwf HK Hv Hin Hkind Hslider.
  pose proof (getValidMoves_offered _ _ _ HK Hv) as Ho.
  rewrite Forall_forall in Ho. specialize (Ho _ Hin).
  apply offered_kind in Ho.
  destruct Ho as (r & c & kind' & Hr & Hc & Hkind' & Hpm & Ho).
  rewrite Hkind in Hkind'. inversion Hkind'; subst kind'. clear Hkind'.
  assert (Hs : slideOffer (board s) (enemyOf (whiteToMove s)) false None
                 (rookDirections ++ bishopDirections) r c m).
  { unfold pieceOffer in Ho. simpl in Hslider.
    destruct Hslider as [<-|[<-|[<-|[]]]]; simpl in Ho.
    - eapply slideOffer_more; [|exact Ho].
      intros d Hd. apply in_or_app. left. exact Hd.
    - eapply slideOffer_more; [|exact Ho].
      intros d Hd. apply in_or_app. right. exact Hd.
    - exact Ho. }
  destruct (board_get_on_board _ _ _ _ Hwf Hr Hc Hpm) as [Hr7 Hc7].
  destruct Hs as (d & i & Hd & Hi & Hm & Hon & _ & _ & Hpass).
  apply Move_init_ends in Hm. simpl in Hm.
  destruct Hm as (-> & -> & -> & -> & _).
  exists d, i. split; [exact Hd|]. split; [exact Hi|].
  split; [reflexivity|]. split; [reflexivity|].
  intros j Hj. destruct (Hpass j Hj) as [Hoff|He]; [|exact He].
  apply onBoard_iff in Hon. apply direction_small in Hd.
  assert (Honj : onBoard (r + fst d * j) (c + snd d * j) = true).
  { apply onBoard_iff. nia. }
  congruence.
Qed.

Lemma sliding_moves_do_not_jump_witness :
  exists d i,
    In d (rookDirections ++ bishopDirections) /\ 1 <= i <= 7
    /\ 5 = 7 + fst d * i /\ 3 = 5 + snd d * i
    /\ forall j, 1 <= j < i ->
         isEmpty (board afterOpening) (7 + fst d * j) (5 + snd d * j).
Proof.
  destruct (getValidMoves afterOpening) as [[s1 moves]|e] eqn:Ev;
    [|vm_compute in Ev; discriminate].
  refine (sliding_moves_do_not_jump afterOpening s1 moves bishopOut "B"
            _ _ Ev _ _ _).
  - vm_compute. reflexivity.
  - unfold kingAtCache. simpl. repeat split; lia.
  - vm_compute in Ev. inversion Ev; subst. simpl. tauto.
  - reflexivity.
  - simpl. tauto.
Defined.

(** X15: a king move that [getValidMoves] returns goes to a square on
    which the detector, run on the unchanged board with the mover's king
    cache set to that square, reports no check. *)
Theorem king_moves_pass_the_detector (s s1 : GameState) (moves : list Move)
    (m : Move) :
  getValidMoves s = Ok (s1, moves) ->
  In m moves ->
  Py.char (pieceMoved m) 1 = Ok "K"%char ->
  exists ps cs,
    checksForPinsAndChecks (placeKing s (allyColorOf s) (endRow m, endCol m))
    = Ok (false, ps, cs).
Proof.
  intros Hv Hin HK. apply getValidMoves_offers in Hv.
  rewrite Forall_forall in Hv. specialize (Hv _ Hin).
  assert (Hk : exists r c, kingOffer (board s) (whiteToMove s) r c m).
  { destruct Hv as [Ho|Ho]; [|eauto].
    apply offered_kind in Ho.
    destruct Ho as (r & c & kind & _ & _ & Hkind & _ & Ho).
    rewrite HK in Hkind. inversion Hkind; subst kind.
    exists r, c. exact Ho. }
  destruct Hk as (r & c & k & _ & Hm & _ & _ & ps & cs & Hd).
  apply Move_init_ends in Hm. simpl in Hm.
  destruct Hm as (_ & _ & -> & -> & _).
  exists ps, cs. rewrite checksForPinsAndChecks_detectAt.
  rewrite allyColorOf_allyOf.
  destruct (placeKing_fields s (whiteToMove s) (r + fst k, c + snd k) eq_refl)
    as (-> & -> & ->).
  exact Hd.
Qed.

Lemma king_moves_pass_the_detector_witness :
  exists s1 moves m ps cs,
    getValidMoves doubleCheck = Ok (s1, moves) /\ In m moves
    /\ checksForPinsAndChecks
         (placeKing doubleCheck "w" (endRow m, endCol m))
       = Ok (false, ps, cs).
Proof.
  destruct (getValidMoves doubleCheck) as [[s1 moves]|e] eqn:Ev;
    [|vm_compute in Ev; discriminate].
  destruct moves as [|m rest] eqn:Em; [vm_compute in Ev; discriminate|].
  assert (Hin : In m (m :: rest)) by (left; reflexivity).
  assert (HK : Py.char (pieceMoved m) 1 = Ok "K"%char).
  { vm_compute in Ev. inversion Ev; subst. reflexivity. }
  destruct (king_moves_pass_the_detector doubleCheck s1 (m :: rest) m
              Ev Hin HK) as (ps & cs & Hd).
  exists s1, (m :: rest), m, ps, cs.
  split; [reflexivity|]. split; [exact Hin | exact Hd].
Defined.

(** X16: when the cached king square holds the mover's king, a pawn move
    that [getValidMoves] returns either stays on its file and lands on an
    empty square, one row forward or, from the pawn's home row and over an
    empty square, two rows forward; or goes one row forward to a
    neighbouring file and lands on a piece of the other colour. *)
Theorem pawn_moves_by_the_rules (s s1 : GameState) (moves : list Move)
    (m : Move) :
  kingAtCache s ->
  getValidMoves s = Ok (s1, moves) ->
  In m moves ->
  Py.char (pieceMoved m) 1 = Ok "p"%char ->
  (endCol m = startCol m /\ pieceCaptured m = "--"
   /\ (endRow m = startRow m + forwardOf (whiteToMove s)
       \/ (endRow m = startRow m + 2 * forwardOf (whiteToMove s)
           /\ startRow m = homeOf (whiteToMove s)
           /\ isEmpty (board s) (startRow m + forwardOf (whiteToMove s))
                      (startCol m))))
  \/ ((endCol m = startCol m + 1 \/ endCol m = startCol m - 1)
      /\ endRow m = startRow m + forwardOf (whiteToMove s)
      /\ Py.char (pieceCaptured m) 0 = Ok (enemyColorOf s)).
Proof.
  intros HK Hv Hin Hp.
  pose proof (getValidMoves_offered _ _ _ HK Hv) as Ho.
  rewrite Forall_forall in Ho. specialize (Ho _ Hin).
  apply offered_kind in Ho.
  destruct Ho as (r & c & kind & _ & _ & Hkind & _ & Ho).
  rewrite Hp in Hkind. inversion Hkind; subst kind. clear Hkind.
  unfold pieceOffer in Ho. simpl in Ho.
  destruct Ho as (r' & c' & Hm & Hcase).
  apply Move_init_ends in Hm. simpl in Hm.
  destruct Hm as (-> & -> & -> & -> & _ & Hpc).
  destruct Hcase as [(-> & -> & He & _)
                    |[(-> & -> & Hh & He1 & He2 & _)
                     |(dc & Hdc & -> & -> & (p & Hget & Hcol) & _)]].
  - left. unfold isEmpty in He. rewrite He in Hpc. inversion Hpc.
    repeat split. left. reflexivity.
  - left. unfold isEmpty in He2. rewrite He2 in Hpc. inversion Hpc.
    repeat split. right. repeat split; assumption.
  - right. rewrite Hget in Hpc. inversion Hpc; subst p.
    split; [|split; [reflexivity | exact Hcol]].
    destruct Hdc as [[-> _]|[-> _]]; [right | left]; lia.
Qed.

Lemma pawn_moves_by_the_rules_witness :
  (endCol kingPawnTwo = startCol kingPawnTwo
   /\ pieceCaptured kingPawnTwo = "--"
   /\ (endRow kingPawnTwo = startRow kingPawnTwo + forwardOf true
       \/ (endRow kingPawnTwo = startRow kingPawnTwo + 2 * forwardOf true
           /\ startRow kingPawnTwo = homeOf true
           /\ isEmpty (board newGame) (startRow kingPawnTwo + forwardOf true)
                      (startCol kingPawnTwo))))
  \/ ((endCol kingPawnTwo = startCol kingPawnTwo + 1
       \/ endCol kingPawnTwo = startCol kingPawnTwo - 1)
      /\ endRow kingPawnTwo = startRow kingPawnTwo + forwardOf true
      /\ Py.char (pieceCaptured kingPawnTwo) 0 = Ok (enemyColorOf newGame)).
Proof.
  destruct (getValidMoves newGame) as [[s1 moves]|e] eqn:Ev;
    [|vm_compute in Ev; discriminate].
  refine (pawn_moves_by_the_rules newGame s1 moves kingPawnTwo
            kingAtCache_newGame Ev _ _).
  - vm_compute in Ev. inversion Ev; subst. simpl. tauto.
  - reflexivity.
Defined.

(** ** Pieces with a recorded pin *)

Lemma findPin_finds (pins : list Quad) (r c : Z) :
  forall k,
    (k <= length pins)%nat ->
    (exists i q, (i < k)%nat /\ nth_error pins i = Some q /\ pinOn r c q) ->
    exists q', findPin pins r c (Py.down k) = Ok (Some q')
               /\ In q' pins /\ pinOn r c q'.
Proof.
  induction k as [|k IH]; intros Hk (i & q & Hi & Hq & Hon); [lia|].
  rewrite down_S. cbn [findPin].
  destruct (index_total pins (Z.of_nat k)) as (p & Ep & Hin); [lia|].
  rewrite Ep. cbn [bind]. destruct p as [[[pr pc] dr] dc].
  destruct ((pr =? r) && (pc =? c)) eqn:E.
  - apply andb_true_iff in E. destruct E as [E1 E2].
    apply Z.eqb_eq in E1, E2.
    eexists. split; [reflexivity|]. split; [exact Hin|]. split; assumption.
  - apply IH; [lia|].
    exists i, q. split; [|split; assumption].
    destruct (Nat.eq_dec i k) as [->|Hne]; [|lia].
    apply index_of_nat in Ep. rewrite Ep in Hq. inversion Hq; subst q.
    destruct Hon as [-> ->]. rewrite !Z.eqb_refl in E. discriminate.
Qed.

Lemma findPin_entry (pins : list Quad) (r c : Z) :
  (exists q, In q pins /\ pinOn r c q) ->
  exists q', findPin pins r c (Py.down (length pins)) = Ok (Some q')
             /\ In q' pins /\ pinOn r c q'.
Proof.
  intros (q & Hin & Hon). apply findPin_finds; [lia|].
  apply In_nth_error in Hin. destruct Hin as (i & Hi).
  exists i, q. split; [|split; assumption].
  apply nth_error_Some. congruence.
Qed.

Lemma remove_length {A : Type} (eqb : A -> A -> bool) (x : A) (l : list A) :
  forall l', Py.remove eqb x l = Ok l' -> length l = S (length l').
Proof.
  induction l as [|h t IH]; intros l' H; simpl in H; [discriminate|].
  destruct (eqb h x).
  - inversion H; subst. reflexivity.
  - apply bind_Ok in H. destruct H as (t' & Et & H). inversion H; subst.
    simpl. f_equal. apply IH. exact Et.
Qed.

Lemma knightLoop_pinned b a r c ms :
  forall moves moves',
    knightLoop b a r c true ms moves = Ok moves' -> moves' = moves.
Proof.
  induction ms as [|mv rest IH]; intros moves moves' H; cbn [knightLoop] in H.
  - inversion H; reflexivity.
  - cbv zeta in H. cbn [negb] in H.
    destruct (onBoard (r + fst mv) (c + snd mv)); apply IH; exact H.
Qed.

(** X17: a knight whose square has an entry in [self.pins] is given no
    move at all by [getKnightMoves], and one entry of [self.pins] is used
    up by the call. *)
Theorem pinned_knight_has_no_moves (s s' : GameState) (r c : Z)
    (moves moves' : list Move) :
  (exists q, In q (pins s) /\ pinOn r c q) ->
  getKnightMoves s r c moves = Ok (s', moves') ->
  moves' = moves /\ length (pins s) = S (length (pins s')).
Proof.
  intros Hpin H. unfold getKnightMoves in H.
  apply bind_Ok in H. destruct H as ([[pp pd] s1] & Et & H).
  apply bind_Ok in H. destruct H as (moves1 & El & H).
  inversion H; subst s1 moves1. clear H.
  unfold takePin in Et.
  destruct (findPin_entry _ _ _ Hpin) as (q' & Ef & _ & _).
  rewrite Ef in Et. cbn [bind] in Et.
  apply bind_Ok in Et. destruct Et as (pins' & Er & Et).
  inversion Et; subst pp pd s'. clear Et.
  split; [eapply knightLoop_pinned; exact El|].
  simpl. eapply remove_length. exact Er.
Qed.

Lemma pinned_knight_has_no_moves_witness :
  exists s',
    getKnightMoves knightPinnedByHand 7 1 [] = Ok (s', [])
    /\ length (pins knightPinnedByHand) = S (length (pins s')).
Proof.
  destruct (getKnightMoves knightPinnedByHand 7 1 []) as [[s' moves']|e]
    eqn:Eg; [|vm_compute in Eg; discriminate].
  destruct (pinned_knight_has_no_moves knightPinnedByHand s' 7 1 [] moves')
    as [-> Hlen].
  - exists (7, 1, 0, -1). split; [left; reflexivity | split; reflexivity].
  - exact Eg.
  - exists s'. split; [reflexivity | exact Hlen].
Defined.

Lemma takePin_found (s s1 : GameState) (r c : Z) pp pd :
  (exists q, In q (pins s) /\ pinOn r c q) ->
  takePin s r c = Ok (pp, pd, s1) ->
  pp = true
  /\ exists q', In q' (pins s) /\ pinOn r c q' /\ pd = Some (pinAxis q').
Proof.
  intros Hpin Et. unfold takePin in Et.
  destruct (findPin_entry _ _ _ Hpin) as (q' & Ef & Hin & Hon).
  rewrite Ef in Et. cbn [bind] in Et.
  apply bind_Ok in Et. destruct Et as (pins' & Er & Et).
  inversion Et; subst. split; [reflexivity|]. eauto.
Qed.

Lemma takePinRook_found (s s1 : GameState) (r c : Z) pp pd :
  (exists q, In q (pins s) /\ pinOn r c q) ->
  takePinRook s r c = Ok (pp, pd, s1) ->
  pp = true
  /\ (exists q', In q' (pins s) /\ pinOn r c q' /\ pd = Some (pinAxis q'))
  /\ (kindAt (board s) r c "Q" -> s1 = s).
Proof.
  intros Hpin Et. unfold takePinRook in Et.
  destruct (findPin_entry _ _ _ Hpin) as (q' & Ef & Hin & Hon).
  rewrite Ef in Et. cbn [bind] in Et.
  apply bind_Ok in Et. destruct Et as (piece & Ep & Et).
  apply bind_Ok in Et. destruct Et as (kind & Ek & Et).
  destruct (negb (kind =? "Q")%char) eqn:EQ.
  - apply bind_Ok in Et. destruct Et as (pins' & Er & Et).
    inversion Et; subst. split; [reflexivity|]. split; [eauto|].
    intros (p & Hp & Hk). rewrite Ep in Hp. inversion Hp; subst p.
    rewrite Ek in Hk. inversion Hk; subst kind. discriminate.
  - inversion Et; subst. split; [reflexivity|]. split; [eauto|].
    intros _. reflexivity.
Qed.

Lemma pinned_slideOffer_axis (b : Board) e (ds : list (Z * Z))
    (r c a0 a1 : Z) (m : Move) :
  slideOffer b e true (Some (a0, a1)) ds r c m -> alongAxis r c a0 a1 m.
Proof.
  intros (d & i & _ & Hi & Hm & _ & Hpin & _).
  apply Move_init_ends in Hm. simpl in Hm.
  destruct Hm as (_ & _ & Her & Hec & _).
  unfold pinAllowsLine, axis_is in Hpin. cbn [negb orb] in Hpin.
  unfold alongAxis.
  apply orb_true_iff in Hpin. destruct Hpin as [E|E];
    apply sq_eqb_eq in E; inversion E; subst.
  - exists i. split; [lia|]. split; assumption.
  - exists (- i). split; [lia|]. split; lia.
Qed.

Lemma pinned_slideRays (b : Board) e (ds : list (Z * Z)) (r c a0 a1 : Z)
    (old moves moves' : list Move) :
  slideRays b e r c true (Some (a0, a1)) ds moves = Ok moves' ->
  Forall (fun m => In m old \/ alongAxis r c a0 a1 m) moves ->
  Forall (fun m => In m old \/ alongAxis r c a0 a1 m) moves'.
Proof.
  intros H HF.
  eapply (slideRays_offers b r c _ e true (Some (a0, a1)) ds);
    [| | exact H | exact HF].
  - intros m Hm. right. eapply pinned_slideOffer_axis. exact Hm.
  - intros d Hd. exact Hd.
Qed.

Lemma Forall_In_self {A : Type} (l : list A) (P : A -> Prop) :
  Forall (fun x => In x l \/ P x) l.
Proof. apply Forall_forall. intros x Hx. left. exact Hx. Qed.

(** X18: a rook or bishop generator run for a square that has an entry in
    [self.pins] appends only moves along the axis of that entry, in either
    direction; so does the queen generator when the square holds a queen,
    for which the rook half leaves the entry to the bishop half. *)
Theorem pinned_slider_keeps_to_the_axis (gen : Generator) (queen : bool)
    (s s' : GameState) (r c a0 a1 : Z) (moves moves' : list Move) :
  In (gen, queen) slidingGenerators ->
  (queen = true -> kindAt (board s) r c "Q") ->
  (exists q, In q (pins s) /\ pinOn r c q) ->
  (forall q, In q (pins s) -> pinOn r c q -> pinAxis q = (a0, a1)) ->
  gen s r c moves = Ok (s', moves') ->
  forall m, In m moves' -> In m moves \/ alongAxis r c a0 a1 m.
Proof.
  intros Hgen Hq Hpin Haxis Hrun.
  assert (HR : forall s s' old moves moves',
             (exists q, In q (pins s) /\ pinOn r c q) ->
             (forall q, In q (pins s) -> pinOn r c q ->
                        pinAxis q = (a0, a1)) ->
             getRookMoves s r c moves = Ok (s', moves') ->
             Forall (fun m => In m old \/ alongAxis r c a0 a1 m) moves ->
             Forall (fun m => In m old \/ alongAxis r c a0 a1 m) moves'
             /\ (kindAt (board s) r c "Q" -> s' = s)).
  { clear. intros s s' old moves moves' Hpin Haxis H HF.
    unfold getRookMoves in H.
    apply bind_Ok in H. destruct H as ([[pp pd] s1] & Et & H).
    apply bind_Ok in H. destruct H as (moves1 & El & H).
    inversion H; subst s1 moves1. clear H.
    destruct (takePinRook_found _ _ _ _ _ _ Hpin Et)
      as (-> & (q' & Hin & Hon & ->) & Hsame).
    rewrite (Haxis _ Hin Hon) in El.
    split; [eapply pinned_slideRays; eassumption | exact Hsame]. }
  assert (HB : forall s s' old moves moves',
             (exists q, In q (pins s) /\ pinOn r c q) ->
             (forall q, In q (pins s) -> pinOn r c q ->
                        pinAxis q = (a0, a1)) ->
             getBishopMoves s r c moves = Ok (s', moves') ->
             Forall (fun m => In m old \/ alongAxis r c a0 a1 m) moves ->
             Forall (fun m => In m old \/ alongAxis r c a0 a1 m) moves').
  { clear. intros s s' old moves moves' Hpin Haxis H HF.
    unfold getBishopMoves in H.
    apply bind_Ok in H. destruct H as ([[pp pd] s1] & Et & H).
    apply bind_Ok in H. destruct H as (moves1 & El & H).
    inversion H; subst s1 moves1. clear H.
    destruct (takePin_found _ _ _ _ _ _ Hpin Et)
      as (-> & (q' & Hin & Hon & ->)).
    rewrite (Haxis _ Hin Hon) in El.
    eapply pinned_slideRays; eassumption. }
  assert (Hall : Forall (fun m => In m moves \/ alongAxis r c a0 a1 m) moves')
    ; [|intros m Hm; rewrite Forall_forall in Hall; apply Hall; exact Hm].
  simpl in Hgen.
  destruct Hgen as [E|[E|[E|[]]]]; inversion E; subst gen queen; clear E.
  - apply (HR s s' moves moves moves' Hpin Haxis Hrun).
    apply Forall_In_self.
  - apply (HB s s' moves moves moves' Hpin Haxis Hrun).
    apply Forall_In_self.
  - unfold getQueenMoves in Hrun.
    apply bind_Ok in Hrun. destruct Hrun as ([s1 moves1] & E1 & E2).
    destruct (HR s s1 moves moves moves1 Hpin Haxis E1 (Forall_In_self _ _))
      as [HF1 Hsame].
    specialize (Hsame (Hq eq_refl)). subst s1.
    apply (HB s s' moves moves1 moves' Hpin Haxis E2 HF1).
Qed.

Lemma pinned_slider_keeps_to_the_axis_witness :
  exists s' moves',
    getBishopMoves bishopPinnedByHand 7 5 [] = Ok (s', moves')
    /\ forall m, In m moves' -> In m [] \/ alongAxis 7 5 (-1) (-1) m.
Proof.
  destruct (getBishopMoves bishopPinnedByHand 7 5 []) as [[s' moves']|e]
    eqn:Eg; [|vm_compute in Eg; discriminate].
  exists s', moves'. split; [reflexivity|].
  apply (pinned_slider_keeps_to_the_axis getBishopMoves false
           bishopPinnedByHand s' 7 5 (-1) (-1) [] moves').
  - simpl. tauto.
  - discriminate.
  - exists (7, 5, -1, -1). split; [left; reflexivity | split; reflexivity].
  - intros q [<-|[]] _. reflexivity.
  - exact Eg.
Defined.

(** ** Runs that cannot fail *)

Lemma index_In {A : Type} (l : list A) (i : Z) (x : A) :
  Py.index l i = Ok x -> In x l.
Proof.
  unfold Py.index. intros H.
  destruct (Py.norm (Z.of_nat (length l)) i <? 0); [discriminate|].
  destruct (nth_error l (Z.to_nat (Py.norm (Z.of_nat (length l)) i))) eqn:E;
    [|discriminate].
  inversion H; subst. eapply nth_error_In; exact E.
Qed.

Lemma knownSquare_cases (p : string) :
  knownSquare p = true ->
  p = "--"
  \/ exists a k,
       p = String a (String k EmptyString)
       /\ (a = "w"%char \/ a = "b"%char) /\ In k kinds.
Proof.
  unfold knownSquare, pieces. cbn [existsb].
  rewrite !orb_true_iff, !String.eqb_eq.
  intros H.
  repeat (destruct H as [H|H]); subst;
    try (left; reflexivity);
    try discriminate;
    right; do 2 eexists; (split; [reflexivity|]);
    (split; [(left; reflexivity) || (right; reflexivity)|]);
    unfold kinds; simpl; tauto.
Qed.

Lemma standardBoard_parts (b : Board) :
  standardBoard b = true ->
  wellFormedBoard b = true
  /\ forall r c p, board_get b r c = Ok p -> knownSquare p = true.
Proof.
  unfold standardBoard, wellFormedBoard.
  rewrite !andb_true_iff, !forallb_forall. intros [Hlen Hrows]. split.
  - split; [exact Hlen|]. intros row Hin. specialize (Hrows _ Hin).
    rewrite andb_true_iff, forallb_forall in *.
    destruct Hrows as [Hl Hp]. split; [exact Hl|].
    intros p Hp'. specialize (Hp _ Hp'). apply knownSquare_cases in Hp.
    destruct Hp as [->|(a & k & -> & _)]; reflexivity.
  - intros r c p H. unfold board_get in H. run.
    apply index_In in E, H. specialize (Hrows _ E).
    rewrite andb_true_iff, forallb_forall in Hrows.
    apply Hrows. exact H.
Qed.

Lemma moveFunction_total (k : ascii) :
  In k kinds ->
  exists gen,
    moveFunction k = Ok gen
    /\ ((k = "p"%char /\ gen = getPawnMoves)
        \/ (k <> "p"%char /\ In gen officerGenerators)).
Proof.
  unfold kinds, officerGenerators. intros H. simpl in H.
  repeat (destruct H as [H|H]); try contradiction; subst k;
    eexists; (split; [reflexivity|]);
    [left; split; reflexivity | right .. ];
    (split; [discriminate | simpl; tauto]).
Qed.
Lemma on_board_get (b : Board) (r c : Z) :
  wellFormedBoard b = true -> onBoard r c = true ->
  exists p a k,
    board_get b r c = Ok p /\ Py.char p 0 = Ok a /\ Py.char p 1 = Ok k.
Proof.
  intros Hwf Hon. apply onBoard_iff in Hon.
  destruct (board_get_total b r c Hwf) as (p & Ep & Hl); [lia | lia |].
  destruct (char_total p 0) as (a & Ea); [lia|].
  destruct (char_total p 1) as (k & Ek); [lia|].
  eauto 6.
Qed.

Lemma scanRay_total (b : Board) (ally enemy : ascii) (kr kc j : Z)
    (d : Z * Z) (steps : list Z) :
  wellFormedBoard b = true ->
  forall pp ic cs,
    exists ic' cs',
      scanRay b ally enemy kr kc j d steps pp ic cs = Ok (ic', cs').
Proof.
  intros Hwf. induction steps as [|i rest IH]; intros pp ic cs;
    cbn [scanRay]; [eauto|].
  cbv zeta.
  destruct (onBoard (kr + fst d * i) (kc + snd d * i)) eqn:Eon; [|eauto].
  destruct (on_board_get b _ _ Hwf Eon) as (p & a & k & Ep & Ea & Ek).
  rewrite Ep. cbn [bind]. rewrite Ea. cbn [bind].
  destruct ((a =? ally)%char && negb (p =? "K")%string).
  - destruct pp; [eauto | apply IH].
  - destruct (a =? enemy)%char; [|apply IH].
    rewrite Ek. cbn [bind].
    destruct (attacks enemy j i k); [|eauto].
    destruct pp; [apply IH | eauto].
Qed.

Lemma scanRays_total (b : Board) (ally enemy : ascii) (kr kc : Z)
    (ds : list (Z * (Z * Z))) :
  wellFormedBoard b = true ->
  forall ic cs,
    exists ic' cs', scanRays b ally enemy kr kc ds ic cs = Ok (ic', cs').
Proof.
  intros Hwf. induction ds as [|[j d] rest IH]; intros ic cs;
    cbn [scanRays]; [eauto|].
  destruct (scanRay_total b ally enemy kr kc j d (Py.range 1 8) Hwf None ic cs)
    as (ic1 & cs1 & E1).
  rewrite E1. cbn [bind]. apply IH.
Qed.

Lemma scanKnights_total (b : Board) (enemy : ascii) (kr kc : Z)
    (ms : list (Z * Z)) :
  wellFormedBoard b = true ->
  forall ic cs,
    exists ic' cs', scanKnights b enemy kr kc ms ic cs = Ok (ic', cs').
Proof.
  intros Hwf. induction ms as [|m rest IH]; intros ic cs;
    cbn [scanKnights]; [eauto|].
  cbv zeta.
  destruct (onBoard (kr + fst m) (kc + snd m)) eqn:Eon; [|apply IH].
  destruct (on_board_get b _ _ Hwf Eon) as (p & a & k & Ep & Ea & Ek).
  rewrite Ep. cbn [bind]. rewrite Ea. cbn [bind].
  destruct (a =? enemy)%char; [|apply IH].
  rewrite Ek. cbn [bind].
  destruct (k =? "N")%char; apply IH.
Qed.

Lemma checksForPinsAndChecks_total (s : GameState) :
  wellFormedBoard (board s) = true ->
  exists ic cs, checksForPinsAndChecks s = Ok (ic, [], cs).
Proof.
  intros Hwf. unfold checksForPinsAndChecks. cbv zeta.
  destruct (scanRays_total (board s) (allyColorOf s) (enemyColorOf s)
              (fst (kingLocation s)) (snd (kingLocation s)) directions
              Hwf false []) as (ic1 & cs1 & E1).
  rewrite E1. cbn [bind].
  destruct (scanKnights_total (board s) (enemyColorOf s)
              (fst (kingLocation s)) (snd (kingLocation s)) knightMoves
              Hwf ic1 cs1) as (ic2 & cs2 & E2).
  rewrite E2. cbn [bind]. eauto.
Qed.

(** *** The generators *)

Lemma append_move_on_board (b : Board) (r c r' c' : Z) (moves : list Move) :
  wellFormedBoard b = true ->
  onBoard r c = true -> onBoard r' c' = true ->
  exists moves', append_move b r c r' c' moves = Ok moves'.
Proof.
  intros Hwf H H'. apply onBoard_iff in H, H'.
  destruct (append_move_total b r c r' c' moves Hwf) as (m & E & _);
    try lia.
  eauto.
Qed.

Lemma slideRay_total (b : Board) (e : ascii) (r c : Z) (pp : bool)
    (pd : option (Z * Z)) (d : Z * Z) (steps : list Z) :
  wellFormedBoard b = true -> onBoard r c = true ->
  forall moves, exists moves',
    slideRay b e r c pp pd d steps moves = Ok moves'.
Proof.
  intros Hwf Hrc. induction steps as [|i rest IH]; intros moves;
    cbn [slideRay]; [eauto|].
  cbv zeta.
  destruct (onBoard (r + fst d * i) (c + snd d * i)) eqn:Eon; [|apply IH].
  destruct (negb pp || axis_is pd d || axis_is pd (- fst d, - snd d));
    [|eauto].
  destruct (on_board_get b _ _ Hwf Eon) as (p & a & k & Ep & Ea & Ek).
  rewrite Ep. cbn [bind].
  destruct (append_move_on_board b r c _ _ moves Hwf Hrc Eon) as (m1 & E1).
  destruct (p =? "--")%string.
  - rewrite E1. cbn [bind]. apply IH.
  - rewrite Ea. cbn [bind]. destruct (a =? e)%char; eauto.
Qed.

Lemma slideRays_total (b : Board) (e : ascii) (r c : Z) (pp : bool)
    (pd : option (Z * Z)) (ds : list (Z * Z)) :
  wellFormedBoard b = true -> onBoard r c = true ->
  forall moves, exists moves',
    slideRays b e r c pp pd ds moves = Ok moves'.
Proof.
  intros Hwf Hrc. induction ds as [|d rest IH]; intros moves;
    cbn [slideRays]; [eauto|].
  destruct (slideRay_total b e r c pp pd d (Py.range 1 8) Hwf Hrc moves)
    as (m1 & E1).
  rewrite E1. cbn [bind]. apply IH.
Qed.

Lemma knightLoop_total (b : Board) (a : ascii) (r c : Z) (pp : bool)
    (ms : list (Z * Z)) :
  wellFormedBoard b = true -> onBoard r c = true ->
  forall moves, exists moves', knightLoop b a r c pp ms moves = Ok moves'.
Proof.
  intros Hwf Hrc. induction ms as [|m rest IH]; intros moves;
    cbn [knightLoop]; [eauto|].
  cbv zeta.
  destruct (onBoard (r + fst m) (c + snd m)) eqn:Eon; [|apply IH].
  destruct (negb pp); [|apply IH].
  destruct (on_board_get b _ _ Hwf Eon) as (p & a0 & k & Ep & Ea & Ek).
  rewrite Ep. cbn [bind]. rewrite Ea. cbn [bind].
  destruct (negb (a0 =? a)%char); [|apply IH].
  destruct (append_move_on_board b r c _ _ moves Hwf Hrc Eon) as (m1 & E1).
  rewrite E1. cbn [bind]. apply IH.
Qed.

Lemma placeKing_keeps_board (s : GameState) (a : ascii) (q : Square) :
  board (placeKing s a q) = board s.
Proof. unfold placeKing. destruct (a =? "w")%char; reflexivity. Qed.

Lemma kingLoop_total (a : ascii) (r c : Z) (ks : list (Z * Z)) :
  onBoard r c = true ->
  forall s moves,
    wellFormedBoard (board s) = true ->
    exists s' moves', kingLoop s a r c ks moves = Ok (s', moves').
Proof.
  intros Hrc. induction ks as [|k rest IH]; intros s moves Hwf;
    cbn [kingLoop]; [eauto|].
  cbv zeta.
  destruct (onBoard (r + fst k) (c + snd k)) eqn:Eon; [|apply IH; exact Hwf].
  destruct (on_board_get (board s) _ _ Hwf Eon) as (p & a0 & k0 & Ep & Ea & Ek).
  rewrite Ep. cbn [bind]. rewrite Ea. cbn [bind].
  destruct (negb (a0 =? a)%char); [|apply IH; exact Hwf].
  set (s1 := placeKing s a (r + fst k, c + snd k)).
  assert (Hb1 : board s1 = board s) by apply placeKing_keeps_board.
  destruct (checksForPinsAndChecks_total s1) as (ic & cs & Ed);
    [rewrite Hb1; exact Hwf|].
  rewrite Ed. cbn [bind].
  assert (Hm : exists moves1,
             (if negb ic
              then append_move (board s1) r c (r + fst k) (c + snd k) moves
              else Ok moves) = Ok moves1).
  { destruct (negb ic); [|eauto].
    apply append_move_on_board; [rewrite Hb1; exact Hwf | exact Hrc | exact Eon]. }
  destruct Hm as (moves1 & Em). rewrite Em. cbn [bind].
  apply IH. rewrite placeKing_keeps_board, Hb1. exact Hwf.
Qed.

Lemma takePinRook_total (s : GameState) (r c : Z) :
  wellFormedBoard (board s) = true -> onBoard r c = true ->
  exists pp pd s1, takePinRook s r c = Ok (pp, pd, s1) /\ onlyPins s s1.
Proof.
  intros Hwf Hrc. unfold takePinRook.
  destruct (findPin_total (pins s) r c (Py.down (length (pins s)))
              (down_lt _)) as (res & Er & Hres).
  rewrite Er. cbn [bind]. destruct res as [p|].
  - destruct (on_board_get (board s) _ _ Hwf Hrc) as (q & a & k & Eq & Ea & Ek).
    rewrite Eq. cbn [bind]. rewrite Ek. cbn [bind].
    destruct (negb (k =? "Q")%char).
    + destruct (remove_total quad_eqb p (pins s) quad_eqb_refl
                  (Hres _ eq_refl)) as (l' & El).
      rewrite El. cbn [bind].
      do 3 eexists. split; [reflexivity | apply onlyPins_set].
    + do 3 eexists. split; [reflexivity | apply onlyPins_refl].
  - do 3 eexists. split; [reflexivity | apply onlyPins_refl].
Qed.

Lemma getRookMoves_total (s : GameState) (r c : Z) (moves : list Move) :
  wellFormedBoard (board s) = true -> onBoard r c = true ->
  exists s' moves', getRookMoves s r c moves = Ok (s', moves').
Proof.
  intros Hwf Hrc. unfold getRookMoves.
  destruct (takePinRook_total s r c Hwf Hrc) as (pp & pd & s1 & Et & Hp).
  rewrite Et. cbn [bind].
  destruct (slideRays_total (board s1) (enemyColorOf s1) r c pp pd
              rookDirections) with (moves := moves) as (m1 & E1);
    [rewrite (onlyPins_board _ _ Hp); exact Hwf | exact Hrc |].
  rewrite E1. cbn [bind]. eauto.
Qed.

Lemma getBishopMoves_total (s : GameState) (r c : Z) (moves : list Move) :
  wellFormedBoard (board s) = true -> onBoard r c = true ->
  exists s' moves', getBishopMoves s r c moves = Ok (s', moves').
Proof.
  intros Hwf Hrc. unfold getBishopMoves.
  destruct (takePin_total s r c) as (pp & pd & s1 & Et & Hp).
  rewrite Et. cbn [bind].
  destruct (slideRays_total (board s1) (enemyColorOf s1) r c pp pd
              bishopDirections) with (moves := moves) as (m1 & E1);
    [rewrite (onlyPins_board _ _ Hp); exact Hwf | exact Hrc |].
  rewrite E1. cbn [bind]. eauto.
Qed.

Lemma officer_total (gen : Generator) (s : GameState) (r c : Z)
    (moves : list Move) :
  In gen officerGenerators ->
  wellFormedBoard (board s) = true -> onBoard r c = true ->
  exists s' moves', gen s r c moves = Ok (s', moves').
Proof.
  intros Hin Hwf Hrc. unfold officerGenerators in Hin. simpl in Hin.
  destruct Hin as [<-|[<-|[<-|[<-|[<-|[]]]]]].
  - apply getRookMoves_total; assumption.
  - unfold getKnightMoves.
    destruct (takePin_total s r c) as (pp & pd & s1 & Et & Hp).
    rewrite Et. cbn [bind].
    destruct (knightLoop_total (board s1) (allyColorOf s1) r c pp knightMoves)
      with (moves := moves) as (m1 & E1);
      [rewrite (onlyPins_board _ _ Hp); exact Hwf | exact Hrc |].
    rewrite E1. cbn [bind]. eauto.
  - apply getBishopMoves_total; assumption.
  - unfold getQueenMoves.
    destruct (getRookMoves_total s r c moves Hwf Hrc) as (s1 & m1 & E1).
    rewrite E1. cbn [bind].
    apply getBishopMoves_total; [|exact Hrc].
    apply getRookMoves_spec in E1. destruct E1 as (Hp & _).
    rewrite (onlyPins_board _ _ Hp). exact Hwf.
  - unfold getKingMoves. apply kingLoop_total; assumption.
Qed.

(** The pawn generator runs wherever the square ahead exists: anywhere for
    white (row index [-1] wraps), above row 7 for black. *)
Lemma getPawnMoves_total (s : GameState) (r c : Z) (moves : list Move) :
  wellFormedBoard (board s) = true -> onBoard r c = true ->
  whiteToMove s = true \/ r < 7 ->
  exists s' moves', getPawnMoves s r c moves = Ok (s', moves').
Proof.
  intros Hwf Hrc Hrow. apply onBoard_iff in Hrc.
  destruct (takePin_total s r c) as (pp & pd & s1 & Et & Hp).
  unfold getPawnMoves. rewrite Et. cbn [bind].
  pose proof (onlyPins_frame _ _ Hp) as [(Hb & Hw & _) _].
  rewrite Hb, Hw.
  assert (Hc1 : (c - 1 >=? 0) = true -> -8 <= c + -1 < 8).
  { intros _. lia. }
  assert (Hc2 : (c + 1 <=? 7) = true -> -8 <= c + 1 < 8).
  { intros H. apply Z.leb_le in H. lia. }
  destruct (whiteToMove s) eqn:Ew.
  - destruct (pawnAdvance_total (board s) r c (-1) 6 pp pd moves Hwf)
      as (m1 & E1); try lia.
    rewrite E1. cbn [bind].
    destruct (pawnCapture_total (board s) r c (-1) (-1) (c - 1 >=? 0) "b"
                pp pd m1 Hwf) as (m2 & E2); try lia; try exact Hc1.
    rewrite E2. cbn [bind].
    destruct (pawnCapture_total (board s) r c (-1) 1 (c + 1 <=? 7) "b"
                pp pd m2 Hwf) as (m3 & E3); try lia; try exact Hc2.
    rewrite E3. cbn [bind]. eauto.
  - destruct Hrow as [Hrow|Hrow]; [discriminate|].
    destruct (pawnAdvance_total (board s) r c 1 1 pp pd moves Hwf)
      as (m1 & E1); try lia.
    rewrite E1. cbn [bind].
    destruct (pawnCapture_total (board s) r c 1 (-1) (c - 1 >=? 0) "w"
                pp pd m1 Hwf) as (m2 & E2); try lia; try exact Hc1.
    rewrite E2. cbn [bind].
    destruct (pawnCapture_total (board s) r c 1 1 (c + 1 <=? 7) "w"
                pp pd m2 Hwf) as (m3 & E3); try lia; try exact Hc2.
    rewrite E3. cbn [bind]. eauto.
Qed.

Lemma getPawnMoves_last_row (s : GameState) (c : Z) (moves : list Move) :
  length (board s) = 8%nat -> whiteToMove s = false ->
  getPawnMoves s 7 c moves = Raise IndexError.
Proof.
  intros Hlen Hw.
  destruct (takePin_total s 7 c) as (pp & pd & s1 & Et & Hp).
  unfold getPawnMoves. rewrite Et. cbn [bind].
  apply onlyPins_frame in Hp. destruct Hp as [(Hb & Hw1 & _) _].
  rewrite Hw1, Hw, Hb. unfold pawnAdvance, board_get.
  change (7 + 1) with (Z.of_nat 8). rewrite <- Hlen.
  rewrite index_past_end. reflexivity.
Qed.
(** *** The board scan *)

(** One column of the scan: the loop goes on with the same board and side
    to move, or [IndexError] is raised for a stuck pawn. *)
Lemma scanCols_step (s : GameState) (r c : Z) (rest : list Z)
    (moves : list Move) :
  standardBoard (board s) = true -> onBoard r c = true ->
  (~ stuckPawn s r c
   /\ exists s1 moves1,
        board s1 = board s /\ whiteToMove s1 = whiteToMove s
        /\ scanCols s r (c :: rest) moves = scanCols s1 r rest moves1)
  \/ (stuckPawn s r c
      /\ scanCols s r (c :: rest) moves = Raise IndexError).
Proof.
  intros Hstd Hrc. apply standardBoard_parts in Hstd.
  destruct Hstd as [Hwf Hknown].
  destruct (on_board_get (board s) r c Hwf Hrc) as (sq & a & k & Esq & Ea & Ek).
  cbn [scanCols]. rewrite Esq. cbn [bind]. rewrite Ea. cbn [bind].
  pose proof (Hknown _ _ _ Esq) as Hsq. apply knownSquare_cases in Hsq.
  destruct (((a =? "w")%char && whiteToMove s)
            || ((a =? "b")%char && negb (whiteToMove s))) eqn:Eturn.
  - rewrite Ek. cbn [bind].
    destruct Hsq as [->|(a' & k' & -> & Hcol & Hkind)].
    { inversion Ea; subst a. destruct (whiteToMove s); discriminate Eturn. }
    inversion Ea; subst a'. inversion Ek; subst k'. clear Ea Ek.
    destruct (moveFunction_total k Hkind) as (gen & Egen & Hgen).
    rewrite Egen. cbn [bind].
    pose proof (moveFunction_spec _ _ Egen) as Hspec.
    assert (Hgo : forall s1 moves1,
               gen s r c moves = Ok (s1, moves1) ->
               board s1 = board s /\ whiteToMove s1 = whiteToMove s).
    { intros s1 moves1 E1. apply Hspec in E1.
      destruct E1 as ((Hb & Hw & _) & _). split; assumption. }
    destruct Hgen as [[-> ->]|[Hk Hin]].
    + destruct (whiteToMove s) eqn:Ew.
      * left. split; [unfold stuckPawn; intros (H & _); congruence|].
        destruct (getPawnMoves_total s r c moves Hwf Hrc) as (s1 & m1 & E1);
          [left; exact Ew|].
        rewrite E1. cbn [bind].
        destruct (Hgo _ _ E1) as [Hb Hw]. rewrite ?Ew in Hw. eauto 6.
      * assert (Hb : a = "b"%char).
        { destruct Hcol as [->| ->]; [discriminate Eturn | reflexivity]. }
        subst a.
        destruct (Z.eq_dec r 7) as [->|Hr].
        -- right. split; [repeat split; assumption|].
           rewrite getPawnMoves_last_row; [reflexivity | | exact Ew].
           apply wellFormedBoard_parts in Hwf. apply Hwf.
        -- left. split; [intros (_ & H & _); contradiction|].
           apply onBoard_iff in Hrc.
           destruct (getPawnMoves_total s r c moves Hwf) as (s1 & m1 & E1);
             [apply onBoard_iff; lia | right; lia |].
           rewrite E1. cbn [bind].
           destruct (Hgo _ _ E1) as [Hb Hw]. rewrite ?Ew in Hw. eauto 6.
    + left. split.
      * intros (_ & _ & H). rewrite Esq in H. inversion H; subst k.
        apply Hk. reflexivity.
      * destruct (officer_total gen s r c moves Hin Hwf Hrc) as (s1 & m1 & E1).
        rewrite E1. cbn [bind].
        destruct (Hgo _ _ E1) as [Hb Hw]. eauto 6.
  - left. split.
    + intros (Hw & _ & H). rewrite Esq in H. inversion H; subst sq.
      inversion Ea; subst a. rewrite Hw in Eturn. discriminate Eturn.
    + exists s, moves. auto.
Qed.

Lemma scanCols_runs (r : Z) (cs : list Z) :
  (forall c, In c cs -> onBoard r c = true) ->
  forall s moves,
    standardBoard (board s) = true ->
    (forall c, In c cs -> ~ stuckPawn s r c) ->
    exists s' moves',
      scanCols s r cs moves = Ok (s', moves')
      /\ board s' = board s /\ whiteToMove s' = whiteToMove s.
Proof.
  induction cs as [|c rest IH]; intros Hcs s moves Hstd Hfree.
  - exists s, moves. auto.
  - destruct (scanCols_step s r c rest moves Hstd (Hcs c (or_introl eq_refl)))
      as [(_ & s1 & m1 & Hb & Hw & E)|(Hstuck & _)].
    + rewrite E.
      destruct (IH (fun c' H => Hcs c' (or_intror H)) s1 m1)
        as (s' & moves' & E' & Hb' & Hw').
      * rewrite Hb. exact Hstd.
      * intros c' Hin (H1 & H2 & H3). apply (Hfree c' (or_intror Hin)).
        unfold stuckPawn. rewrite <- Hb, <- Hw. auto.
      * exists s', moves'. rewrite Hb', Hw', Hb, Hw. auto.
    + exfalso. apply (Hfree c (or_introl eq_refl)). exact Hstuck.
Qed.

Lemma scanCols_stops (r : Z) (cs : list Z) :
  (forall c, In c cs -> onBoard r c = true) ->
  forall s moves c,
    standardBoard (board s) = true ->
    In c cs -> stuckPawn s r c ->
    scanCols s r cs moves = Raise IndexError.
Proof.
  induction cs as [|c0 rest IH]; intros Hcs s moves c Hstd Hin Hstuck;
    [contradiction|].
  destruct (scanCols_step s r c0 rest moves Hstd (Hcs c0 (or_introl eq_refl)))
    as [(Hfree & s1 & m1 & Hb & Hw & E)|(_ & E)]; [|exact E].
  rewrite E. destruct Hin as [->|Hin]; [contradiction|].
  apply (IH (fun c' H => Hcs c' (or_intror H)) s1 m1 c); [| exact Hin |].
  - rewrite Hb. exact Hstd.
  - destruct Hstuck as (H1 & H2 & H3). unfold stuckPawn.
    rewrite Hb, Hw. auto.
Qed.

Lemma range_0_8 : Py.range 0 8 = [0; 1; 2; 3; 4; 5; 6; 7].
Proof. reflexivity. Qed.

Lemma scanRows_row (s : GameState) (r : Z) :
  standardBoard (board s) = true -> 0 <= r <= 7 ->
  exists row,
    Py.index (board s) r = Ok row
    /\ Py.range 0 (Z.of_nat (length row)) = Py.range 0 8.
Proof.
  intros Hstd Hr. apply standardBoard_parts in Hstd. destruct Hstd as [Hwf _].
  apply wellFormedBoard_parts in Hwf. destruct Hwf as [Hlen Hrows].
  destruct (index_total (board s) r) as (row & E & Hin); [rewrite Hlen; lia|].
  exists row. split; [exact E|].
  destruct (Hrows _ Hin) as [Hl _]. rewrite Hl. reflexivity.
Qed.

Lemma cols_on_board (r : Z) :
  0 <= r <= 7 -> forall c, In c (Py.range 0 8) -> onBoard r c = true.
Proof.
  intros Hr c Hc. rewrite range_0_8 in Hc. simpl in Hc.
  apply onBoard_iff. lia.
Qed.

Lemma scanRows_runs (rs : list Z) :
  (forall r, In r rs -> 0 <= r <= 7) ->
  forall s moves,
    standardBoard (board s) = true ->
    (forall r c, In r rs -> 0 <= c <= 7 -> ~ stuckPawn s r c) ->
    exists s' moves', scanRows s rs moves = Ok (s', moves').
Proof.
  induction rs as [|r rest IH]; intros Hrs s moves Hstd Hfree;
    cbn [scanRows]; [eauto|].
  pose proof (Hrs r (or_introl eq_refl)) as Hr.
  destruct (scanRows_row s r Hstd Hr) as (row & Erow & Hcols).
  rewrite Erow. cbn [bind]. rewrite Hcols.
  destruct (scanCols_runs r (Py.range 0 8) (cols_on_board r Hr) s moves Hstd)
    as (s1 & m1 & E1 & Hb & Hw).
  { intros c Hc. apply Hfree; [left; reflexivity|].
    rewrite range_0_8 in Hc. simpl in Hc. lia. }
  rewrite E1. cbn [bind].
  apply IH.
  - intros r' H. apply Hrs. right. exact H.
  - rewrite Hb. exact Hstd.
  - intros r' c Hin Hc (H1 & H2 & H3). apply (Hfree r' c (or_intror Hin) Hc).
    unfold stuckPawn. rewrite <- Hb, <- Hw. auto.
Qed.

Lemma scanRows_stops (rs : list Z) :
  (forall r, In r rs -> 0 <= r <= 7) ->
  forall s moves r c,
    standardBoard (board s) = true ->
    In r rs -> 0 <= c <= 7 -> stuckPawn s r c ->
    scanRows s rs moves = Raise IndexError.
Proof.
  induction rs as [|r0 rest IH]; intros Hrs s moves r c Hstd Hin Hc Hstuck;
    [contradiction|].
  cbn [scanRows].
  pose proof (Hrs r0 (or_introl eq_refl)) as Hr0.
  destruct (scanRows_row s r0 Hstd Hr0) as (row & Erow & Hcols).
  rewrite Erow. cbn [bind]. rewrite Hcols.
  destruct (Z.eq_dec r0 r) as [->|Hne].
  - rewrite (scanCols_stops r (Py.range 0 8) (cols_on_board r Hr0) s moves c);
      [reflexivity | exact Hstd | | exact Hstuck].
    rewrite range_0_8. simpl. lia.
  - destruct Hin as [Hin|Hin]; [contradiction|].
    destruct (scanCols_runs r0 (Py.range 0 8) (cols_on_board r0 Hr0) s moves
                Hstd) as (s1 & m1 & E1 & Hb & Hw).
    { intros c' _ (_ & H7 & _). destruct Hstuck as (_ & H7' & _). lia. }
    rewrite E1. cbn [bind].
    apply (IH (fun r' H => Hrs r' (or_intror H)) s1 m1 r c);
      [rewrite Hb; exact Hstd | exact Hin | exact Hc |].
    destruct Hstuck as (H1 & H2 & H3). unfold stuckPawn.
    rewrite Hb, Hw. auto.
Qed.

(** What [blackPawnOnRow7] decides. *)
Lemma blackPawnOnRow7_iff (b : Board) :
  standardBoard b = true ->
  (blackPawnOnRow7 b = true <->
   exists c, 0 <= c <= 7 /\ board_get b 7 c = Ok "bp").
Proof.
  intros Hstd. apply standardBoard_parts in Hstd. destruct Hstd as [Hwf _].
  apply wellFormedBoard_parts in Hwf. destruct Hwf as [Hlen Hrows].
  destruct (index_total b 7) as (row & Erow & Hin); [rewrite Hlen; lia|].
  destruct (Hrows _ Hin) as [Hl _].
  assert (Hnth : nth 7 b [] = row).
  { apply (index_of_nat b 7) in Erow. apply nth_error_nth. exact Erow. }
  unfold blackPawnOnRow7, board_get. rewrite Hnth, Erow. cbn [bind].
  rewrite existsb_exists. split.
  - intros (p & Hp & Ep). apply String.eqb_eq in Ep. subst p.
    apply In_nth_error in Hp. destruct Hp as (n & En).
    assert (Hn : (n < 8)%nat).
    { rewrite <- Hl. apply nth_error_Some. congruence. }
    exists (Z.of_nat n). split; [lia|].
    unfold Py.index, Py.norm.
    destruct (Z.of_nat n <? 0) eqn:E0; [apply Z.ltb_lt in E0; lia|].
    rewrite E0, Nat2Z.id, En. reflexivity.
  - intros (c & Hc & E). exists "bp". split; [|reflexivity].
    apply index_In in E. exact E.
Qed.

Lemma getAllPossibleMoves_runs (s : GameState) :
  standardBoard (board s) = true ->
  (whiteToMove s = false -> blackPawnOnRow7 (board s) = false) ->
  exists s' moves', getAllPossibleMoves s = Ok (s', moves').
Proof.
  intros Hstd Hfree. unfold getAllPossibleMoves.
  pose proof Hstd as Hstd'. apply standardBoard_parts in Hstd'.
  destruct Hstd' as [Hwf _]. apply wellFormedBoard_parts in Hwf.
  destruct Hwf as [Hlen _]. rewrite Hlen.
  apply scanRows_runs.
  - intros r Hr. change (Z.of_nat 8) with 8 in Hr. rewrite range_0_8 in Hr.
    simpl in Hr. lia.
  - exact Hstd.
  - intros r c _ Hc (Hw & -> & Hbp).
    specialize (Hfree Hw).
    assert (Hyes : blackPawnOnRow7 (board s) = true);
      [|rewrite Hyes in Hfree; discriminate].
    apply blackPawnOnRow7_iff; [exact Hstd|]. eauto.
Qed.

Lemma getAllPossibleMoves_stops (s : GameState) :
  standardBoard (board s) = true ->
  whiteToMove s = false -> blackPawnOnRow7 (board s) = true ->
  getAllPossibleMoves s = Raise IndexError.
Proof.
  intros Hstd Hw Hbp. unfold getAllPossibleMoves.
  pose proof Hstd as Hstd'. apply standardBoard_parts in Hstd'.
  destruct Hstd' as [Hwf _]. apply wellFormedBoard_parts in Hwf.
  destruct Hwf as [Hlen _]. rewrite Hlen.
  apply blackPawnOnRow7_iff in Hbp; [|exact Hstd].
  destruct Hbp as (c & Hc & Hbp).
  apply (scanRows_stops _) with (r := 7) (c := c).
  - intros r Hr. change (Z.of_nat 8) with 8 in Hr. rewrite range_0_8 in Hr.
    simpl in Hr. lia.
  - exact Hstd.
  - change (Z.of_nat 8) with 8. rewrite range_0_8. simpl. tauto.
  - exact Hc.
  - repeat split; assumption.
Qed.
(** *** The legal moves *)

Lemma knownSquare_length (p : string) :
  knownSquare p = true -> String.length p = 2%nat.
Proof.
  intros H. apply knownSquare_cases in H.
  destruct H as [->|(a & k & -> & _)]; reflexivity.
Qed.

Lemma filterMoves_total (vs : list Square) (n : nat) :
  forall moves,
    (n <= length moves)%nat ->
    Forall (fun m => String.length (pieceMoved m) = 2%nat) moves ->
    exists moves', filterMoves vs (Py.down n) moves = Ok moves'.
Proof.
  induction n as [|n IH]; intros moves Hn Hall.
  - exists moves. reflexivity.
  - rewrite down_S. cbn [filterMoves].
    destruct (index_total moves (Z.of_nat n)) as (m & Em & Hin); [lia|].
    rewrite Em. cbn [bind].
    rewrite Forall_forall in Hall.
    destruct (char_total (pieceMoved m) 1) as (k & Ek);
      [rewrite (Hall _ Hin); lia|].
    rewrite Ek. cbn [bind].
    assert (Hkeep : exists moves', filterMoves vs (Py.down n) moves = Ok moves').
    { apply IH; [lia | apply Forall_forall; exact Hall]. }
    destruct (negb (k =? "K")%char); [|exact Hkeep].
    destruct (negb (existsb (sq_eqb (endRow m, endCol m)) vs)); [|exact Hkeep].
    destruct (remove_total Move_eqb m moves Move_eqb_refl Hin) as (moves1 & E1).
    rewrite E1. cbn [bind].
    apply IH.
    + apply remove_length in E1. lia.
    + apply Forall_forall. intros x Hx. apply Hall.
      eapply remove_incl; eassumption.
Qed.

Lemma genuine_pieceMoved (b : Board) (m : Move) :
  standardBoard b = true -> genuine b m ->
  String.length (pieceMoved m) = 2%nat.
Proof.
  intros Hstd (r & c & _ & _ & Hm). apply madeAt_fields in Hm.
  destruct Hm as (_ & _ & Hpm & _).
  apply standardBoard_parts in Hstd. destruct Hstd as [_ Hknown].
  apply knownSquare_length. eapply Hknown. exact Hpm.
Qed.

Lemma getValidMoves_runs (s : GameState) :
  standardBoard (board s) = true ->
  onBoard (fst (kingLocation s)) (snd (kingLocation s)) = true ->
  (whiteToMove s = false -> blackPawnOnRow7 (board s) = false) ->
  exists s' moves, getValidMoves s = Ok (s', moves).
Proof.
  intros Hstd Hking Hfree.
  pose proof (proj1 (standardBoard_parts _ Hstd)) as Hwf.
  destruct (checksForPinsAndChecks_total s Hwf) as (ic & cs & Ed).
  rewrite (getValidMoves_branches _ _ _ _ Ed). cbv zeta.
  set (s0 := set_analysis s ic [] cs).
  assert (Hall : exists s1 moves, getAllPossibleMoves s0 = Ok (s1, moves)).
  { apply getAllPossibleMoves_runs; [exact Hstd | exact Hfree]. }
  destruct ic; [|exact Hall].
  destruct (Nat.eqb (length cs) 1) eqn:El.
  - destruct Hall as (s1 & moves & Ea). rewrite Ea. cbn [bind].
    pose proof (getAllPossibleMoves_spec _ _ _ Ea) as (Hfr & Hgen & _).
    destruct Hfr as (Hb & _ & _ & _ & Hcs).
    change (checks s0) with cs in Hcs. change (board s0) with (board s) in *.
    rewrite Hcs, Hb.
    apply Nat.eqb_eq in El.
    destruct cs as [|q [|q' rest]]; try discriminate El.
    change (Py.index [q] 0) with (Ok q). cbn [bind].
    apply checksForPinsAndChecks_shape in Ed. destruct Ed as [Hsh _].
    apply Forall_inv in Hsh.
    assert (Hat : exists k, kindAt (board s) (fst (fst (fst q)))
                                   (snd (fst (fst q))) k).
    { destruct Hsh as [(j & d & i & k & _ & _ & -> & Hk & _)
                      |(mv & _ & -> & Hk)]; eauto. }
    destruct q as [[[cr cc] d0] d1]. cbn [fst snd] in Hat.
    destruct Hat as (k & p & Ep & Ek).
    rewrite Ep. cbn [bind]. rewrite Ek. cbn [bind].
    match goal with
    | |- exists _ _, bind (filterMoves ?vs _ _) _ = _ =>
        destruct (filterMoves_total vs (length moves) moves) as (moves' & Ef)
    end.
    + lia.
    + eapply Forall_impl; [|exact Hgen].
      intros m Hm. eapply genuine_pieceMoved; eassumption.
    + rewrite Ef. cbn [bind]. eauto.
  - unfold getKingMoves. apply kingLoop_total; assumption.
Qed.

Lemma getValidMoves_stops (s : GameState) ic ps cs :
  standardBoard (board s) = true ->
  whiteToMove s = false -> blackPawnOnRow7 (board s) = true ->
  checksForPinsAndChecks s = Ok (ic, ps, cs) ->
  (length cs <= 1)%nat ->
  getValidMoves s = Raise IndexError.
Proof.
  intros Hstd Hw Hbp Ed Hlen.
  rewrite (getValidMoves_branches _ _ _ _ Ed). cbv zeta.
  assert (Hall : getAllPossibleMoves (set_analysis s ic ps cs)
                 = Raise IndexError).
  { apply getAllPossibleMoves_stops; assumption. }
  destruct ic; [|exact Hall].
  destruct cs as [|q [|q' rest]].
  - apply checksForPinsAndChecks_shape in Ed. destruct Ed as [_ Hflag].
    destruct (proj1 Hflag eq_refl). reflexivity.
  - cbn [length Nat.eqb]. rewrite Hall. reflexivity.
  - simpl in Hlen. lia.
Qed.
(** *** Play keeps the board standard *)

Lemma standardBoard_cells (b : Board) :
  standardBoard b = true <->
  wellFormedBoard b = true
  /\ forall n m p, cellAt b n m = Some p -> knownSquare p = true.
Proof.
  split.
  - intros H. split; [apply standardBoard_parts; exact H|].
    unfold standardBoard in H. rewrite andb_true_iff, forallb_forall in H.
    destruct H as [_ Hrows]. intros n m p Hc. unfold cellAt in Hc.
    destruct (nth_error b n) as [row|] eqn:En; [|discriminate].
    specialize (Hrows row (nth_error_In _ _ En)).
    rewrite andb_true_iff, forallb_forall in Hrows.
    apply Hrows. eapply nth_error_In. exact Hc.
  - intros [Hwf Hcells]. apply wellFormedBoard_parts in Hwf.
    destruct Hwf as [Hlen Hrows].
    unfold standardBoard. rewrite andb_true_iff, forallb_forall.
    split; [apply Nat.eqb_eq; exact Hlen|].
    intros row Hin. rewrite andb_true_iff, forallb_forall.
    split; [apply Nat.eqb_eq; apply (Hrows _ Hin)|].
    intros p Hp. apply In_nth_error in Hin, Hp.
    destruct Hin as (n & En), Hp as (m & Em).
    apply (Hcells n m p). unfold cellAt. rewrite En. exact Em.
Qed.

Lemma makeMove_standard (s s2 : GameState) (m : Move) :
  standardBoard (board s) = true ->
  board_get (board s) (startRow m) (startCol m) = Ok (pieceMoved m) ->
  board_get (board s) (endRow m) (endCol m) = Ok (pieceCaptured m) ->
  makeMove s m = Ok s2 ->
  standardBoard (board s2) = true.
Proof.
  intros Hstd Hpm Hpc Hmk.
  destruct (board_two_writes _ _ _ _ _ _ _ Hpm Hpc) as (b1 & E1 & E2).
  assert (Hb2 : board s2
                = put (put (board s) (rowOf (board s) (startRow m))
                           (colOf (board s) (startRow m) (startCol m)) "--")
                      (rowOf (board s) (endRow m))
                      (colOf (board s) (endRow m) (endCol m)) (pieceMoved m)).
  { unfold makeMove in Hmk. rewrite E1 in Hmk. cbn [bind] in Hmk.
    rewrite E2 in Hmk. cbn [bind] in Hmk.
    destruct (pieceMoved m =? "wK")%string;
      [|destruct (pieceMoved m =? "bK")%string];
      inversion Hmk; reflexivity. }
  pose proof (proj2 (standardBoard_parts _ Hstd) _ _ _ Hpm) as Hknown.
  apply standardBoard_cells in Hstd. destruct Hstd as [Hwf Hcells].
  assert (Hcells2 : forall n q p, cellAt (board s2) n q = Some p ->
                                  knownSquare p = true).
  { intros n q p Hc. rewrite Hb2 in Hc. apply cells_after_move in Hc.
    destruct Hc as [[_ ->]|[[_ ->]|(_ & _ & Hc)]];
      [exact Hknown | reflexivity | eapply Hcells; exact Hc]. }
  apply standardBoard_cells. split; [|exact Hcells2].
  apply wellFormedBoard_iff in Hwf. destruct Hwf as [Hsh _].
  apply wellFormedBoard_iff. split.
  - rewrite Hb2, !shape_put. exact Hsh.
  - intros n q p Hc. apply knownSquare_length. eapply Hcells2. exact Hc.
Qed.

Lemma makeMove_caches (s s2 : GameState) (m : Move) :
  cachesOnBoard s = true -> landsOrPawn m ->
  makeMove s m = Ok s2 -> cachesOnBoard s2 = true.
Proof.
  intros Hc Hland Hmk. unfold makeMove in Hmk. run.
  - apply String.eqb_eq in E1. unfold cachesOnBoard in *. cbn.
    apply andb_true_iff in Hc. destruct Hc as [_ Hb].
    apply andb_true_iff. split; [|exact Hb].
    destruct Hland as [Hon|Hp]; [exact Hon | rewrite E1 in Hp; discriminate].
  - apply String.eqb_eq in E2. unfold cachesOnBoard in *. cbn.
    apply andb_true_iff in Hc. destruct Hc as [Hw _].
    apply andb_true_iff. split; [exact Hw|].
    destruct Hland as [Hon|Hp]; [exact Hon | rewrite E2 in Hp; discriminate].
  - exact Hc.
Qed.

Lemma reachable_standard (s : GameState) :
  reachable s -> standardBoard (board s) = true /\ cachesOnBoard s = true.
Proof.
  induction 1 as [|s s1 s2 moves m Hs IH Hv Hin Hmk].
  - split; reflexivity.
  - destruct IH as [Hstd Hc].
    pose proof (reachable_kingsCached _ Hs) as HK.
    destruct (getValidMoves_spec _ _ _ HK Hv)
      as (Hb & _ & _ & [Hk1 Hk2] & Hg).
    pose proof (getValidMoves_lands _ _ _ Hv) as Hl.
    rewrite Forall_forall in Hg, Hl.
    destruct (Hg _ Hin) as (r & c & _ & _ & Hm).
    apply madeAt_fields in Hm. destruct Hm as (<- & <- & Hpm & Hpc).
    split.
    + apply (makeMove_standard s1 s2 m); rewrite ?Hb; assumption.
    + apply (makeMove_caches s1 s2 m); [|apply Hl; exact Hin | exact Hmk].
      unfold cachesOnBoard. rewrite Hk1, Hk2. exact Hc.
Qed.

Lemma cachesOnBoard_king (s : GameState) :
  cachesOnBoard s = true ->
  onBoard (fst (kingLocation s)) (snd (kingLocation s)) = true.
Proof.
  unfold cachesOnBoard, kingLocation. rewrite andb_true_iff.
  intros [Hw Hb]. destruct (whiteToMove s); assumption.
Qed.

Lemma makeMove_total (s : GameState) (m : Move) :
  board_get (board s) (startRow m) (startCol m) = Ok (pieceMoved m) ->
  board_get (board s) (endRow m) (endCol m) = Ok (pieceCaptured m) ->
  exists s2, makeMove s m = Ok s2.
Proof.
  intros Hpm Hpc.
  destruct (makeMove_undoMove_undone s m Hpm Hpc) as (s2 & E & _). eauto.
Qed.

(** Move generation returns in every position of play in which no black
    pawn is stuck on row 7, and each move it returns can be made, leading
    to a position of play. *)
Lemma reachable_goes_on (s : GameState) :
  reachable s ->
  (whiteToMove s = false -> blackPawnOnRow7 (board s) = false) ->
  exists s1 moves,
    getValidMoves s = Ok (s1, moves)
    /\ forall m, In m moves ->
         exists s2, makeMove s1 m = Ok s2 /\ reachable s2.
Proof.
  intros Hs Hfree.
  destruct (reachable_standard _ Hs) as [Hstd Hc].
  destruct (getValidMoves_runs s Hstd (cachesOnBoard_king _ Hc) Hfree)
    as (s1 & moves & Hv).
  exists s1, moves. split; [exact Hv|].
  intros m Hin.
  destruct (getValidMoves_spec _ _ _ (reachable_kingsCached _ Hs) Hv)
    as (Hb & _ & _ & _ & Hg).
  rewrite Forall_forall in Hg.
  destruct (Hg _ Hin) as (r & c & _ & _ & Hm).
  apply madeAt_fields in Hm. destruct Hm as (<- & <- & Hpm & Hpc).
  destruct (makeMove_total s1 m) as (s2 & E2); rewrite ?Hb; try assumption.
  exists s2. split; [exact E2|].
  eapply reachable_move; eassumption.
Qed.
(** ** Where the engine raises, and where it cannot *)

(** X19: on an 8x8 board of two-character strings
    [checksForPinsAndChecks] raises nothing, wherever the cached king
    square of the side to move lies (on the board or off it), and the pin
    list it returns is empty. *)
Theorem detector_never_raises (s : GameState) :
  wellFormedBoard (board s) = true ->
  exists ic cs, checksForPinsAndChecks s = Ok (ic, [], cs).
Proof.
  apply checksForPinsAndChecks_total.
Qed.

Lemma detector_never_raises_witness :
  exists ic cs,
    checksForPinsAndChecks (set_blackKingLocation afterQueenCheck (9, -3))
    = Ok (ic, [], cs).
Proof.
  apply (detector_never_raises (set_blackKingLocation afterQueenCheck (9, -3))).
  vm_compute. reflexivity.
Defined.

(** X20: on an 8x8 board whose squares hold "--" or one of the twelve
    pieces, with the cached king square of the side to move on the board,
    [getValidMoves] raises nothing, provided that no black pawn stands on
    row 7 when black is to move.  (A white pawn on row 0 does no harm: the
    row index [-1] wraps.) *)
Theorem getValidMoves_never_raises (s : GameState) :
  standardBoard (board s) = true ->
  onBoard (fst (kingLocation s)) (snd (kingLocation s)) = true ->
  (whiteToMove s = false -> blackPawnOnRow7 (board s) = false) ->
  exists s' moves, getValidMoves s = Ok (s', moves).
Proof.
  apply getValidMoves_runs.
Qed.

Lemma getValidMoves_never_raises_witness :
  whiteToMove afterQueenCheck = false
  /\ exists s' moves, getValidMoves afterQueenCheck = Ok (s', moves).
Proof.
  split; [reflexivity|].
  apply (getValidMoves_never_raises afterQueenCheck);
    intros; vm_compute; reflexivity.
Defined.

(** X21: with black to move and a black pawn on row 7 of such a board,
    [getValidMoves] raises [IndexError] whenever the detector reports at
    most one check: the board scan reaches the pawn, whose generator looks
    up row 8.  (With two checks or more only [getKingMoves] runs.) *)
Theorem getValidMoves_stuck_black_pawn (s : GameState) ic ps cs :
  standardBoard (board s) = true ->
  whiteToMove s = false -> blackPawnOnRow7 (board s) = true ->
  checksForPinsAndChecks s = Ok (ic, ps, cs) ->
  (length cs <= 1)%nat ->
  getValidMoves s = Raise IndexError.
Proof.
  apply getValidMoves_stops.
Qed.

Lemma getValidMoves_stuck_black_pawn_witness :
  getValidMoves blackPawnOnLastRow = Raise IndexError.
Proof.
  apply (getValidMoves_stuck_black_pawn blackPawnOnLastRow false [] []);
    try (vm_compute; reflexivity).
  simpl. lia.
Defined.

(** X22: in every position reached from [GameState()] by making moves
    that [getValidMoves] returns, [getValidMoves] returns again and
    [makeMove] succeeds on each move of its list (leading to another such
    position), unless black is to move with a black pawn on row 7. *)
Theorem play_goes_on (s : GameState) :
  reachable s ->
  (whiteToMove s = false -> blackPawnOnRow7 (board s) = false) ->
  exists s1 moves,
    getValidMoves s = Ok (s1, moves)
    /\ forall m, In m moves ->
         exists s2, makeMove s1 m = Ok s2 /\ reachable s2.
Proof.
  apply reachable_goes_on.
Qed.

Lemma play_goes_on_witness :
  whiteToMove afterQueenCheck = false
  /\ exists s1 moves,
       getValidMoves afterQueenCheck = Ok (s1, moves)
       /\ forall m, In m moves ->
            exists s2, makeMove s1 m = Ok s2 /\ reachable s2.
Proof.
  split; [reflexivity|].
  apply (play_goes_on afterQueenCheck).
  - exact afterQueenCheck_reachable.
  - intros _. vm_compute. reflexivity.
Defined.

(** ** Taking a whole game back *)

Lemma samePosition_analysis (s t : GameState) :
  samePosition s t -> t = set_analysis s (inCheck t) (pins t) (checks t).
Proof.
  destruct s, t. unfold samePosition, set_analysis. cbn.
  intros (-> & -> & -> & -> & ->). reflexivity.
Qed.

Lemma samePosition_refl (s : GameState) : samePosition s s.
Proof. repeat split. Qed.

Lemma samePosition_trans (s t u : GameState) :
  samePosition s t -> samePosition t u -> samePosition s u.
Proof.
  unfold samePosition. intros (A1 & A2 & A3 & A4 & A5) (B1 & B2 & B3 & B4 & B5).
  repeat split; congruence.
Qed.

Lemma samePosition_sym (s t : GameState) :
  samePosition s t -> samePosition t s.
Proof.
  unfold samePosition. intros (A1 & A2 & A3 & A4 & A5).
  repeat split; congruence.
Qed.

(** [undoMove] neither reads nor writes the results of the analysis. *)
Lemma undoMove_analysis (s : GameState) (ic : bool) (ps cs : list Quad) :
  undoMove (set_analysis s ic ps cs)
  = (s' <- undoMove s ;; Ok (set_analysis s' ic ps cs)).
Proof.
  unfold undoMove. cbn [set_analysis moveLog board set_moveLog].
  destruct (negb (Nat.eqb (length (moveLog s)) 0)); [|reflexivity].
  destruct (pop (moveLog s)) as [[m log']|]; [|reflexivity].
  destruct (board_set (board s) (startRow m) (startCol m) (pieceMoved m))
    as [b1|e]; [|reflexivity].
  cbn [bind].
  destruct (board_set b1 (endRow m) (endCol m) (pieceCaptured m))
    as [b2|e]; [|reflexivity].
  cbn [bind].
  destruct (pieceMoved m =? "wK")%string; [reflexivity|].
  destruct (pieceMoved m =? "bK")%string; reflexivity.
Qed.

Lemma undoMoves_samePosition (n : nat) :
  forall s t s0,
    samePosition s t -> undoMoves n s = Ok s0 ->
    exists t0, undoMoves n t = Ok t0 /\ samePosition s0 t0.
Proof.
  induction n as [|n IH]; intros s t s0 Hst H; cbn [undoMoves] in *.
  - inversion H; subst. eauto.
  - apply bind_Ok in H. destruct H as (s1 & E1 & H).
    rewrite (samePosition_analysis _ _ Hst), undoMove_analysis, E1.
    cbn [bind]. eapply IH; [|exact H].
    repeat split.
Qed.

Lemma makeMove_log (s s2 : GameState) (m : Move) :
  makeMove s m = Ok s2 -> moveLog s2 = moveLog s ++ [m].
Proof.
  unfold makeMove. intros H. run; reflexivity.
Qed.

Lemma game_consistent (s s' : GameState) (ms : list Move) :
  consistent s -> game s ms s' -> consistent s'.
Proof.
  intros Hc. induction 1 as [|ms s' s1 s2 moves m Hg IH Hv Hin Hmk];
    [exact Hc|].
  pose proof (getValidMoves_consistent _ _ _ IH Hv) as H1.
  destruct (getValidMoves_spec _ _ _ (proj1 IH) Hv) as (Hb & _ & _ & _ & Hgen).
  pose proof (getValidMoves_lands _ _ _ Hv) as Hl.
  rewrite Forall_forall in Hgen, Hl.
  apply (makeMove_consistent s1 s2 m H1); auto.
  rewrite Hb. auto.
Qed.

(** The last ply of a game is taken back by one [undoMove]. *)
Lemma undoMove_last_ply (s' s1 s2 : GameState) (moves : list Move) (m : Move) :
  consistent s' ->
  getValidMoves s' = Ok (s1, moves) -> In m moves ->
  makeMove s1 m = Ok s2 ->
  undoMove s2 = Ok s1 /\ samePosition s' s1.
Proof.
  intros [HK Hwf] Hv Hin Hmk.
  destruct (getValidMoves_spec _ _ _ HK Hv) as (Hb & Hw & Hl & Hk & Hg).
  split; [|destruct Hk; repeat split; assumption].
  rewrite Forall_forall in Hg. specialize (Hg _ Hin).
  destruct Hg as (r & c & Hr & Hc & Hm).
  apply madeAt_fields in Hm. destruct Hm as (Er & Ec & Hpm & Hpc).
  subst r c. rewrite <- Hb in Hpm, Hpc.
  assert (HK1 : kingsCached s1 = true).
  { destruct Hk as [Hk1 Hk2]. unfold kingsCached.
    rewrite Hb, Hk1, Hk2. exact HK. }
  apply kingsCached_parts in HK1. destruct HK1 as (Kw & Kb & _).
  destruct (makeMove_undoMove s1 m Hpm Hpc) as (s2' & E1 & E2).
  - intros HwK. apply (boardKingsAt_get _ _ _ _ _ _ Kw Hr Hc Hpm).
    rewrite HwK. reflexivity.
  - intros HbK. apply (boardKingsAt_get _ _ _ _ _ _ Kb Hr Hc Hpm).
    rewrite HbK. reflexivity.
  - rewrite Hmk in E1. inversion E1; subst s2'. exact E2.
Qed.

Lemma game_unwound (s s' : GameState) (ms : list Move) :
  consistent s -> game s ms s' ->
  moveLog s' = moveLog s ++ ms
  /\ exists s0, undoMoves (length ms) s' = Ok s0 /\ samePosition s s0.
Proof.
  intros Hc. induction 1 as [|ms s' s1 s2 moves m Hg IH Hv Hin Hmk].
  - split; [symmetry; apply app_nil_r|].
    exists s. split; [reflexivity | apply samePosition_refl].
  - destruct IH as (Hlog & s0 & Eu & Hs0).
    pose proof (game_consistent _ _ _ Hc Hg) as Hc'.
    destruct (undoMove_last_ply _ _ _ _ _ Hc' Hv Hin Hmk) as [Eback Hsame].
    split.
    + rewrite (makeMove_log _ _ _ Hmk).
      destruct Hsame as (_ & _ & -> & _). rewrite Hlog.
      symmetry. apply app_assoc.
    + rewrite length_app, Nat.add_comm. cbn [length Nat.add undoMoves].
      rewrite Eback. cbn [bind].
      destruct (undoMoves_samePosition _ _ _ _ Hsame Eu) as (t0 & Et & Ht).
      exists t0. split; [exact Et|].
      eapply samePosition_trans; eassumption.
Qed.

Lemma playMove_game (s s' s2 : GameState) (ms : list Move) (a b : Square) :
  game s ms s' -> playMove s' a b = Ok s2 ->
  exists m, game s (ms ++ [m]) s2.
Proof.
  intros Hg H. unfold playMove in H. run.
  eexists. eapply game_ply; eauto.
  eapply find_some; eauto.
Qed.

Lemma queenChecks_game (s : GameState) :
  queenChecks = Ok s ->
  exists ms, length ms = 3%nat /\ game newGame ms s.
Proof.
  unfold queenChecks. intros H. run.
  destruct (playMove_game newGame newGame _ [] _ _ (game_start _) E)
    as (m1 & G1).
  destruct (playMove_game _ _ _ _ _ _ G1 E0) as (m2 & G2).
  destruct (playMove_game _ _ _ _ _ _ G2 H) as (m3 & G3).
  eexists. split; [|exact G3]. reflexivity.
Qed.

Lemma afterQueenCheck_game :
  exists ms, length ms = 3%nat /\ game newGame ms afterQueenCheck.
Proof.
  apply queenChecks_game. vm_compute. reflexivity.
Qed.

(** X23: a game is taken back by as many calls of [undoMove] as moves
    were made.  From a state whose king caches agree with a well-formed
    board, after a game of moves [ms] (each one returned by
    [getValidMoves] for the position it is made in) the log is the
    initial log followed by [ms], and [len(ms)] calls of [undoMove]
    succeed and restore the board, the side to move, the log and both
    king caches of the initial state. *)
Theorem game_unwinds (s s' : GameState) (ms : list Move) :
  kingsCached s = true -> wellFormedBoard (board s) = true ->
  game s ms s' ->
  moveLog s' = moveLog s ++ ms
  /\ exists s0,
       undoMoves (length ms) s' = Ok s0
       /\ board s0 = board s /\ whiteToMove s0 = whiteToMove s
       /\ moveLog s0 = moveLog s
       /\ whiteKingLocation s0 = whiteKingLocation s
       /\ blackKingLocation s0 = blackKingLocation s.
Proof.
  intros HK Hwf Hg.
  destruct (game_unwound s s' ms (conj HK Hwf) Hg) as (Hlog & s0 & E & Hs).
  split; [exact Hlog|]. exists s0. split; [exact E | exact Hs].
Qed.

Lemma game_unwinds_witness :
  exists s0,
    undoMoves 3 afterQueenCheck = Ok s0
    /\ board s0 = initialBoard /\ whiteToMove s0 = true /\ moveLog s0 = [].
Proof.
  destruct afterQueenCheck_game as (ms & Hlen & Hg).
  assert (HK : kingsCached newGame = true) by reflexivity.
  assert (Hwf : wellFormedBoard (board newGame) = true) by reflexivity.
  destruct (game_unwinds newGame afterQueenCheck ms HK Hwf Hg)
    as (_ & s0 & E & Hb & Hw & Hl & _).
  rewrite Hlen in E. exists s0. repeat split; assumption.
Defined.

(** * A captured king, pin entries and the king cache *)

(** ** Two checks on a square the king has left *)

Lemma kingTaken_reachable (s : GameState) : kingTaken = Ok s -> reachable s.
Proof.
  unfold kingTaken. intros H. run.
  repeat (eapply playMove_reachable; [|eassumption]).
  apply reachable_new.
Qed.

(** C3: the claim fails on a position of play.  After the nine plies of
    [kingTaken], all of them moves that [getValidMoves] returned, black is
    to move, the black king has been taken and its cached square [(0, 4)]
    is empty; the detector reports two checks on that square (the queen
    on [(1, 4)], the bishop on [(3, 1)]), and [getValidMoves] returns one
    move, from [(0, 4)] to [(1, 4)], whose [pieceMoved] is "--": no king
    moves. *)
Theorem double_check_moves_empty_square :
  reachable afterKingTaken
  /\ whiteToMove afterKingTaken = false
  /\ kingLocation afterKingTaken = (0, 4)
  /\ board_get (board afterKingTaken) 0 4 = Ok "--"
  /\ checksForPinsAndChecks afterKingTaken
     = Ok (true, [], [(1, 4, 1, 0); (3, 1, 1, -1)])
  /\ (exists s1, getValidMoves afterKingTaken = Ok (s1, [emptySquareMove]))
  /\ pieceMoved emptySquareMove <> allyKing afterKingTaken.
Proof.
  split; [apply kingTaken_reachable; vm_compute; reflexivity|].
  split; [reflexivity|]. split; [reflexivity|].
  split; [vm_compute; reflexivity|].
  split; [vm_compute; reflexivity|].
  split; [eexists; vm_compute; reflexivity|].
  discriminate.
Qed.

(** ** The generators and the pin list *)


















(** ** The king generator restores the cache *)

(** C7: every call of [getKingMoves(r, c, moves)] that the program makes
    returns with the king cache of the side to move, and that of the
    other side, as they were at entry, whichever destination squares were
    examined or accepted.  The generator sets the cache to each candidate
    square and then to [(r, c)].  At line 104 [(r, c)] is the cached
    square of the side to move; at line 231 it is a square on which the
    board scan found a king of the side to move, which is the cached
    square on every state whose caches agree with the board (every
    position of play, by [reachable_kingsCached]). *)
Theorem getKingMoves_restores_cache s r c moves s' moves' :
  kingLocation s = (r, c)
  \/ (kingsCached s = true /\ 0 <= r /\ 0 <= c
      /\ exists sq,
           board_get (board s) r c = Ok sq
           /\ Py.char sq 0 = Ok (allyColorOf s)
           /\ Py.char sq 1 = Ok "K"%char) ->
  getKingMoves s r c moves = Ok (s', moves') ->
  kingLocation s' = kingLocation s
  /\ whiteKingLocation s' = whiteKingLocation s
  /\ blackKingLocation s' = blackKingLocation s.
Proof.
  intros Hsite H.
  assert (Hk : kingLocation s = (r, c)).
  { destruct Hsite as [Hk|(HK & Hr & Hc & sq & Esq & E0 & E1)]; [exact Hk|].
    apply (kingsCached_ally s r c sq HK Hr Hc Esq).
    unfold isKingOf. apply char_get in E0, E1. rewrite E0, E1.
    rewrite !Ascii.eqb_refl. reflexivity. }
  rewrite (getKingMoves_home _ _ _ _ _ _ Hk H). repeat split.
Qed.

Lemma getKingMoves_restores_cache_witness :
  exists s' moves',
    getKingMoves doubleCheck 7 4 [] = Ok (s', moves')
    /\ length moves' = 3%nat
    /\ whiteKingLocation s' = (7, 4) /\ blackKingLocation s' = (0, 0).
Proof.
  destruct (getKingMoves doubleCheck 7 4 []) as [[s' moves']|e] eqn:E;
    [|vm_compute in E; discriminate].
  exists s', moves'. split; [reflexivity|].
  split; [vm_compute in E; inversion E; reflexivity|].
  destruct (getKingMoves_restores_cache doubleCheck 7 4 [] s' moves')
    as (_ & Hw & Hb).
  - right. split; [reflexivity|]. split; [lia|]. split; [lia|].
    exists "wK". repeat split.
  - exact E.
  - rewrite Hw, Hb. split; reflexivity.
Defined.

(** * The driver *)

Lemma squareAt_onBoard (location : Z * Z) :
  inWindow location ->
  onBoard (fst (squareAt location)) (snd (squareAt location)) = true.
Proof.
  unfold inWindow, squareAt, WIDTH, HEIGHT. intros [Hx Hy].
  change SQ_SIZE with 64. cbn [fst snd]. apply onBoard_iff.
  assert (0 <= fst location / 64 < 8).
  { split; [apply Z.div_pos; lia | apply Z.div_lt_upper_bound; lia]. }
  assert (0 <= snd location / 64 < 8).
  { split; [apply Z.div_pos; lia | apply Z.div_lt_upper_bound; lia]. }
  lia.
Qed.

Lemma mouseDown_tidy (d d' : Driver) (location : Z * Z) :
  tidy d -> inWindow location ->
  mouseDown d location = Ok d' -> tidy d'.
Proof.
  intros Ht Hin H. pose proof (squareAt_onBoard _ Hin) as Hon.
  unfold mouseDown in H. cbv zeta in H. fold (squareAt location) in H.
  destruct (selected_is (sqSelected d) (squareAt location)) eqn:Esel.
  - cbn [length Nat.eqb] in H. inversion H; subst d'. left. split; reflexivity.
  - destruct Ht as [[Hs Hc]|(q & Hs & Hc & Hq)]; rewrite Hc in H.
    + cbn [app length Nat.eqb] in H. inversion H; subst d'.
      right. exists (squareAt location). cbn. auto.
    + cbn [app length Nat.eqb] in H. run.
      * left. split; reflexivity.
      * right. exists (squareAt location). cbn. auto.
Qed.

Lemma handleEvent_tidy (d d' : Driver) (e : Event) :
  tidy d -> eventInWindow e -> handleEvent d e = Ok d' -> tidy d'.
Proof.
  intros Ht Hin H. destruct e as [|location|key|]; cbn [handleEvent] in H.
  - inversion H; subst d'. exact Ht.
  - eapply mouseDown_tidy; eassumption.
  - unfold keyDown in H. run; exact Ht.
  - inversion H; subst d'. exact Ht.
Qed.

(** ** A click plays a listed move *)

Lemma pieceOffer_endCol (b : Board) (white : bool) (kind : ascii) (r c : Z)
    (m : Move) :
  0 <= c <= 7 -> pieceOffer b white kind r c m -> 0 <= endCol m <= 7.
Proof.
  intros Hc H. unfold pieceOffer in H.
  assert (HS : forall e pp pd ds,
             slideOffer b e pp pd ds r c m -> 0 <= endCol m <= 7).
  { intros e pp pd ds (d & i & _ & _ & Hm & Hon & _).
    apply Move_init_ends in Hm. destruct Hm as (_ & _ & _ & -> & _).
    apply onBoard_iff in Hon. cbn [fst snd]. lia. }
  destruct (kind =? "p")%char.
  { destruct H as (r' & c' & Hm & Hcase).
    apply Move_init_ends in Hm. destruct Hm as (_ & _ & _ & -> & _).
    cbn [fst snd].
    destruct Hcase as [(_ & -> & _)|[(_ & -> & _)|(dc & Hdc & _ & -> & _)]];
      lia. }
  destruct (kind =? "R")%char; [eapply HS; exact H|].
  destruct (kind =? "N")%char.
  { destruct H as (mv & _ & Hm & Hon & _).
    apply Move_init_ends in Hm. destruct Hm as (_ & _ & _ & -> & _).
    apply onBoard_iff in Hon. cbn [fst snd]. lia. }
  destruct (kind =? "B")%char; [eapply HS; exact H|].
  destruct (kind =? "Q")%char; [eapply HS; exact H|].
  destruct (kind =? "K")%char; [|contradiction].
  destruct H as (k & _ & Hm & Hon & _).
  apply Move_init_ends in Hm. destruct Hm as (_ & _ & _ & -> & _).
  apply onBoard_iff in Hon. cbn [fst snd]. lia.
Qed.

(** The squares of a listed move fit the digits of [moveID]. *)
Lemma listed_move_digits (s s1 : GameState) (moves : list Move) (v : Move) :
  kingsCached s = true -> wellFormedBoard (board s) = true ->
  getValidMoves s = Ok (s1, moves) -> In v moves ->
  0 <= startRow v <= 7 /\ 0 <= startCol v <= 7 /\ 0 <= endCol v <= 7.
Proof.
  intros HK Hwf Hv Hin.
  pose proof (getValidMoves_offers _ _ _ Hv) as Hoff.
  rewrite Forall_forall in Hoff. specialize (Hoff _ Hin).
  destruct Hoff as [(r & c & sq & kind & Hr & Hc & Hsq & _ & _ & Hp)|Hk].
  - destruct (board_get_on_board _ _ _ _ Hwf Hr Hc Hsq) as [Hr7 Hc7].
    pose proof (pieceOffer_endCol _ _ _ _ _ _ (conj Hc Hc7) Hp) as He.
    apply pieceOffer_ends in Hp. destruct Hp as (-> & -> & _). lia.
  - destruct (kingLocation_nonneg _ HK) as [Hr Hc].
    destruct Hk as (k & Hk & Hm & Hon & _).
    apply Move_init_ends in Hm.
    destruct Hm as (-> & -> & _ & -> & Hsq & _). cbn [fst snd] in *.
    destruct (board_get_on_board _ _ _ _ Hwf Hr Hc Hsq) as [Hr7 Hc7].
    apply onBoard_iff in Hon. lia.
Qed.

(** On one board, [moveID] tells moves between single-digit squares
    apart. *)
Lemma Move_init_same_id (a b a' b' : Square) (bd : Board) (m m' : Move) :
  Move_init a b bd = Ok m -> Move_init a' b' bd = Ok m' ->
  0 <= fst a <= 7 -> 0 <= snd a <= 7 -> 0 <= snd b <= 7 ->
  0 <= fst a' <= 7 -> 0 <= snd a' <= 7 -> 0 <= snd b' <= 7 ->
  Move_eqb m m' = true -> m = m'.
Proof.
  intros H H' D1 D2 D3 D1' D2' D3' E.
  pose proof (Move_init_fields _ _ _ _ H) as [_ Hid].
  pose proof (Move_init_fields _ _ _ _ H') as [_ Hid'].
  unfold Move_eqb in E. apply Z.eqb_eq in E. rewrite Hid, Hid' in E.
  destruct a as [sr sc], b as [er ec], a' as [sr' sc'], b' as [er' ec'].
  cbn [fst snd] in *.
  assert (er = er' /\ ec = ec' /\ sr = sr' /\ sc = sc') by lia.
  destruct H0 as (-> & -> & -> & ->).
  rewrite H in H'. inversion H'. reflexivity.
Qed.

Lemma upToDate_board (d : Driver) :
  upToDate d ->
  wellFormedBoard (board (gs d)) = true
  /\ forall v move a b,
       In v (validMoves d) ->
       onBoard (fst a) (snd a) = true -> onBoard (fst b) (snd b) = true ->
       Move_init a b (board (gs d)) = Ok move ->
       Move_eqb v move = true -> v = move.
Proof.
  intros (s0 & HK & Hwf & Hv).
  destruct (getValidMoves_spec _ _ _ HK Hv) as (Hb & _ & _ & _ & Hg).
  rewrite Hb. split; [exact Hwf|].
  intros v move a b Hin Ha Hb' Hm E.
  destruct (listed_move_digits _ _ _ _ HK Hwf Hv Hin) as (D1 & D2 & D3).
  rewrite Forall_forall in Hg.
  destruct (Hg _ Hin) as (r & c & _ & _ & r' & c' & Hv').
  pose proof (Move_init_ends _ _ _ _ Hv') as (E1 & E2 & _ & E4 & _).
  cbn [fst snd] in *.
  apply onBoard_iff in Ha, Hb'.
  apply (Move_init_same_id (r, c) (r', c') a b (board s0) v move);
    cbn [fst snd]; try lia; assumption.
Qed.

Lemma Move_init_on_board (a b : Square) (bd : Board) :
  wellFormedBoard bd = true ->
  onBoard (fst a) (snd a) = true -> onBoard (fst b) (snd b) = true ->
  exists m, Move_init a b bd = Ok m.
Proof.
  intros Hwf Ha Hb. apply onBoard_iff in Ha, Hb.
  destruct (board_get_total bd (fst a) (snd a) Hwf) as (pm & Epm & _);
    try lia.
  destruct (board_get_total bd (fst b) (snd b) Hwf) as (pc & Epc & _);
    try lia.
  unfold Move_init. cbv zeta. rewrite Epm, Epc. cbn [bind]. eauto.
Qed.

Lemma mouseDown_plays (d : Driver) (location : Z * Z) :
  upToDate d -> tidy d -> inWindow location ->
  exists d',
    mouseDown d location = Ok d'
    /\ validMoves d' = validMoves d /\ running d' = running d
    /\ ((gs d' = gs d /\ moveMade d' = moveMade d)
        \/ exists q m,
             sqSelected d = Some q /\ In m (validMoves d)
             /\ (startRow m, startCol m) = q
             /\ (endRow m, endCol m) = squareAt location
             /\ makeMove (gs d) m = Ok (gs d')
             /\ moveMade d' = true
             /\ sqSelected d' = None /\ playerClicks d' = []).
Proof.
  intros Hup Ht Hin. pose proof (squareAt_onBoard _ Hin) as Hon.
  destruct (upToDate_board _ Hup) as [Hwf Hsame].
  unfold mouseDown. cbv zeta. fold (squareAt location).
  destruct (selected_is (sqSelected d) (squareAt location)) eqn:Esel.
  { cbn [length Nat.eqb]. eexists. split; [reflexivity|]. cbn. auto. }
  destruct Ht as [[Hs Hc]|(q & Hs & Hc & Hq)]; rewrite Hc.
  { cbn [app length Nat.eqb]. eexists. split; [reflexivity|]. cbn. auto. }
  cbn [app length Nat.eqb].
  change (Move_of_clicks [Some q; Some (squareAt location)] (board (gs d)))
    with (Move_init q (squareAt location) (board (gs d))).
  destruct (Move_init_on_board q (squareAt location) _ Hwf Hq Hon)
    as (move & Em).
  rewrite Em. cbn [bind].
  destruct (Move_in move (validMoves d)) eqn:Ein.
  - unfold Move_in in Ein. apply existsb_exists in Ein.
    destruct Ein as (v & Hv & Ev).
    pose proof (Hsame v move q (squareAt location) Hv Hq Hon Em Ev) as ->.
    pose proof (Move_init_ends _ _ _ _ Em) as (E1 & E2 & E3 & E4 & Hpm & Hpc).
    rewrite <- E1, <- E2 in Hpm. rewrite <- E3, <- E4 in Hpc.
    destruct (makeMove_total (gs d) move Hpm Hpc) as (g & Eg).
    rewrite Eg. cbn [bind]. eexists. split; [reflexivity|]. cbn.
    split; [reflexivity|]. split; [reflexivity|].
    right. exists q, move.
    repeat split; try assumption; try reflexivity.
    + rewrite E1, E2. destruct q; reflexivity.
    + rewrite E3, E4. destruct (squareAt location); reflexivity.
  - eexists. split; [reflexivity|]. cbn. auto.
Qed.

(** ** The positions the driver shows *)






Lemma game_log (s s' : GameState) (ms : list Move) :
  consistent s -> game s ms s' -> moveLog s' = moveLog s ++ ms.
Proof. intros Hc Hg. apply (game_unwound _ _ _ Hc Hg). Qed.








(** X24: the selection of the driver stays tidy.  If before an event
    either nothing is selected and no click is kept, or one square of the
    board is selected and it is the only click kept, then the same holds
    after the event (a mouse click being inside the window): two clicks
    are never left pending, and [Move] is only ever built from the
    selected square and a different one. *)
Theorem selection_stays_tidy (d d' : Driver) (e : Event) :
  tidy d -> eventInWindow e -> handleEvent d e = Ok d' -> tidy d'.
Proof.
  apply handleEvent_tidy.
Qed.

Lemma selection_stays_tidy_witness :
  exists d',
    handleEvent pawnSelected (MOUSEBUTTONDOWN (70, 400)) = Ok d'
    /\ sqSelected d' = Some (6, 1) /\ tidy d'.
Proof.
  destruct (handleEvent pawnSelected (MOUSEBUTTONDOWN (70, 400)))
    as [d'|e] eqn:E; [|vm_compute in E; discriminate].
  exists d'. split; [reflexivity|].
  split; [vm_compute in E; inversion E; reflexivity|].
  apply (selection_stays_tidy pawnSelected d' (MOUSEBUTTONDOWN (70, 400))).
  - right. exists (6, 4). repeat split.
  - unfold eventInWindow, inWindow, WIDTH, HEIGHT. simpl. lia.
  - exact E.
Defined.

(** X25: a click plays a listed move or none.  When [validMoves] is the
    answer of [getValidMoves] for the position of [gs] and the selection
    is tidy, a mouse click inside the window raises nothing, and either
    leaves [gs] and [moveMade] as they are, or makes a move [m] that is
    in [validMoves] (the very object's fields, pieces included, not only
    an equal [moveID]), from the selected square to the clicked one,
    sets [moveMade] and clears the selection. *)
Theorem click_plays_a_listed_move (d : Driver) (location : Z * Z) :
  upToDate d -> tidy d -> inWindow location ->
  exists d',
    mouseDown d location = Ok d'
    /\ validMoves d' = validMoves d /\ running d' = running d
    /\ ((gs d' = gs d /\ moveMade d' = moveMade d)
        \/ exists q m,
             sqSelected d = Some q /\ In m (validMoves d)
             /\ (startRow m, startCol m) = q
             /\ (endRow m, endCol m) = squareAt location
             /\ makeMove (gs d) m = Ok (gs d')
             /\ moveMade d' = true
             /\ sqSelected d' = None /\ playerClicks d' = []).
Proof.
  apply mouseDown_plays.
Qed.

Lemma click_plays_a_listed_move_witness :
  exists d',
    mouseDown pawnSelected (266, 261) = Ok d'
    /\ moveMade d' = true
    /\ board_get (board (gs d')) 4 4 = Ok "wp".
Proof.
  assert (Hup : upToDate pawnSelected).
  { exists newGame. split; [reflexivity|]. split; [reflexivity|].
    vm_compute. reflexivity. }
  assert (Ht : tidy pawnSelected).
  { right. exists (6, 4). repeat split. }
  assert (Hw : inWindow (266, 261)).
  { unfold inWindow, WIDTH, HEIGHT. simpl. lia. }
  destruct (click_plays_a_listed_move pawnSelected (266, 261) Hup Ht Hw)
    as (d' & E & _).
  exists d'. split; [exact E|].
  vm_compute in E. inversion E. split; reflexivity.
Defined.


